(** * CryptoWatcher: market data store and detection state machine

    A shallow embedding of the tick store of [core/market.py], the moving
    averages of [common/math.py] and the detection triggers of
    [core/detector.py], with the properties of the specification stated
    over it.

    Conventions of the embedding.
    - Python floats are modelled as exact rationals ([Q]); the concrete
      evaluations below use values whose comparisons are far from any
      rounding boundary of IEEE arithmetic.
    - Python dicts keyed by the pair name are modelled by the slice of one
      pair: every method embedded here reads and writes only under the key
      of the [pair] it is called with.
    - An exception that a method can raise is a value of [exn]; [try/except]
      clauses are pattern matches on it.
    - A log call has no effect on the state; it is embedded where it can
      raise, which is where its message has a placeholder without an
      argument and the level of the logger lets the message be formatted. *)

From Stdlib Require Import ZArith QArith Qround List Bool Lia Lqa.
From stdpp Require Import base option list gmap strings.

Local Open Scope Z_scope.

(** ** Python values and exceptions *)

Inductive exn : Type :=
  | KeyError
  | IndexError
  | TypeError
  | ValueError
  | ZeroDivisionError.

Inductive result (A : Type) : Type :=
  | Ret (a : A)
  | Raise (e : exn).

Arguments Ret {A} a.
Arguments Raise {A} e.

Definition rbind {A B : Type} (m : result A) (k : A -> result B) : result B :=
  match m with
  | Ret a => k a
  | Raise e => Raise e
  end.

Notation "'let*' x ':=' m 'in' k" := (rbind m (fun x => k))
  (at level 10, x pattern, m at level 100, k at level 200).

Definition Qlt_bool (x y : Q) : bool := negb (Qle_bool y x).

(** [int(x)] on a float truncates towards zero. *)
Definition py_int (x : Q) : Z :=
  if Qle_bool 0 x then Qfloor x else Qceiling x.

(** [x % m] for a float [x] and a positive integer [m]. *)
Definition py_fmod (x : Q) (m : Z) : Q :=
  (x - inject_Z m * inject_Z (Qfloor (x / inject_Z m)))%Q.

(** [l[-1]] *)
Definition py_last {A : Type} (l : list A) : result A :=
  match last l with
  | Some a => Ret a
  | None => Raise IndexError
  end.

(** [l[-k]] for a positive [k]; [l[-0]] is [l[0]]. *)
Definition py_from_end {A : Type} (l : list A) (k : nat) : result A :=
  match k with
  | O => match l with a :: _ => Ret a | [] => Raise IndexError end
  | S _ =>
      if (length l <? k)%nat then Raise IndexError
      else match l !! (length l - k)%nat with
           | Some a => Ret a
           | None => Raise IndexError
           end
  end.

(** [l[i]] for a non-negative index. *)
Definition py_get {A : Type} (l : list A) (i : nat) : result A :=
  match l !! i with
  | Some a => Ret a
  | None => Raise IndexError
  end.

(** [l.index(x)] on an array of floats. *)
Fixpoint py_index (x : Q) (l : list Q) : result nat :=
  match l with
  | [] => Raise ValueError
  | y :: l' =>
      if Qeq_bool y x then Ret O
      else match py_index x l' with
           | Ret i => Ret (S i)
           | Raise e => Raise e
           end
  end.

(** [l[-n:]] : the last [n] elements; [l[-0:]] is the whole list. *)
Definition py_suffix {A : Type} (n : nat) (l : list A) : list A :=
  match n with
  | O => l
  | S _ => drop (length l - n)%nat l
  end.

(** [l[a:b]] with integer bounds, negative bounds counted from the end. *)
Definition py_slice {A : Type} (l : list A) (a b : Z) : list A :=
  let len := Z.of_nat (length l) in
  let norm i := if i <? 0 then Z.max (i + len) 0 else Z.min i len in
  let a' := norm a in
  let b' := norm b in
  take (Z.to_nat (b' - a')) (drop (Z.to_nat a') l).

(** [sum(l)] : Python folds from the left starting at 0. *)
Definition py_sum (l : list Q) : Q := fold_left Qplus l 0%Q.

(** A key of a dict that may be absent. *)
Definition py_key {A : Type} (o : option A) : result A :=
  match o with
  | Some a => Ret a
  | None => Raise KeyError
  end.

(** ** core/market.py: the tick store of one pair *)

Record MarketConfig : Type := {
  tick_interval_secs : Z;
  tick_gap_max : Z;
  pairs_greylist_secs : Q;
  min_tick_length : nat  (* Market.min_tick_length *)
}.

Record BackRefresh : Type := {
  br_start : Q;
  br_end : Q
}.

(** The arrays of the pair.  After a refresh from a recent backup the
    source makes the live arrays and the backup arrays the same objects until
    the next [_backup_tick_data]; the store below keeps them as separate
    values, which the lookups of [_restore_ticks] (for times after the last
    stored one) do not tell apart. *)
Record TickData : Type := {
  close_times : list Q;
  close_values : list Q;
  base_24hr_volumes : list Q;            (* base_24hr_volumes[pair][0] *)
  close_times_backup : option (list Q);  (* None: pair not in the dict *)
  close_values_backup : option (list Q);
  base_24hr_volumes_backup : option (list Q);
  last_update_nums : Z;
  back_refreshes : list BackRefresh;
  in_pairs : bool;                       (* pair in self.pairs *)
  greylist_pairs : option Q              (* self.greylist_pairs[pair] *)
}.

Definition set_ticks (d : TickData) (times values volumes : list Q) : TickData :=
  {| close_times := times;
     close_values := values;
     base_24hr_volumes := volumes;
     close_times_backup := close_times_backup d;
     close_values_backup := close_values_backup d;
     base_24hr_volumes_backup := base_24hr_volumes_backup d;
     last_update_nums := last_update_nums d;
     back_refreshes := back_refreshes d;
     in_pairs := in_pairs d;
     greylist_pairs := greylist_pairs d |}.

Definition set_last_update_nums (d : TickData) (n : Z) : TickData :=
  {| close_times := close_times d;
     close_values := close_values d;
     base_24hr_volumes := base_24hr_volumes d;
     close_times_backup := close_times_backup d;
     close_values_backup := close_values_backup d;
     base_24hr_volumes_backup := base_24hr_volumes_backup d;
     last_update_nums := n;
     back_refreshes := back_refreshes d;
     in_pairs := in_pairs d;
     greylist_pairs := greylist_pairs d |}.

(** [Market._get_tick_delta]: [Some (close_time, tick_gap)], or [None] for the
    source's [(None, None)]. *)
Definition _get_tick_delta (cfg : MarketConfig) (d : TickData) (current_time : Q)
  : option (Q * Z) :=
  match py_last (close_times d) with
  | Raise _ => None
  | Ret last_time =>
      let interval_secs := tick_interval_secs cfg in
      let close_time := (current_time - py_fmod current_time interval_secs)%Q in
      if Qlt_bool close_time last_time then None
      else
        let delta_seconds := py_int (close_time - last_time)%Q in
        if delta_seconds =? 0 then None
        else if delta_seconds >? interval_secs
             then Some (close_time, delta_seconds / interval_secs)
             else Some (close_time, 0)
  end.

(** The [try] block of the loop body of [_restore_ticks]: the tick at
    [timestamp] as the backup has it. *)
Definition backup_tick (d : TickData) (timestamp : Q) : result (Q * Q) :=
  let* times := py_key (close_times_backup d) in
  let* time_index := py_index timestamp times in
  let* volumes := py_key (base_24hr_volumes_backup d) in
  let* volume := py_get volumes time_index in
  let* values := py_key (close_values_backup d) in
  let* value := py_get values time_index in
  Ret (volume, value).

(** The loop of [_restore_ticks] over [index in range(num)], from [index] on
    for [todo] more iterations.  The store the loop has reached is returned
    also when an exception leaves it. *)
Fixpoint restore_loop (cfg : MarketConfig) (num : Z) (end_value : Q)
    (end_volume : option Q) (last_volume last_value : Q)
    (todo : nat) (index : Z) (interpolated : Z) (d : TickData)
  : TickData * result Z :=
  match todo with
  | O => (d, Ret interpolated)
  | S todo' =>
      match py_last (close_times d) with
      | Raise e => (d, Raise e)
      | Ret last_time =>
          let timestamp := (last_time + inject_Z (tick_interval_secs cfg))%Q in
          let tick :=
            match backup_tick d timestamp with
            | Ret (volume, value) => Ret (volume, value, interpolated)
            | Raise ValueError | Raise KeyError =>
                match end_volume with
                | None => Raise TypeError
                | Some end_volume =>
                    let volume_step :=
                      ((end_volume - last_volume) / inject_Z (num - index + 1))%Q in
                    let value_step :=
                      ((end_value - last_value) / inject_Z (num - index + 1))%Q in
                    Ret ((last_volume + volume_step)%Q,
                         (last_value + value_step)%Q,
                         interpolated + 1)
                end
            | Raise e => Raise e
            end in
          match tick with
          | Raise e => (d, Raise e)
          | Ret (volume, value, interpolated') =>
              restore_loop cfg num end_value end_volume last_volume last_value
                todo' (index + 1) interpolated'
                (set_ticks d (close_times d ++ [timestamp])
                             (close_values d ++ [value])
                             (base_24hr_volumes d ++ [volume]))
          end
      end
  end.

(** [Market._restore_ticks] *)
Definition _restore_ticks (cfg : MarketConfig) (d : TickData) (num : Z)
    (end_value : Q) (end_volume : option Q) : TickData * result Z :=
  if num =? 0 then (d, Ret 0)
  else
    match py_last (base_24hr_volumes d) with
    | Raise e => (d, Raise e)
    | Ret last_volume =>
        match py_last (close_values d) with
        | Raise e => (d, Raise e)
        | Ret last_value =>
            restore_loop cfg num end_value end_volume last_volume last_value
              (Z.to_nat num) 0 0 d
        end
    end.

(** [Market._schedule_back_refresh]; the due time, which is drawn with
    [random.random()], is left out of the record. *)
Definition _schedule_back_refresh (cfg : MarketConfig) (d : TickData) (num : Z)
  : TickData * result unit :=
  if num >? 0 then
    match py_from_end (close_times d) (Z.to_nat num), py_last (close_times d) with
    | Ret start, Ret last_time =>
        ({| close_times := close_times d;
            close_values := close_values d;
            base_24hr_volumes := base_24hr_volumes d;
            close_times_backup := close_times_backup d;
            close_values_backup := close_values_backup d;
            base_24hr_volumes_backup := base_24hr_volumes_backup d;
            last_update_nums := last_update_nums d;
            back_refreshes :=
              back_refreshes d ++
              [{| br_start := start;
                  br_end := (last_time + inject_Z (tick_interval_secs cfg))%Q |}];
            in_pairs := in_pairs d;
            greylist_pairs := greylist_pairs d |}, Ret tt)
    | Raise e, _ => (d, Raise e)
    | _, Raise e => (d, Raise e)
    end
  else (d, Ret tt).

(** [Market._truncate_tick_data] *)
Definition _truncate_tick_data (cfg : MarketConfig) (d : TickData) : TickData :=
  let truncate := Z.of_nat (length (close_times d)) - Z.of_nat (min_tick_length cfg) in
  if truncate >? 60 then
    set_ticks d (drop (Z.to_nat truncate) (close_times d))
                (drop (Z.to_nat truncate) (close_values d))
                (drop (Z.to_nat truncate) (base_24hr_volumes d))
  else d.

(** [Market._backup_tick_data] *)
Definition _backup_tick_data (cfg : MarketConfig) (d : TickData) : TickData :=
  {| close_times := close_times d;
     close_values := close_values d;
     base_24hr_volumes := base_24hr_volumes d;
     close_times_backup := Some (py_suffix (min_tick_length cfg) (close_times d));
     close_values_backup := Some (py_suffix (min_tick_length cfg) (close_values d));
     base_24hr_volumes_backup :=
       Some (py_suffix (min_tick_length cfg) (base_24hr_volumes d));
     last_update_nums := last_update_nums d;
     back_refreshes := back_refreshes d;
     in_pairs := in_pairs d;
     greylist_pairs := greylist_pairs d |}.

(** The [try] block of [update_tick_data]. *)
Definition update_tick_data_try (cfg : MarketConfig) (d : TickData)
    (close_time : Q) (tick_gap : Z) (close_value : Q) (base_24hr_volume : option Q)
  : TickData * result unit :=
  match _restore_ticks cfg d tick_gap close_value base_24hr_volume with
  | (d1, Raise e) => (d1, Raise e)
  | (d1, Ret interpolated) =>
      let '(d2, scheduled) :=
        if interpolated =? 0 then (d1, Ret tt)
        else _schedule_back_refresh cfg d1 tick_gap in
      match scheduled with
      | Raise e => (d2, Raise e)
      | Ret _ =>
          let times := close_times d2 ++ [close_time] in
          let values := close_values d2 ++ [close_value] in
          match base_24hr_volume with
          | None => (set_ticks d2 times values (base_24hr_volumes d2), Raise TypeError)
          | Some volume =>
              let d3 := set_ticks d2 times values (base_24hr_volumes d2 ++ [volume]) in
              let d4 := set_last_update_nums d3 (tick_gap + 1) in
              (_backup_tick_data cfg (_truncate_tick_data cfg d4), Ret tt)
          end
      end
  end.

(** [Market.update_tick_data].  [current_time] is what [time.time()] returns
    and [last_values] what [api.get_last_values(pair)] returns.  The result
    is the store after the call and whether the call returned the pair
    ([true]) or [None] ([false]). *)
Definition update_tick_data (cfg : MarketConfig) (d : TickData)
    (current_time : Q) (last_values : option Q * option Q) : TickData * bool :=
  let d := set_last_update_nums d 0 in
  match _get_tick_delta cfg d current_time with
  | None => (d, false)
  | Some (close_time, tick_gap) =>
      if tick_gap >? tick_gap_max cfg then
        ({| close_times := close_times d;
            close_values := close_values d;
            base_24hr_volumes := base_24hr_volumes d;
            close_times_backup := close_times_backup d;
            close_values_backup := close_values_backup d;
            base_24hr_volumes_backup := base_24hr_volumes_backup d;
            last_update_nums := last_update_nums d;
            back_refreshes := back_refreshes d;
            in_pairs := false;
            greylist_pairs :=
              match greylist_pairs d with
              | Some t => Some t
              | None => Some (current_time + pairs_greylist_secs cfg)%Q
              end |}, false)
      else
        match fst last_values with
        | None => (d, false)
        | Some close_value =>
            match update_tick_data_try cfg d close_time tick_gap close_value
                    (snd last_values) with
            | (d', Ret _) => (d', true)
            | (d', Raise _) =>
                (* except (KeyError, IndexError, TypeError): the block raises
                   no other exception, see [update_tick_data_try_exn] *)
                (d', false)
            end
        end
  end.

(** The tick density the store is meant to keep: consecutive times differ by
    exactly the configured interval. *)
Fixpoint dense (interval : Z) (times : list Q) : bool :=
  match times with
  | [] => true
  | t :: rest =>
      match rest with
      | [] => true
      | t' :: _ => Qeq_bool (t' - t)%Q (inject_Z interval) && dense interval rest
      end
  end.

Definition Qlist_eqb (l1 l2 : list Q) : bool :=
  (length l1 =? length l2)%nat && forallb (fun p => Qeq_bool (fst p) (snd p)) (combine l1 l2).

(** ** common/math.py and the moving averages of core/market.py *)

(** [range(a, b)] *)
Definition py_range (a b : Z) : list Z :=
  map (fun k => a + Z.of_nat k) (seq 0 (Z.to_nat (b - a))).





(** ** core/market.py: the pair change filter *)

Record PairChangeConfig : Type := {
  pair_change_filter : bool;
  pair_dip_filter : bool;
  pair_change_min : Q;
  pair_change_dip : Q;
  pair_change_cutoff : Q
}.

Record LastPair : Type := {
  lp_value : Q;
  lp_change : Q;
  lp_delta : Q;
  lp_filtered : bool
}.

(** [Market.apply_pair_change_filter]: the updated [last_pairs] and whether
    the pair is filtered. *)
Definition apply_pair_change_filter (cfg : PairChangeConfig)
    (last_pairs : gmap string LastPair) (pair : string) (change value : Q)
  : gmap string LastPair * bool :=
  if negb (pair_change_filter cfg) then (last_pairs, false)
  else if negb (pair_dip_filter cfg) then (last_pairs, Qlt_bool change (pair_change_min cfg))
  else
    let change_min := pair_change_min cfg in
    let change_max := pair_change_min cfg in
    let change_dip := pair_change_dip cfg in
    let change_cutoff := pair_change_cutoff cfg in
    let '(change_delta, filtered) :=
      match last_pairs !! pair with
      | Some last =>
          let change_delta := (lp_delta last + change)%Q in
          if lp_filtered last then
            if Qlt_bool change_delta (- change_dip) then ((- change_dip)%Q, true)
            else if Qle_bool change_min change_delta then
              (if Qlt_bool change_max change_delta then change_max else change_delta, false)
            else (change_delta, true)
          else
            if Qle_bool change_delta (- change_cutoff) then
              (if Qlt_bool change_delta (- change_dip) then (- change_dip)%Q else change_delta,
               true)
            else if Qlt_bool change_max change_delta then (change_max, false)
            else (change_delta, false)
      | None =>
          if Qle_bool change_min change then
            (if Qlt_bool change_max change then change_max else change, false)
          else
            (if Qlt_bool change (- change_dip) then (- change_dip)%Q else change, true)
      end in
    (<[pair := {| lp_value := value; lp_change := change;
                  lp_delta := change_delta; lp_filtered := filtered |}]> last_pairs,
     filtered).

(** ** core/detector.py: rules, triggers and configuration *)

(** A Python dict as an association list in insertion order. *)
Fixpoint alist_lookup {K V : Type} `{EqDecision K} (k : K) (l : list (K * V)) : option V :=
  match l with
  | [] => None
  | (k', v) :: l' => if decide (k' = k) then Some v else alist_lookup k l'
  end.

(** [d[k] = v]: an existing key keeps its place, a new key goes last. *)
Fixpoint alist_set {K V : Type} `{EqDecision K} (k : K) (v : V) (l : list (K * V))
  : list (K * V) :=
  match l with
  | [] => [(k, v)]
  | (k', v') :: l' =>
      if decide (k' = k) then (k, v) :: l' else (k', v') :: alist_set k v l'
  end.

(** The rule tuples embedded here: [('ma_position', i, j)] and
    [('ma_crossover', i, j)], with the flag set for their ['ema_...']
    variants.  The indexes select windows of [config['ma_windows']]
    (or [config['ema_windows']]). *)
Inductive Rule : Type :=
  | ma_position (ema : bool) (first second : nat)
  | ma_crossover (ema : bool) (first second : nat).

#[global] Instance Rule_eq_dec : EqDecision Rule.
Proof. solve_decision. Defined.

(** The metadata a rule check returns; the source's [None] is the empty
    metadata. *)
Record Meta : Type := {
  meta_ma_values : list Q;
  meta_ma_positions : list Z
}.

Definition no_meta : Meta := {| meta_ma_values := []; meta_ma_positions := [] |}.

(** A condition trigger.  ['set'] is the 0/1 flag of the source.  Of the
    metadata lists the source keeps, those that the embedded rules fill or
    the filters read are kept. *)
Record Trigger : Type := {
  t_time : Q;
  t_set : bool;
  t_ma_values : list Q;
  t_ma_positions : list Z;
  t_ma_norm_distances : list Q
}.

Definition set_time (t : Trigger) (time : Q) : Trigger :=
  {| t_time := time; t_set := t_set t; t_ma_values := t_ma_values t;
     t_ma_positions := t_ma_positions t;
     t_ma_norm_distances := t_ma_norm_distances t |}.

Definition unset (t : Trigger) : Trigger :=
  {| t_time := t_time t; t_set := false; t_ma_values := t_ma_values t;
     t_ma_positions := t_ma_positions t;
     t_ma_norm_distances := t_ma_norm_distances t |}.

(** One entry of a ['follow'] or ['follow_all'] list.  [None] for
    ['min_secs'] or ['max_secs'] is an absent key, which takes the configured
    default; [Some None] is an explicit [None]. *)
Record FollowItem : Type := {
  fi_groups : list string;
  fi_types : list (option string);
  fi_min_delta : option Q;
  fi_max_delta : option Q;
  fi_min_ma_delta : option Q;
  fi_max_ma_delta : option Q;
  fi_min_secs : option (option Q);
  fi_max_secs : option (option Q)
}.

(** One entry of a ['follow_trade'] list. *)
Record FollowTradeItem : Type := {
  ft_types : list string;
  ft_min_delta : option Q;
  ft_max_delta : option Q;
  ft_min_secs : option (option Q);
  ft_max_secs : option (option Q)
}.

(** An entry of [config['detections']], with the defaults of
    [_get_detection_process_params] and [_update_detection_stats] applied to
    absent keys. *)
Record Detection : Type := {
  conditions : list (list Rule);
  action : string;
  occurrence : option Z;
  groups : list string;
  dtype : option string;                 (* 'type' *)
  time_frame_min : option Q;
  time_frame_max : option Q;
  value_range_min : option Q;
  value_range_max : option Q;
  distance_range : option Q;
  max_consecutive : option Z;
  overlap : option Q;
  follow : option (list FollowItem);
  follow_all : option (list FollowItem);
  follow_trade : option (list FollowTradeItem)
}.

(** What [get_detection_params] falls back to for a name that is not in
    [config['detections']]. *)
Definition default_detection : Detection :=
  {| conditions := []; action := "alert"; occurrence := Some 1;
     groups := ["default"]; dtype := Some "default";
     time_frame_min := None; time_frame_max := None;
     value_range_min := None; value_range_max := None;
     distance_range := None; max_consecutive := None; overlap := None;
     follow := None; follow_all := None; follow_trade := None |}.

Record DetectorConfig : Type := {
  detections : list (string * Detection);
  ma_windows : list nat;
  ema_windows : list nat;
  detection_flash_crash_sens : Q;
  detection_min_follow_secs : option Q;
  detection_max_follow_secs : option Q;
  trade_use_indicators : bool;
  enable_rsi : bool;
  app_log_level : Z
}.

(** The levels of [utils.logging], which are those of [logging].  The
    detector logs through a child of the application logger and inherits its
    level, [config['app_log_level']]; a method of a level below the
    logger's is replaced by one that ignores its arguments. *)
Definition INFO : Z := 20.
Definition WARNING : Z := 30.
Definition ERROR : Z := 40.

Definition get_detection (cfg : DetectorConfig) (detection_name : string) : Detection :=
  match alist_lookup detection_name (detections cfg) with
  | Some d => d
  | None => default_detection
  end.

(** What the detector reads of the [Market] service for the pair. *)
Record Market : Type := {
  m_close_times : list Q;
  m_close_values : list Q;               (* not read by the methods below *)
  m_adjusted_close_values : list Q;
  m_close_value_mas : gmap nat (list Q);
  m_close_value_emas : gmap nat (list Q)
}.

(** What the detector reads of the [Trader] service for the pair:
    [last_trades[pair][type]] as value and time, and [trades[pair]] as
    ['last_open_time'] and whether ['open'] is non-empty. *)
Record Trader : Type := {
  last_trades : gmap string (option Q * option Q);
  trades : option (option Q * bool)
}.

(** [last_detections[pair][group]] *)
Record LastDetection : Type := {
  ld_name : string;
  ld_type : option string;
  ld_count : Z;
  ld_value : Q;
  ld_ma_value : option Q;          (* None: a record without the key *)
  ld_time : Q;
  ld_orig_name : option string
}.

(** An entry of [trigger_data['followed']]. *)
Record Followed : Type := {
  fo_name : string;
  fo_time : Q;
  fo_delta : Q
}.

(** The aggregate of [_aggregate_trigger_data] with the fields later steps
    add to it. *)
Record TriggerData : Type := {
  set_triggers : list bool;
  times : list Q;
  td_ma_values : list Q;
  td_ma_norm_distances : list Q;
  followed : list Followed;
  ma_norm_values : list Q;
  current_time : option Q;
  time_frame : option Q;
  value_range : option Q
}.

(** A call the detector makes on a collaborator: an alert of the reporter
    with its prefix, or a dispatched action. *)
Inductive Event : Type :=
  | Alert (prefix detection_name : string)
  | Dispatch (action detection_name : string) (trigger_data : TriggerData).

(** The detector's state for the pair. *)
Record Detector : Type := {
  detection_triggers : list (string * list Trigger);
  cache_rule : list (Rule * (bool * Meta));     (* cache[pair]['rule'] *)
  detection_states : gmap string Z;             (* [name]['occurrence'] *)
  detection_stats : gmap string Z;              (* [name]['count'] *)
  last_update_time : Q;
  last_detections : gmap string LastDetection;
  rsi_descending : bool;                        (* indicator_states[pair]['RSI'] *)
  events : list Event
}.

Definition with_triggers (st : Detector) (tr : list (string * list Trigger)) : Detector :=
  {| detection_triggers := tr; cache_rule := cache_rule st;
     detection_states := detection_states st; detection_stats := detection_stats st;
     last_update_time := last_update_time st; last_detections := last_detections st;
     rsi_descending := rsi_descending st; events := events st |}.

Definition with_event (st : Detector) (e : Event) : Detector :=
  {| detection_triggers := detection_triggers st; cache_rule := cache_rule st;
     detection_states := detection_states st; detection_stats := detection_stats st;
     last_update_time := last_update_time st; last_detections := last_detections st;
     rsi_descending := rsi_descending st; events := events st ++ [e] |}.

(** [sum(flags) == len(flags)] on 0/1 flags. *)
Definition py_sum_flags (flags : list bool) : Z :=
  Z.of_nat (length (filter (fun b => b = true) flags)).

Definition all_flags (flags : list bool) : bool :=
  py_sum_flags flags =? Z.of_nat (length flags).

(** [math.isclose(x, 0.0)] with the default tolerances (relative 1e-09,
    absolute 0.0) holds for 0.0 only. *)
Definition isclose_zero (x : Q) : bool := Qeq_bool x 0.

Definition py_div (x y : Q) : result Q :=
  if Qeq_bool y 0 then Raise ZeroDivisionError else Ret (x / y)%Q.

(** ** core/detector.py: rule checks *)

(** The windows and moving averages a rule names: the first [try] block of
    [_check_ma_position] and [_check_ma_crossover].  [Raise IndexError] is
    the invalid rule the block itself reports; a [KeyError] of [mas[pair]]
    is not caught there. *)
Definition rule_mas (cfg : DetectorConfig) (mkt : Market) (ema : bool)
    (first second : nat) : result (list Q * list Q) :=
  let ma_windows := if ema then ema_windows cfg else ma_windows cfg in
  let mas := if ema then m_close_value_emas mkt else m_close_value_mas mkt in
  let* first_ma_value := py_get ma_windows first in
  let* second_ma_value := py_get ma_windows second in
  let* first_ma := py_key (mas !! first_ma_value) in
  let* second_ma := py_key (mas !! second_ma_value) in
  Ret (first_ma, second_ma).

(** [Detector._check_ma_position]: the state ([None] for an invalid rule),
    the metadata and the cache. *)
Definition _check_ma_position (cfg : DetectorConfig) (mkt : Market)
    (cache : list (Rule * (bool * Meta))) (rule : Rule) (ema : bool) (first second : nat)
  : result (option bool * Meta * list (Rule * (bool * Meta))) :=
  match alist_lookup rule cache with
  | Some (state, meta) => Ret (Some state, meta, cache)
  | None =>
      match rule_mas cfg mkt ema first second with
      | Raise IndexError => Ret (None, no_meta, cache)
      | Raise e => Raise e
      | Ret (first_ma, second_ma) =>
          match py_last first_ma, py_last second_ma with
          | Ret first_last, Ret second_last =>
              if isclose_zero first_last || isclose_zero second_last
              then Ret (Some false, no_meta, cache)
              else
                let position := negb (Qlt_bool first_last second_last) in
                let metadata :=
                  {| meta_ma_values := [first_last; second_last];
                     meta_ma_positions := [] |} in
                Ret (Some position, metadata,
                     alist_set rule (position, metadata) cache)
          | _, _ => Ret (Some false, no_meta, cache)
          end
      end
  end.

(** The inner [try] of [_check_ma_crossover]: whether the stored trigger of
    the condition recorded the first average below the second. *)
Definition previous_below (triggers : list (string * list Trigger))
    (detection_name : string) (condition_index : nat) : bool :=
  match alist_lookup detection_name triggers with
  | None => false
  | Some ts =>
      match ts !! condition_index with
      | None => false
      | Some trigger =>
          match t_ma_positions trigger with
          | [] => false
          | p :: _ => p =? 0
          end
      end
  end.

(** [Detector._check_ma_crossover] *)
Definition _check_ma_crossover (cfg : DetectorConfig) (mkt : Market)
    (triggers : list (string * list Trigger))
    (cache : list (Rule * (bool * Meta))) (rule : Rule) (ema : bool) (first second : nat)
    (condition_index : nat) (detection_name : string)
  : result (option bool * Meta * list (Rule * (bool * Meta))) :=
  match alist_lookup rule cache with
  | Some (state, meta) => Ret (Some state, meta, cache)
  | None =>
      match rule_mas cfg mkt ema first second with
      | Raise IndexError | Raise TypeError => Ret (None, no_meta, cache)
      | Raise e => Raise e
      | Ret (first_ma, second_ma) =>
          let not_enough :=
            Ret (Some false,
                 {| meta_ma_values := [0%Q]; meta_ma_positions := [0] |}, cache) in
          match py_from_end first_ma 2, py_from_end second_ma 2,
                py_last first_ma, py_last second_ma with
          | Ret first_prev, Ret second_prev, Ret first_last, Ret second_last =>
              if isclose_zero first_prev || isclose_zero second_prev then not_enough
              else
                let '(position, crossover) :=
                  if Qlt_bool first_last second_last then (0, false)
                  else (1, previous_below triggers detection_name condition_index) in
                let metadata :=
                  {| meta_ma_values := [first_last; second_last];
                     meta_ma_positions := [position] |} in
                Ret (Some crossover, metadata,
                     alist_set rule (crossover, metadata) cache)
          | _, _, _, _ => not_enough
          end
      end
  end.

(** [self.check_methods[rule_name](pair, rule, condition_index, detection_name)] *)
Definition check_rule (cfg : DetectorConfig) (mkt : Market)
    (triggers : list (string * list Trigger))
    (cache : list (Rule * (bool * Meta))) (rule : Rule)
    (condition_index : nat) (detection_name : string)
  : result (option bool * Meta * list (Rule * (bool * Meta))) :=
  match rule with
  | ma_position ema first second =>
      _check_ma_position cfg mkt cache rule ema first second
  | ma_crossover ema first second =>
      _check_ma_crossover cfg mkt triggers cache rule ema first second
        condition_index detection_name
  end.

(** ** core/detector.py: the triggers of a cycle *)

(** The loop of [_get_detection_trigger] over the rules of a condition: the
    states collected so far, the trigger's metadata and the cache. *)
Fixpoint check_rules (cfg : DetectorConfig) (mkt : Market)
    (triggers : list (string * list Trigger))
    (condition_index : nat) (detection_name : string) (rules : list Rule)
    (states : list bool) (ma_values : list Q) (ma_positions : list Z)
    (cache : list (Rule * (bool * Meta)))
  : result (list bool * list Q * list Z * list (Rule * (bool * Meta))) :=
  match rules with
  | [] => Ret (states, ma_values, ma_positions, cache)
  | rule :: rules' =>
      match check_rule cfg mkt triggers cache rule condition_index detection_name with
      | Ret (Some state, meta, cache') =>
          check_rules cfg mkt triggers condition_index detection_name rules'
            (states ++ [state]) (ma_values ++ meta_ma_values meta)
            (ma_positions ++ meta_ma_positions meta) cache'
      | Ret (None, _, cache') =>
          check_rules cfg mkt triggers condition_index detection_name rules'
            states ma_values ma_positions cache'
      | Raise KeyError | Raise IndexError =>
          check_rules cfg mkt triggers condition_index detection_name rules'
            states ma_values ma_positions cache
      | Raise e => Raise e
      end
  end.

(** [Detector._get_detection_trigger] for the rules of the condition. *)
Definition _get_detection_trigger (cfg : DetectorConfig) (mkt : Market)
    (triggers : list (string * list Trigger))
    (cache : list (Rule * (bool * Meta)))
    (detection_name : string) (condition_index : nat) (rules : list Rule)
  : result (Trigger * list (Rule * (bool * Meta))) :=
  let* time := py_last (m_close_times mkt) in
  let* (states, ma_values, ma_positions, cache') :=
    check_rules cfg mkt triggers condition_index detection_name rules [] [] [] cache in
  Ret ({| t_time := time; t_set := all_flags states;
          t_ma_values := ma_values; t_ma_positions := ma_positions;
          t_ma_norm_distances := [] |}, cache').

(** The stored trigger of a condition, when there is one. *)
Definition old_trigger (triggers : list (string * list Trigger))
    (detection_name : string) (condition_index : nat) : option Trigger :=
  match alist_lookup detection_name triggers with
  | None => None
  | Some ts => ts !! condition_index
  end.

(** The body of the loop of [update_detection_triggers] over the condition
    indexes of a detection. *)
Definition update_condition (cfg : DetectorConfig) (mkt : Market)
    (triggers : list (string * list Trigger))
    (cache : list (Rule * (bool * Meta)))
    (detection_name : string) (condition_index : nat) (rules : list Rule)
  : result (Trigger * list (Rule * (bool * Meta))) :=
  let* (test_trigger, cache') :=
    _get_detection_trigger cfg mkt triggers cache detection_name condition_index rules in
  match old_trigger triggers detection_name condition_index with
  | Some old =>
      if t_set old then
        Ret (if t_set test_trigger then set_time old (t_time test_trigger) else old, cache')
      else Ret (test_trigger, cache')
  | None => Ret (test_trigger, cache')
  end.

Fixpoint update_conditions (cfg : DetectorConfig) (mkt : Market)
    (triggers : list (string * list Trigger))
    (detection_name : string) (condition_index : nat) (conds : list (list Rule))
    (acc : list Trigger) (cache : list (Rule * (bool * Meta)))
  : result (list Trigger * list (Rule * (bool * Meta))) :=
  match conds with
  | [] => Ret (acc, cache)
  | rules :: conds' =>
      let* (trigger, cache') :=
        update_condition cfg mkt triggers cache detection_name condition_index rules in
      update_conditions cfg mkt triggers detection_name (S condition_index) conds'
        (acc ++ [trigger]) cache'
  end.

(** The loop of [update_detection_triggers] over [config['detections']];
    [triggers] is the stored dict, which stays in place until the loop is
    over, and [acc] the new one. *)
Fixpoint update_detections (cfg : DetectorConfig) (mkt : Market)
    (triggers : list (string * list Trigger))
    (dets : list (string * Detection))
    (acc : list (string * list Trigger)) (cache : list (Rule * (bool * Meta)))
  : result (list (string * list Trigger) * list (Rule * (bool * Meta))) :=
  match dets with
  | [] => Ret (acc, cache)
  | (detection_name, detection) :: dets' =>
      let* (ts, cache') :=
        update_conditions cfg mkt triggers detection_name 0 (conditions detection) [] cache in
      update_detections cfg mkt triggers dets' (alist_set detection_name ts acc) cache'
  end.

(** [Detector.update_detection_triggers] *)
Definition update_detection_triggers (cfg : DetectorConfig) (mkt : Market)
    (st : Detector) : result Detector :=
  let* (detections, cache) :=
    update_detections cfg mkt (detection_triggers st) (detections cfg) [] [] in
  let* time := py_last (m_close_times mkt) in
  Ret {| detection_triggers := detections; cache_rule := cache;
         detection_states := detection_states st; detection_stats := detection_stats st;
         last_update_time := time; last_detections := last_detections st;
         rsi_descending := rsi_descending st; events := events st |}.

(** ** core/detector.py: detection statistics and last detections *)

(** Python truthiness of an optional number: [None] and 0 are false. *)
Definition truthyQ (o : option Q) : bool :=
  match o with
  | Some q => negb (Qeq_bool q 0)
  | None => false
  end.

Definition truthyZ (o : option Z) : bool :=
  match o with
  | Some z => negb (z =? 0)
  | None => false
  end.

(** [a or b] on optional strings: [None] and the empty string are false. *)
Definition py_or (a b : option string) : option string :=
  match a with
  | Some s => if decide (s = "") then b else Some s
  | None => b
  end.

(** [max(l)] and [min(l)]; [ValueError] on an empty list. *)
Definition py_max (l : list Q) : result Q :=
  match l with
  | [] => Raise ValueError
  | x :: l' => Ret (fold_left (fun m y => if Qlt_bool m y then y else m) l' x)
  end.

Definition py_min (l : list Q) : result Q :=
  match l with
  | [] => Raise ValueError
  | x :: l' => Ret (fold_left (fun m y => if Qlt_bool y m then y else m) l' x)
  end.

(** The body of the loop of [_update_detection_stats] over the groups. *)
Definition update_last_detection (last : option LastDetection)
    (detection_name : string) (detection_type params_type : option string)
    (value ma_value time : Q) : LastDetection :=
  let reset (old_type : option string) (old_orig : option string) :=
    let changed := negb (bool_decide (old_type = params_type)) in
    {| ld_name := detection_name;
       ld_type := if changed then py_or detection_type params_type else old_type;
       ld_count := 1;
       ld_value := value;
       ld_ma_value := Some ma_value;
       ld_time := time;
       ld_orig_name := if changed then Some detection_name else old_orig |} in
  match last with
  | Some l =>
      if decide (ld_name l = detection_name) then
        {| ld_name := ld_name l;
           ld_type := ld_type l;
           ld_count := ld_count l + 1;
           ld_value := value;
           ld_ma_value := Some ma_value;
           ld_time := time;
           ld_orig_name := ld_orig_name l |}
      else reset (ld_type l) (ld_orig_name l)
  | None => reset None None
  end.

(** [Detector._update_detection_stats] *)
Definition _update_detection_stats (cfg : DetectorConfig) (mkt : Market)
    (st : Detector) (detection_name : string) (detection_type : option string)
  : result Detector :=
  let* count := py_key (detection_stats st !! detection_name) in
  let params := get_detection cfg detection_name in
  let* current_time := py_last (m_close_times mkt) in
  let* last_value := py_last (m_adjusted_close_values mkt) in
  let ma_value :=
    match alist_lookup detection_name (detection_triggers st) with
    | Some (t :: _) =>
        match t_ma_values t with
        | v :: _ => v
        | [] => last_value
        end
    | _ => last_value
    end in
  Ret {| detection_triggers := detection_triggers st;
         cache_rule := cache_rule st;
         detection_states := detection_states st;
         detection_stats := <[detection_name := count + 1]> (detection_stats st);
         last_update_time := last_update_time st;
         last_detections :=
           fold_left
             (fun lasts group =>
                <[group := update_last_detection (lasts !! group) detection_name
                             detection_type (dtype params) last_value ma_value
                             current_time]> lasts)
             (groups params) (last_detections st);
         rsi_descending := rsi_descending st;
         events := events st |}.

(** ** core/detector.py: the filters *)

Definition with_value_range (td : TriggerData) (r : Q) : TriggerData :=
  {| set_triggers := set_triggers td; times := times td;
     td_ma_values := td_ma_values td;
     td_ma_norm_distances := td_ma_norm_distances td;
     followed := followed td; ma_norm_values := ma_norm_values td;
     current_time := current_time td; time_frame := time_frame td;
     value_range := Some r |}.

Definition with_followed (td : TriggerData) (f : list Followed) : TriggerData :=
  {| set_triggers := set_triggers td; times := times td;
     td_ma_values := td_ma_values td;
     td_ma_norm_distances := td_ma_norm_distances td;
     followed := f; ma_norm_values := ma_norm_values td;
     current_time := current_time td; time_frame := time_frame td;
     value_range := value_range td |}.

Definition with_time_frame (td : TriggerData) (r : Q) : TriggerData :=
  {| set_triggers := set_triggers td; times := times td;
     td_ma_values := td_ma_values td;
     td_ma_norm_distances := td_ma_norm_distances td;
     followed := followed td; ma_norm_values := ma_norm_values td;
     current_time := current_time td; time_frame := Some r;
     value_range := value_range td |}.

(** [Detector._detection_filter_values] *)
Definition _detection_filter_values (params : Detection) (td : TriggerData)
  : result (bool * TriggerData) :=
  if py_sum_flags (set_triggers td) <=? 1 then Ret (false, td)
  else
    match ma_norm_values td with
    | [] => Ret (false, td)
    | values =>
        let* hi := py_max values in
        let* lo := py_min values in
        let value_range := (hi - lo)%Q in
        let td' := with_value_range td value_range in
        if truthyQ (value_range_max params)
           && Qle_bool (default 0%Q (value_range_max params)) value_range
        then Ret (true, td')
        else if truthyQ (value_range_min params)
                && Qlt_bool value_range (default 0%Q (value_range_min params))
        then Ret (true, td')
        else Ret (false, td')
    end.

(** [Detector._detection_filter_time_frame] *)
Definition _detection_filter_time_frame (params : Detection) (td : TriggerData)
  : result bool :=
  if py_sum_flags (set_triggers td) <=? 1 then Ret false
  else if truthyQ (time_frame_min params) then
    let* frame := py_key (time_frame td) in
    Ret (Qlt_bool frame (default 0%Q (time_frame_min params)))
  else Ret false.

(** [Detector._detection_filter_distances] *)
Definition _detection_filter_distances (params : Detection) (td : TriggerData)
  : result bool :=
  if py_sum_flags (set_triggers td) <=? 1 then Ret false
  else if truthyQ (distance_range params) then
    let* hi := py_max (td_ma_norm_distances td) in
    let* lo := py_min (td_ma_norm_distances td) in
    Ret (Qlt_bool (default 0%Q (distance_range params)) (hi - lo)%Q)
  else Ret false.

(** [Detector._detection_filter_consecutive] *)
Definition _detection_filter_consecutive (params : Detection) (st : Detector)
  : result bool :=
  let* group := py_get (groups params) 0 in
  match last_detections st !! group with
  | None => Ret false
  | Some last =>
      Ret (truthyZ (max_consecutive params)
           && (default 0 (max_consecutive params) <? ld_count last))
  end.

(** A follow rule after the defaults of [_detection_filter_follow] have been
    filled in. *)
Record FollowRule : Type := {
  fr_groups : list string;
  fr_types : list (option string);
  fr_min_delta : option Q;
  fr_max_delta : option Q;
  fr_min_ma_delta : option Q;
  fr_max_ma_delta : option Q;
  fr_min_secs : option Q;
  fr_max_secs : option Q
}.

Definition follow_defaults (cfg : DetectorConfig) (item : FollowItem) : FollowRule :=
  {| fr_groups := fi_groups item;
     fr_types := fi_types item;
     fr_min_delta := fi_min_delta item;
     fr_max_delta := fi_max_delta item;
     fr_min_ma_delta := fi_min_ma_delta item;
     fr_max_ma_delta := fi_max_ma_delta item;
     fr_min_secs := default (detection_min_follow_secs cfg) (fi_min_secs item);
     fr_max_secs := default (detection_max_follow_secs cfg) (fi_max_secs item) |}.

(** [x in l] on optional strings. *)
Definition py_in (x : option string) (l : list (option string)) : bool :=
  existsb (fun y => bool_decide (y = x)) l.

(** [bound is not None and test bound] *)
Definition bounded (bound : option Q) (test : Q -> bool) : bool :=
  match bound with
  | Some b => test b
  | None => false
  end.

(** [Detector._filter_follow_rule_group]: whether the rule filters the
    detection for the group, and the ['followed'] list. *)
Definition _filter_follow_rule_group (mkt : Market) (st : Detector)
    (rule : FollowRule) (group : string) (followed : list Followed)
  : result (bool * list Followed) :=
  let* current_value := py_last (m_adjusted_close_values mkt) in
  let* current_time := py_last (m_close_times mkt) in
  match last_detections st !! group with
  | None => Ret (negb (py_in None (fr_types rule)), followed)
  | Some last =>
      if py_in (ld_type last) (fr_types rule) then
        let* last_norm_value := py_div (ld_value last) current_value in
        match ld_ma_value last with
        | None => Ret (true, followed)
        | Some last_ma_value =>
            let* last_ma_norm_value := py_div last_ma_value current_value in
            let follow_delta := (1 - last_norm_value)%Q in
            let follow_ma_delta := (1 - last_ma_norm_value)%Q in
            let last_time := ld_time last in
            if bounded (fr_min_secs rule)
                 (fun s => Qlt_bool current_time (last_time + s)) then Ret (true, followed)
            else if bounded (fr_max_secs rule)
                 (fun s => Qlt_bool (last_time + s) current_time) then Ret (true, followed)
            else if bounded (fr_min_delta rule)
                 (fun b => Qlt_bool follow_delta b) then Ret (true, followed)
            else if bounded (fr_max_delta rule)
                 (fun b => Qle_bool b follow_delta) then Ret (true, followed)
            else if bounded (fr_min_ma_delta rule)
                 (fun b => Qlt_bool follow_ma_delta b) then Ret (true, followed)
            else if bounded (fr_max_ma_delta rule)
                 (fun b => Qle_bool b follow_ma_delta) then Ret (true, followed)
            else
              Ret (false,
                   followed ++ [{| fo_name := ld_name last; fo_time := last_time;
                                   fo_delta := follow_delta |}])
        end
      else Ret (true, followed)
  end.

(** The inner loop of the follow filters over the groups of a rule: [true]
    as soon as the rule is not filtered for a group. *)
Fixpoint follow_rule_passes (mkt : Market) (st : Detector) (rule : FollowRule)
    (groups : list string) (followed : list Followed)
  : result (bool * list Followed) :=
  match groups with
  | [] => Ret (false, followed)
  | group :: groups' =>
      let* (filtered, followed') :=
        _filter_follow_rule_group mkt st rule group followed in
      if negb filtered then Ret (true, followed')
      else follow_rule_passes mkt st rule groups' followed'
  end.

(** The loop of [_detection_filter_follow] over the rules: the filter
    returns [False] at the first rule and group that are not filtered. *)
Fixpoint follow_loop (mkt : Market) (st : Detector) (rules : list FollowRule)
    (followed : list Followed) : result (bool * list Followed) :=
  match rules with
  | [] => Ret (true, followed)
  | rule :: rules' =>
      let* (passed, followed') :=
        follow_rule_passes mkt st rule (fr_groups rule) followed in
      if passed then Ret (false, followed')
      else follow_loop mkt st rules' followed'
  end.

(** [Detector._detection_filter_follow] *)
Definition _detection_filter_follow (cfg : DetectorConfig) (mkt : Market)
    (st : Detector) (params : Detection) (td : TriggerData)
  : result (bool * TriggerData) :=
  let rules := map (follow_defaults cfg) (default [] (follow params)) in
  let* (filtered, followed') := follow_loop mkt st rules (followed td) in
  Ret (filtered, with_followed td followed').

(** The loop of [_detection_filter_follow_all]: the number of rules that are
    not filtered for one of their groups. *)
Fixpoint follow_all_loop (mkt : Market) (st : Detector) (rules : list FollowRule)
    (num_passed : Z) (followed : list Followed) : result (Z * list Followed) :=
  match rules with
  | [] => Ret (num_passed, followed)
  | rule :: rules' =>
      let* (passed, followed') :=
        follow_rule_passes mkt st rule (fr_groups rule) followed in
      follow_all_loop mkt st rules'
        (if passed then num_passed + 1 else num_passed) followed'
  end.

(** [Detector._detection_filter_follow_all] *)
Definition _detection_filter_follow_all (cfg : DetectorConfig) (mkt : Market)
    (st : Detector) (params : Detection) (td : TriggerData)
  : result (bool * TriggerData) :=
  let rules := map (follow_defaults cfg) (default [] (follow_all params)) in
  let* (num_passed, followed') := follow_all_loop mkt st rules 0 (followed td) in
  Ret (negb (num_passed =? Z.of_nat (length rules)), with_followed td followed').

(** The checks of [_filter_follow_trade_rule] on one trade type: [true] when
    the loop goes on to the next type. *)
Definition follow_trade_continues (rule : FollowTradeItem)
    (min_secs max_secs : option Q) (current_time : Q)
    (follow_delta last_time : option Q) : bool :=
  match min_secs, last_time with
  | Some _, None => true
  | Some s, Some t => Qlt_bool current_time (t + s)
  | None, _ => false
  end
  || match max_secs, last_time with
     | Some _, None => true
     | Some s, Some t => Qlt_bool (t + s) current_time
     | None, _ => false
     end
  || match ft_min_delta rule, follow_delta with
     | Some _, None => true
     | Some b, Some delta => Qlt_bool delta b
     | None, _ => false
     end
  || match ft_max_delta rule, follow_delta with
     | Some _, None => true
     | Some b, Some delta => Qle_bool b delta
     | None, _ => false
     end.

(** [Detector._filter_follow_trade_rule] *)
Fixpoint follow_trade_types (mkt : Market) (trader : Trader) (rule : FollowTradeItem)
    (min_secs max_secs : option Q) (current_value current_time : Q)
    (types : list string) : result bool :=
  match types with
  | [] => Ret true
  | follow_type :: types' =>
      let* (last_value, last_time) := py_key (last_trades trader !! follow_type) in
      let* follow_delta :=
        match last_value with
        | Some v => let* n := py_div v current_value in Ret (Some (1 - n)%Q)
        | None => Ret None
        end in
      if follow_trade_continues rule min_secs max_secs current_time follow_delta last_time
      then follow_trade_types mkt trader rule min_secs max_secs current_value
             current_time types'
      else Ret false
  end.

Definition _filter_follow_trade_rule (cfg : DetectorConfig) (mkt : Market)
    (trader : Trader) (rule : FollowTradeItem) : result bool :=
  let* current_value := py_last (m_adjusted_close_values mkt) in
  let* current_time := py_last (m_close_times mkt) in
  follow_trade_types mkt trader rule
    (default (detection_min_follow_secs cfg) (ft_min_secs rule))
    (default (detection_max_follow_secs cfg) (ft_max_secs rule))
    current_value current_time (ft_types rule).

(** [Detector._detection_filter_follow_trade] *)
Fixpoint _detection_filter_follow_trade (cfg : DetectorConfig) (mkt : Market)
    (trader : Trader) (rules : list FollowTradeItem) : result bool :=
  match rules with
  | [] => Ret true
  | rule :: rules' =>
      let* filtered := _filter_follow_trade_rule cfg mkt trader rule in
      if negb filtered then Ret false
      else _detection_filter_follow_trade cfg mkt trader rules'
  end.

Definition is_buy (action : string) : bool :=
  bool_decide (action = "buy") || bool_decide (action = "rebuy").

(** [Detector._detection_filter_overlap] *)
Definition _detection_filter_overlap (cfg : DetectorConfig) (mkt : Market)
    (trader : Trader) (st : Detector) (detection_name : string) (params : Detection)
  : result (bool * Detector) :=
  if negb (is_buy (action params)) then Ret (false, st)
  else
    let* current_time := py_last (m_close_times mkt) in
    let* (last_open_time, has_open_trades) := py_key (trades trader) in
    if truthyQ (overlap params) && has_open_trades then
      match last_open_time with
      | None => Raise TypeError
      | Some t =>
          if Qlt_bool ((current_time - t) / 60)%Q (default 0%Q (overlap params)) then
            let* st' := _update_detection_stats cfg mkt st detection_name (Some "skip") in
            Ret (true, with_event st' (Alert "OVERLAP SKIP BUY" detection_name))
          else Ret (false, st)
      end
    else Ret (false, st).

Definition with_occurrence (st : Detector) (detection_name : string) (n : Z) : Detector :=
  {| detection_triggers := detection_triggers st; cache_rule := cache_rule st;
     detection_states := <[detection_name := n]> (detection_states st);
     detection_stats := detection_stats st;
     last_update_time := last_update_time st; last_detections := last_detections st;
     rsi_descending := rsi_descending st; events := events st |}.

(** [Detector._detection_filter_occurrence] *)
Definition _detection_filter_occurrence (cfg : DetectorConfig) (mkt : Market)
    (st : Detector) (detection_name : string) (params : Detection)
  : result (bool * Detector) :=
  let* n := py_key (detection_states st !! detection_name) in
  let st1 := with_occurrence st detection_name (n + 1) in
  match occurrence params with
  | None => Raise TypeError
  | Some wanted =>
      if n + 1 <? wanted then
        let* st2 := _update_detection_stats cfg mkt st1 detection_name (Some "skip") in
        Ret (true, st2)
      else Ret (false, with_occurrence st1 detection_name 0)
  end.

(** ** core/detector.py: filtering and processing detections *)

(** The keys of [Detector.filter_methods], in the order of the dict. *)
Inductive FilterParam : Type :=
  | P_value_range_min
  | P_value_range_max
  | P_time_frame_min
  | P_distance_range
  | P_max_consecutive
  | P_follow
  | P_follow_all
  | P_follow_trade
  | P_overlap
  | P_occurrence.

Definition filter_methods : list FilterParam :=
  [P_value_range_min; P_value_range_max; P_time_frame_min; P_distance_range;
   P_max_consecutive; P_follow; P_follow_all; P_follow_trade; P_overlap;
   P_occurrence].

(** [params[param] is not None] *)
Definition param_is_set (params : Detection) (param : FilterParam) : bool :=
  match param with
  | P_value_range_min => bool_decide (is_Some (value_range_min params))
  | P_value_range_max => bool_decide (is_Some (value_range_max params))
  | P_time_frame_min => bool_decide (is_Some (time_frame_min params))
  | P_distance_range => bool_decide (is_Some (distance_range params))
  | P_max_consecutive => bool_decide (is_Some (max_consecutive params))
  | P_follow => bool_decide (is_Some (follow params))
  | P_follow_all => bool_decide (is_Some (follow_all params))
  | P_follow_trade => bool_decide (is_Some (follow_trade params))
  | P_overlap => bool_decide (is_Some (overlap params))
  | P_occurrence => bool_decide (is_Some (occurrence params))
  end.

(** [method(pair, detection_name, trigger_data)] for the method of [param]. *)
Definition run_filter (cfg : DetectorConfig) (mkt : Market) (trader : Trader)
    (param : FilterParam) (detection_name : string) (params : Detection)
    (st : Detector) (td : TriggerData) : result (bool * Detector * TriggerData) :=
  match param with
  | P_value_range_min | P_value_range_max =>
      let* (r, td') := _detection_filter_values params td in Ret (r, st, td')
  | P_time_frame_min =>
      let* r := _detection_filter_time_frame params td in Ret (r, st, td)
  | P_distance_range =>
      let* r := _detection_filter_distances params td in Ret (r, st, td)
  | P_max_consecutive =>
      let* r := _detection_filter_consecutive params st in Ret (r, st, td)
  | P_follow =>
      let* (r, td') := _detection_filter_follow cfg mkt st params td in Ret (r, st, td')
  | P_follow_all =>
      let* (r, td') := _detection_filter_follow_all cfg mkt st params td in Ret (r, st, td')
  | P_follow_trade =>
      let* r := _detection_filter_follow_trade cfg mkt trader
                  (default [] (follow_trade params)) in
      Ret (r, st, td)
  | P_overlap =>
      let* (r, st') := _detection_filter_overlap cfg mkt trader st detection_name params in
      Ret (r, st', td)
  | P_occurrence =>
      let* (r, st') := _detection_filter_occurrence cfg mkt st detection_name params in
      Ret (r, st', td)
  end.

(** [self.detection_triggers[pair][detection_name] = []] *)
Definition clear_triggers (st : Detector) (detection_name : string) : Detector :=
  with_triggers st (alist_set detection_name [] (detection_triggers st)).

(** The loop of [_filter_detection] over [filter_methods]; it is entered
    with [triggered] true and breaks once a filter has vetoed. *)
Fixpoint filter_loop (cfg : DetectorConfig) (mkt : Market) (trader : Trader)
    (detection_name : string) (params : Detection) (methods : list FilterParam)
    (st : Detector) (td : TriggerData) : result (bool * Detector * TriggerData) :=
  match methods with
  | [] => Ret (true, st, td)
  | param :: methods' =>
      if param_is_set params param then
        let* (vetoed, st', td') :=
          run_filter cfg mkt trader param detection_name params st td in
        if vetoed then Ret (false, clear_triggers st' detection_name, td')
        else filter_loop cfg mkt trader detection_name params methods' st' td'
      else filter_loop cfg mkt trader detection_name params methods' st td
  end.

(** [Detector._set_triggers_time_frame] *)
Definition _set_triggers_time_frame (triggers : list Trigger) (td : TriggerData)
  : TriggerData :=
  match py_max (map t_time triggers), py_min (map t_time triggers) with
  | Ret hi, Ret lo => with_time_frame td (hi - lo)%Q
  | _, _ => td
  end.

(** [Detector._filter_detection]: whether the detection was filtered out. *)
Definition _filter_detection (cfg : DetectorConfig) (mkt : Market) (trader : Trader)
    (detection_name : string) (params : Detection) (triggers : list Trigger)
    (st : Detector) (td : TriggerData) : result (bool * Detector * TriggerData) :=
  if all_flags (set_triggers td) then
    let td := _set_triggers_time_frame triggers td in
    let* (triggered, st1, td1) :=
      filter_loop cfg mkt trader detection_name params filter_methods st td in
    if triggered && trade_use_indicators cfg && is_buy (action params)
       && enable_rsi cfg && rsi_descending st1
    then
      Ret (true,
           clear_triggers (with_event st1 (Alert "RSI SKIP BUY" detection_name))
             detection_name,
           td1)
    else Ret (negb triggered, st1, td1)
  else Ret (true, st, td).

(** [Detector._timeout_triggers] *)
Definition _timeout_triggers (mkt : Market) (params : Detection)
    (triggers : list Trigger) : result (list Trigger) :=
  match time_frame_max params with
  | None => Ret triggers
  | Some frame_max =>
      let* current_time := py_last (m_close_times mkt) in
      Ret (map (fun trigger =>
                  if Qlt_bool frame_max (current_time - t_time trigger)%Q
                  then unset trigger else trigger)
               triggers)
  end.

(** [Detector._aggregate_trigger_data] followed by
    [Detector._normalize_trigger_values] and the current time. *)
Definition _aggregate_trigger_data (triggers : list Trigger) : TriggerData :=
  {| set_triggers := map t_set triggers;
     times := map t_time triggers;
     td_ma_values := concat (map t_ma_values triggers);
     td_ma_norm_distances := concat (map t_ma_norm_distances triggers);
     followed := [];
     ma_norm_values := [];
     current_time := None;
     time_frame := None;
     value_range := None |}.

Definition _normalize_trigger_values (td : TriggerData) (time : Q) : TriggerData :=
  let ma_values_max :=
    match py_max (td_ma_values td) with
    | Ret m => if Qeq_bool m 0 then 1%Q else m
    | Raise _ => 1%Q
    end in
  {| set_triggers := set_triggers td; times := times td;
     td_ma_values := td_ma_values td;
     td_ma_norm_distances := td_ma_norm_distances td;
     followed := followed td;
     ma_norm_values := map (fun value => (value / ma_values_max)%Q) (td_ma_values td);
     current_time := Some time;
     time_frame := time_frame td;
     value_range := value_range td |}.

(** The flash crash guard of [process_detections]: the ratio it compares
    with the sensitivity is taken from [market.close_times]. *)
Definition flash_crash (cfg : DetectorConfig) (mkt : Market) : result bool :=
  let* last := py_last (m_close_times mkt) in
  let* prev := py_from_end (m_close_times mkt) 2 in
  let* value_diff_percent := py_div last prev in
  Ret (Qle_bool value_diff_percent (detection_flash_crash_sens cfg)).

(** The body of the loop of [process_detections] for one detection and its
    stored triggers.  When the guard holds, the source calls
    [self.log.warning] with a message that has a placeholder and no argument
    before its [continue].  With a logger level of [WARNING] or below the
    logger applies [str.format] to the message with the empty argument list,
    which raises [IndexError], so the iteration ends in that exception and
    the [continue] is not reached; with a higher level the call does nothing
    and the iteration ends with the triggers as they are. *)
Definition process_detection (cfg : DetectorConfig) (mkt : Market) (trader : Trader)
    (st : Detector) (detection_name : string) (triggers : list Trigger)
  : result Detector :=
  let params := get_detection cfg detection_name in
  let* triggers := _timeout_triggers mkt params triggers in
  let st := with_triggers st (alist_set detection_name triggers (detection_triggers st)) in
  let td := _aggregate_trigger_data triggers in
  let* time := py_last (m_close_times mkt) in
  let td := _normalize_trigger_values td time in
  let* (filtered, st1, td1) :=
    _filter_detection cfg mkt trader detection_name params triggers st td in
  if filtered then Ret st1
  else
    let* deferred := flash_crash cfg mkt in
    if deferred then
      if app_log_level cfg <=? WARNING then Raise IndexError else Ret st1
    else
      let st2 := with_event st1 (Dispatch (action params) detection_name td1) in
      let* st3 := _update_detection_stats cfg mkt st2 detection_name None in
      Ret (clear_triggers st3 detection_name).

(** The loop of [process_detections] over the items of
    [detection_triggers[pair]]. *)
Fixpoint process_loop (cfg : DetectorConfig) (mkt : Market) (trader : Trader)
    (items : list (string * list Trigger)) (st : Detector) : result Detector :=
  match items with
  | [] => Ret st
  | (detection_name, triggers) :: items' =>
      let* st' := process_detection cfg mkt trader st detection_name triggers in
      process_loop cfg mkt trader items' st'
  end.

(** [Detector.process_detections] *)
Definition process_detections (cfg : DetectorConfig) (mkt : Market) (trader : Trader)
    (st : Detector) : result Detector :=
  process_loop cfg mkt trader (detection_triggers st) st.

(** ** Observations the properties are stated with *)

Definition is_dispatch (e : Event) : bool :=
  match e with
  | Dispatch _ _ _ => true
  | Alert _ _ => false
  end.

(** Events that are not dispatches. *)
Definition alerts_only (evs : list Event) : Prop :=
  Forall (fun e => is_dispatch e = false) evs.

(** The dispatches of an event list for one detection. *)
Definition dispatch_for (detection_name : string) (e : Event) : bool :=
  match e with
  | Dispatch _ n _ => bool_decide (n = detection_name)
  | Alert _ _ => false
  end.

Definition dispatches_of (detection_name : string) (evs : list Event) : list Event :=
  List.filter (dispatch_for detection_name) evs.

(** Whether a follow rule filters the detection for a group: the verdict of
    [_filter_follow_rule_group], without the ['followed'] list. *)
Definition rule_group_filtered (mkt : Market) (st : Detector) (rule : FollowRule)
    (group : string) : result bool :=
  let* (filtered, _) := _filter_follow_rule_group mkt st rule group [] in
  Ret filtered.

(** The relative position of the two averages a crossover rule names, when
    both have two samples and the earlier ones are not zero: 0 when the first
    is below the second, 1 when it is at or above it. *)
Definition crossover_position (cfg : DetectorConfig) (mkt : Market) (ema : bool)
    (first second : nat) : option Z :=
  match rule_mas cfg mkt ema first second with
  | Ret (first_ma, second_ma) =>
      match py_from_end first_ma 2, py_from_end second_ma 2,
            py_last first_ma, py_last second_ma with
      | Ret first_prev, Ret second_prev, Ret first_last, Ret second_last =>
          if isclose_zero first_prev || isclose_zero second_prev then None
          else Some (if Qlt_bool first_last second_last then 0 else 1)
      | _, _, _, _ => None
      end
  | Raise _ => None
  end.

(** The state a crossover rule returns when it is evaluated, not served from
    the cache, against the stored triggers. *)
Definition crossover_state (cfg : DetectorConfig) (mkt : Market) (st : Detector)
    (detection_name : string) (condition_index : nat) (ema : bool) (first second : nat)
  : result (option bool) :=
  let* (state, _, _) :=
    _check_ma_crossover cfg mkt (detection_triggers st) []
      (ma_crossover ema first second) ema first second condition_index detection_name in
  Ret state.

(** One tick cycle of the detector for the pair. *)
Definition cycle (cfg : DetectorConfig) (mkt : Market) (trader : Trader)
    (st : Detector) : result Detector :=
  let* st' := update_detection_triggers cfg mkt st in
  process_detections cfg mkt trader st'.

Definition is_position_rule (rule : Rule) : Prop :=
  match rule with
  | ma_position _ _ _ => True
  | ma_crossover _ _ _ => False
  end.

(** What a cached result of a rule can be in a cycle on the market [mkt]. *)
Definition result_ok (cfg : DetectorConfig) (mkt : Market) (rule : Rule)
    (state : bool) (meta : Meta) : Prop :=
  match rule with
  | ma_position _ _ _ => meta_ma_positions meta = []
  | ma_crossover ema first second =>
      exists p, crossover_position cfg mkt ema first second = Some p /\
                meta_ma_positions meta = [p] /\
                (state = true -> p = 1)
  end.

Definition cache_ok (cfg : DetectorConfig) (mkt : Market)
    (cache : list (Rule * (bool * Meta))) : Prop :=
  forall rule state meta,
    alist_lookup rule cache = Some (state, meta) -> result_ok cfg mkt rule state meta.

(** A stored trigger that carries the position [p] of a crossover rule: its
    first recorded position is [p], and with [p = 0] it is not set. *)
Definition carries (p : Z) (t : Trigger) : Prop :=
  (exists rest, t_ma_positions t = p :: rest) /\ (p = 0 -> t_set t = false).

Definition not_set (o : option Trigger) : Prop :=
  match o with
  | Some t => t_set t = false
  | None => True
  end.

(** The states a crossover rule returns over successive cycles on the given
    markets, each cycle being an update followed by the processing. *)
Fixpoint crossover_states (cfg : DetectorConfig) (trader : Trader)
    (name : string) (idx : nat) (ema : bool) (a b : nat)
    (markets : list Market) (st : Detector) : result (list (option bool)) :=
  match markets with
  | [] => Ret []
  | mkt :: markets' =>
      let* state := crossover_state cfg mkt st name idx ema a b in
      let* st' := cycle cfg mkt trader st in
      let* states := crossover_states cfg trader name idx ema a b markets' st' in
      Ret (state :: states)
  end.

(** What [_restore_ticks] stores for the tick of loop index [index] (the
    [index + 1]-th missing tick) when it interpolates. *)
Definition restored_value (last_value end_value : Q) (num index : Z) : Q :=
  (last_value + (end_value - last_value) / inject_Z (num - index + 1))%Q.

(** The value of the specification for the [k]-th of [n] missing ticks: the
    point on the straight line from the last value to the new one. *)
Definition linear_value (last_value end_value : Q) (n k : Z) : Q :=
  (last_value + inject_Z k * (end_value - last_value) / inject_Z (n + 1))%Q.

(** ** Configurations, markets and stores of the examples *)

Definition default_cutoff_config : PairChangeConfig :=
  {| pair_change_filter := true; pair_dip_filter := true;
     pair_change_min := 1 # 100; pair_change_dip := 2 # 100;
     pair_change_cutoff := 125 # 10000 |}.

Definition market_config_60 : MarketConfig :=
  {| tick_interval_secs := 60; tick_gap_max := 60;
     pairs_greylist_secs := 600; min_tick_length := 100 |}.

Definition two_ticks : TickData :=
  {| close_times := [0; 60]%Q; close_values := [10; 10]%Q;
     base_24hr_volumes := [5; 5]%Q;
     close_times_backup := None; close_values_backup := None;
     base_24hr_volumes_backup := None;
     last_update_nums := 0; back_refreshes := [];
     in_pairs := true; greylist_pairs := None |}.

Definition buy_on_position : Detection :=
  {| conditions := [[ma_position false 0 1]]; action := "buy"; occurrence := Some 1;
     groups := ["default"]; dtype := Some "default";
     time_frame_min := None; time_frame_max := None;
     value_range_min := None; value_range_max := None;
     distance_range := None; max_consecutive := None; overlap := None;
     follow := None; follow_all := None; follow_trade := None |}.

Definition crash_config : DetectorConfig :=
  {| detections := [("breakout", buy_on_position)];
     ma_windows := [5; 10]%nat; ema_windows := [];
     detection_flash_crash_sens := 1 # 2;
     detection_min_follow_secs := None; detection_max_follow_secs := None;
     trade_use_indicators := false; enable_rsi := false;
     app_log_level := INFO |}.

(** [crash_config] with a sensitivity that the ratio of two successive
    close times (120 / 60) does not exceed, at the given logger level. *)
Definition sensitive_config (level : Z) : DetectorConfig :=
  {| detections := [("breakout", buy_on_position)];
     ma_windows := [5; 10]%nat; ema_windows := [];
     detection_flash_crash_sens := 2;
     detection_min_follow_secs := None; detection_max_follow_secs := None;
     trade_use_indicators := false; enable_rsi := false;
     app_log_level := level |}.

Definition crash_market : Market :=
  {| m_close_times := [60; 120]%Q;
     m_close_values := [100; 40]%Q;
     m_adjusted_close_values := [100; 40]%Q;
     m_close_value_mas := {[ 5%nat := [90; 88]%Q; 10%nat := [80; 79]%Q ]};
     m_close_value_emas := ∅ |}.

Definition no_trades : Trader := {| last_trades := ∅; trades := Some (None, false) |}.

Definition fresh_detector (names : list string) : Detector :=
  {| detection_triggers := []; cache_rule := [];
     detection_states := list_to_map (map (fun n => (n, 0)) names);
     detection_stats := list_to_map (map (fun n => (n, 0)) names);
     last_update_time := 0; last_detections := ∅;
     rsi_descending := false; events := [] |}.

Definition set_trigger_at_60 : Trigger :=
  {| t_time := 60; t_set := true; t_ma_values := [90; 80]%Q;
     t_ma_positions := []; t_ma_norm_distances := [] |}.

Definition buy_on_second : Detection :=
  {| conditions := [[ma_position false 0 1]]; action := "buy"; occurrence := Some 2;
     groups := ["default"]; dtype := Some "default";
     time_frame_min := None; time_frame_max := None;
     value_range_min := None; value_range_max := None;
     distance_range := None; max_consecutive := None; overlap := None;
     follow := None; follow_all := None; follow_trade := None |}.

Definition second_config : DetectorConfig :=
  {| detections := [("breakout", buy_on_second); ("rebound", buy_on_position)];
     ma_windows := [5; 10]%nat; ema_windows := [];
     detection_flash_crash_sens := 1 # 2;
     detection_min_follow_secs := None; detection_max_follow_secs := None;
     trade_use_indicators := false; enable_rsi := false;
     app_log_level := INFO |}.

Definition both_set : Detector :=
  with_triggers (fresh_detector ["breakout"; "rebound"])
    [("breakout", [set_trigger_at_60]); ("rebound", [set_trigger_at_60])].

Definition aggregate_at_120 : TriggerData :=
  _normalize_trigger_values (_aggregate_trigger_data [set_trigger_at_60]) 120.

Definition follow_confirmed (group : string) : FollowItem :=
  {| fi_groups := [group]; fi_types := [Some "confirm"];
     fi_min_delta := None; fi_max_delta := None;
     fi_min_ma_delta := None; fi_max_ma_delta := None;
     fi_min_secs := None; fi_max_secs := None |}.

Definition sell_after_both : Detection :=
  {| conditions := [[ma_position false 0 1]]; action := "sellpush";
     occurrence := Some 1; groups := ["default"]; dtype := Some "default";
     time_frame_min := None; time_frame_max := None;
     value_range_min := None; value_range_max := None;
     distance_range := None; max_consecutive := None; overlap := None;
     follow := Some [follow_confirmed "surge"; follow_confirmed "dip"];
     follow_all := None; follow_trade := None |}.

Definition follow_config : DetectorConfig :=
  {| detections := [("exit", sell_after_both)];
     ma_windows := [5; 10]%nat; ema_windows := [];
     detection_flash_crash_sens := 1 # 2;
     detection_min_follow_secs := None; detection_max_follow_secs := None;
     trade_use_indicators := false; enable_rsi := false;
     app_log_level := INFO |}.

Definition after_dip : Detector :=
  {| detection_triggers := [("exit", [set_trigger_at_60])]; cache_rule := [];
     detection_states := {[ "exit" := 0 ]};
     detection_stats := {[ "exit" := 0 ]};
     last_update_time := 60;
     last_detections :=
       {[ "dip" := {| ld_name := "dip_seen"; ld_type := Some "confirm"; ld_count := 1;
                      ld_value := 50; ld_ma_value := Some 50%Q; ld_time := 60;
                      ld_orig_name := Some "dip_seen" |} ]};
     rsi_descending := false; events := [] |}.

Definition on_crossover (conds : list (list Rule)) : Detection :=
  {| conditions := conds; action := "alert"; occurrence := Some 1;
     groups := ["default"]; dtype := Some "default";
     time_frame_min := None; time_frame_max := None;
     value_range_min := None; value_range_max := None;
     distance_range := None; max_consecutive := None; overlap := None;
     follow := None; follow_all := None; follow_trade := None |}.

Definition crossover_config (conds : list (list Rule)) : DetectorConfig :=
  {| detections := [("cross", on_crossover conds)];
     ma_windows := [5; 10; 20; 40]%nat; ema_windows := [];
     detection_flash_crash_sens := 1 # 2;
     detection_min_follow_secs := None; detection_max_follow_secs := None;
     trade_use_indicators := false; enable_rsi := false;
     app_log_level := INFO |}.

(** A market at tick [n] whose MA 5 ends at [fast] and MA 10 at 100, with
    MA 20 (ending at 90) below MA 40 (ending at 95) throughout. *)
Definition market_at (n : Z) (fast : Q) : Market :=
  {| m_close_times := [inject_Z (60 * n); inject_Z (60 * (n + 1))];
     m_close_values := [100; 100]%Q;
     m_adjusted_close_values := [100; 100]%Q;
     m_close_value_mas :=
       {[ 5%nat := [100; fast]%Q; 10%nat := [100; 100]%Q;
          20%nat := [90; 90]%Q; 40%nat := [95; 95]%Q ]};
     m_close_value_emas := ∅ |}.

Definition below_at (n : Z) : Market := market_at n 99.
Definition above_at (n : Z) : Market := market_at n 101.

Definition single_crossover : DetectorConfig :=
  crossover_config [[ma_crossover false 0 1]].

(** The detector after one cycle of [single_crossover] on the market. *)
Definition after (mkt : Market) (st : Detector) : Detector :=
  match cycle single_crossover mkt no_trades st with
  | Ret st' => st'
  | Raise _ => st
  end.

(** ** core/market.py: greylisting, raw ticks and source data *)

(** [Market._handle_greylisted]: the store after the call and whether the
    pair is still greylisted at the time [now]. *)
Definition _handle_greylisted (d : TickData) (now : Q) : TickData * bool :=
  match greylist_pairs d with
  | Some expiry =>
      if Qle_bool expiry now then
        ({| close_times := close_times d;
            close_values := close_values d;
            base_24hr_volumes := base_24hr_volumes d;
            close_times_backup := close_times_backup d;
            close_values_backup := close_values_backup d;
            base_24hr_volumes_backup := base_24hr_volumes_backup d;
            last_update_nums := last_update_nums d;
            back_refreshes := back_refreshes d;
            in_pairs := in_pairs d;
            greylist_pairs := None |}, false)
      else (d, true)
  | None => (d, false)
  end.

(** A raw tick as the API returns it: the keys ['T'] and ['C']. *)
Record RawTick : Type := {
  tick_T : Q;
  tick_C : Q
}.

(** The [while] loop of [_expand_ticks], which repeats the last value until
    the next raw tick is at most one interval away.  With a positive
    interval the loop runs at most [int(close_time - last_time)] times, which
    is the [fuel] it is called with; [None] is a loop that does not end. *)
Fixpoint expand_gap (fuel : nat) (interval : Z) (close_time last_time last_value : Q)
    (times values : list Q) : option (list Q * list Q) :=
  if py_int (close_time - last_time) >? interval then
    match fuel with
    | O => None
    | S fuel' =>
        let last_time := (last_time + inject_Z interval)%Q in
        expand_gap fuel' interval close_time last_time last_value
          (times ++ [last_time]) (values ++ [last_value])
    end
  else Some (times, values).

(** The loop of [_expand_ticks] over [ticks[1:]]. *)
Fixpoint expand_loop (interval : Z) (ticks : list RawTick) (last_time last_value : Q)
    (times values : list Q) : option (list Q * list Q) :=
  match ticks with
  | [] => Some (times, values)
  | tick :: ticks' =>
      let close_time := tick_T tick in
      match expand_gap (Z.to_nat (py_int (close_time - last_time))) interval
              close_time last_time last_value times values with
      | None => None
      | Some (times, values) =>
          expand_loop interval ticks' close_time (tick_C tick)
            (times ++ [close_time]) (values ++ [tick_C tick])
      end
  end.

(** [Market._expand_ticks]: the closing times and the closing values. *)
Definition _expand_ticks (cfg : MarketConfig) (ticks : list RawTick)
  : result (option (list Q * list Q)) :=
  match ticks with
  | [] => Raise IndexError
  | tick :: ticks' =>
      Ret (expand_loop (tick_interval_secs cfg) ticks' (tick_T tick) (tick_C tick)
             [tick_T tick] [tick_C tick])
  end.

(** The loop of [_overwrite_tick_data]; an [IndexError] of either array ends
    it. *)
Fixpoint overwrite_loop (todo : nat) (source : list Q) (source_index dest_index : nat)
    (overwritten : Z) (values : list Q) : list Q * Z :=
  match todo with
  | O => (values, overwritten)
  | S todo' =>
      match source !! source_index with
      | None => (values, overwritten)
      | Some value =>
          if (dest_index <? length values)%nat then
            overwrite_loop todo' source (S source_index) (S dest_index)
              (overwritten + 1) (<[dest_index := value]> values)
          else (values, overwritten)
      end
  end.

(** [int(x // m)] for a float [x] and an integer [m]. *)
Definition py_floordiv (x : Q) (m : Z) : result Z :=
  if m =? 0 then Raise ZeroDivisionError else Ret (Qfloor (x / inject_Z m)).

(** [Market._overwrite_tick_data]: the store and the number of ticks
    overwritten; [Ret None] when the expansion of the raw ticks does not
    end. *)
Definition _overwrite_tick_data (cfg : MarketConfig) (d : TickData)
    (start_time end_time : Q) (ticks : list RawTick)
  : result (option (TickData * Z)) :=
  match ticks with
  | [] => Ret (Some (d, 0))
  | _ =>
      let* expanded := _expand_ticks cfg ticks in
      match expanded with
      | None => Ret None
      | Some (times, values) =>
          match py_index start_time times, py_index start_time (close_times d) with
          | Ret source_index, Ret dest_index =>
              let* length := py_floordiv (end_time - start_time) (tick_interval_secs cfg) in
              let '(values', overwritten) :=
                overwrite_loop (Z.to_nat length) values source_index dest_index 0
                  (close_values d) in
              Ret (Some (set_ticks d (close_times d) values' (base_24hr_volumes d),
                         overwritten))
          | _, _ => Ret (Some (d, 0))
          end
      end
  end.

(** [l[i]] for an integer index, negative indexes counted from the end. *)
Definition py_item {A : Type} (l : list A) (i : Z) : result A :=
  let len := Z.of_nat (length l) in
  if i <? 0 then
    if i + len <? 0 then Raise IndexError else py_get l (Z.to_nat (i + len))
  else py_get l (Z.to_nat i).

(** A loop whose body can raise. *)
Fixpoint rfold {A B : Type} (f : B -> A -> result B) (l : list A) (b : B) : result B :=
  match l with
  | [] => Ret b
  | a :: l' => let* b' := f b a in rfold f l' b'
  end.

(** [x // y] on integers. *)
Definition py_intdiv (x y : Z) : result Z :=
  if y =? 0 then Raise ZeroDivisionError else Ret (x / y).

(** The body of the second loop of [_parse_source_tick_data]: the running
    24-hour volume takes in the volume of the tick and drops the one a day
    before. *)
Definition parse_tick (day_ticks : Z) (source_values source_times source_volumes : list Q)
    (acc : Q * list Q * list Q * list Q * list Q) (index : Z)
  : result (Q * list Q * list Q * list Q * list Q) :=
  let '(day_volume, close_values, close_times, base_volumes, prev_day_values) := acc in
  let* volume := py_item source_volumes index in
  let day_volume := (day_volume + volume)%Q in
  let* old_volume := py_item source_volumes (index - day_ticks) in
  let day_volume := (day_volume - old_volume)%Q in
  let* value := py_item source_values index in
  let* time := py_item source_times index in
  let* prev_value := py_item source_values (index - day_ticks) in
  Ret (day_volume, close_values ++ [value], close_times ++ [time],
       base_volumes ++ [day_volume], prev_day_values ++ [prev_value]).

(** [Market._parse_source_tick_data]: the closing values, the closing times,
    the rolling 24-hour volumes and the values of the previous day. *)
Definition _parse_source_tick_data (cfg : MarketConfig)
    (source_values source_times source_volumes : list Q)
  : result (list Q * list Q * list Q * list Q) :=
  let* day_ticks := py_intdiv 1440 (tick_interval_secs cfg / 60) in
  let len := Z.of_nat (length source_values) in
  if len >? day_ticks then
    let* day_volume :=
      rfold (fun day_volume index =>
               let* volume := py_item source_volumes index in
               Ret (day_volume + volume)%Q)
            (py_range 0 day_ticks) 0%Q in
    let* (_, close_values, close_times, base_volumes, prev_day_values) :=
      rfold (parse_tick day_ticks source_values source_times source_volumes)
            (py_range day_ticks len) (day_volume, [], [], [], []) in
    Ret (close_values, close_times, base_volumes, prev_day_values)
  else Ret ([], [], [], []).

(** ** common/math.py: differences, slopes and the exponential average *)

(** [common.math.diff] *)
Definition diff (source : list Q) : result (list Q) :=
  rfold (fun result index =>
           let* a := py_get source index in
           let* b := py_get source (index - 1) in
           Ret (result ++ [(a - b)%Q]))
        (seq 1 (length source - 1)) [].

(** [common.math.norm_slope_avg]; [None] for [norm] takes the first value of
    the source. *)
Definition norm_slope_avg (source : list Q) (norm : option Q) : result Q :=
  let* norm :=
    match norm with
    | Some norm => Ret norm
    | None => py_get source 0
    end in
  let* delta :=
    rfold (fun delta x =>
             let* a := py_get source x in
             let* b := py_get source (x - 1) in
             let* step := py_div (a - b) norm in
             Ret (delta + step)%Q)
          (seq 1 (length source - 1)) 0%Q in
  if (1 <? length source)%nat
  then py_div delta (inject_Z (Z.of_nat (length source) - 1))
  else Ret delta.

(** [common.math.curvature_avg] *)
Definition curvature_avg (source : list Q) (norm : option Q) : result Q :=
  let split := (length source / 2)%nat in
  let* norm :=
    match norm with
    | Some norm => Ret norm
    | None => py_get source 0
    end in
  let* norm_slope_1 := norm_slope_avg (take split source) (Some norm) in
  let* norm_slope_2 := norm_slope_avg (drop split source) (Some norm) in
  Ret (norm_slope_2 - norm_slope_1)%Q.

(** The body of the loop of [ar_exponential_moving_average], which
    [Market.update_emas] repeats: the mean of the [window] values before the
    last [window] ones, smoothed over the last [window] values. *)
Definition exponential_average (source : list Q) (window : nat) (index : Z) : result Q :=
  let c := (2 / inject_Z (Z.of_nat window + 1))%Q in
  let* current_ema :=
    py_div (py_sum (py_slice source (index - Z.of_nat window * 2) (index - Z.of_nat window)))
           (inject_Z (Z.of_nat window)) in
  Ret (fold_left (fun current_ema value => (c * value + (1 - c) * current_ema)%Q)
                 (py_slice source (index - Z.of_nat window) index) current_ema).

(** [common.math.ar_exponential_moving_average] *)
Definition ar_exponential_moving_average (source : list Q) (window_size : nat)
  : result (list Q) :=
  rfold (fun result source_index =>
           let* current_ema :=
             exponential_average source window_size (Z.of_nat source_index) in
           if (source_index <? length result)%nat
           then Ret (<[source_index := current_ema]> result)
           else Raise IndexError)
        (seq (window_size * 2) (length source - window_size * 2))
        (replicate (length source) 0%Q).

(** The body of [Market.update_emas] for one window: [num] is
    [last_update_nums[pair]], [source] is [adjusted_close_values[pair]] and
    [ema] is [source_close_value_emas[pair][window]]. *)
Definition update_emas_window (min_tick_length : nat) (num : Z) (source ema : list Q)
    (window : nat) : result (list Q) :=
  let source_index := Z.of_nat (length source) in
  let* ema' :=
    rfold (fun ema index =>
             let* current_ema := exponential_average source window index in
             Ret (ema ++ [current_ema]))
          (py_range (source_index - num) source_index) ema in
  let truncate := Z.of_nat (length ema') - Z.of_nat min_tick_length in
  Ret (if truncate >? 60 then drop (Z.to_nat truncate) ema' else ema').

(** ** core/market.py: the relative strength index *)

(** [100.0 - 100.0 / (1.0 + rs)], with [rs = up / down] and 0 when the
    division by [down] fails. *)
Definition rsi_value (up down : Q) : result Q :=
  let rs :=
    match py_div up down with
    | Ret rs => rs
    | Raise _ => 0%Q
    end in
  let* quotient := py_div 100 (1 + rs) in
  Ret (100 - quotient)%Q.

(** The body of the loop of [_refresh_rsi] over [range(n, len(source))]. *)
Definition rsi_step (n : nat) (deltas : list Q) (acc : Q * Q * list Q) (i : nat)
  : result (Q * Q * list Q) :=
  let '(up, down, rsi) := acc in
  let* delta := py_item deltas (Z.of_nat i - 1) in
  let '(upval, downval) :=
    if Qlt_bool 0 delta then (delta, 0%Q) else (0%Q, (- delta)%Q) in
  let* up := py_div (up * (inject_Z (Z.of_nat n) - 1) + upval) (inject_Z (Z.of_nat n)) in
  let* down :=
    py_div (down * (inject_Z (Z.of_nat n) - 1) + downval) (inject_Z (Z.of_nat n)) in
  let* value := rsi_value up down in
  if (i <? length rsi)%nat then Ret (up, down, <[i := value]> rsi)
  else Raise IndexError.

(** [Market._refresh_rsi] for the adjusted closing values of the pair, with
    [config['rsi_size']] and [config['rsi_window']]; the result is what is
    stored in [relative_strength_indexes[pair]]. *)
Definition _refresh_rsi (rsi_size rsi_window : nat) (adjusted_close_values : list Q)
  : result (list Q) :=
  let source := py_suffix rsi_size adjusted_close_values in
  let* deltas := diff source in
  let n := rsi_window in
  let seed := take (n + 1) deltas in
  let seed_ups := List.filter (fun value => Qle_bool 0 value) seed in
  let seed_downs := List.filter (fun value => Qlt_bool value 0) seed in
  let* up := py_div (py_sum seed_ups) (inject_Z (Z.of_nat n)) in
  let* down := py_div (- py_sum seed_downs) (inject_Z (Z.of_nat n)) in
  let* first := rsi_value up down in
  let rsi := replicate n first ++ drop n (replicate (length source) 0%Q) in
  let* (_, _, rsi) :=
    rfold (rsi_step n deltas) (seq n (length source - n)) (up, down, rsi) in
  Ret rsi.

(** ** Observations on raw ticks, the index, rules and counters *)

(** Raw ticks whose times follow [last_time] in steps of whole intervals:
    each time is a positive number of intervals after the one before. *)
Fixpoint aligned (interval : Z) (last_time : Q) (ticks : list RawTick) : Prop :=
  match ticks with
  | [] => True
  | tick :: ticks' =>
      (exists k, 1 <= k /\ (tick_T tick == last_time + inject_Z (k * interval))%Q) /\
      aligned interval (tick_T tick) ticks'
  end.

(** A series that never falls, and one that never rises. *)
Definition rising (l : list Q) : Prop :=
  forall i a b, l !! i = Some a -> l !! S i = Some b -> (a <= b)%Q.

Definition falling (l : list Q) : Prop :=
  forall i a b, l !! i = Some a -> l !! S i = Some b -> (b <= a)%Q.

(** The range of the index: at least 0 and at most 100. *)
Definition rsi_range (v : Q) : Prop := (0 <= v)%Q /\ (v <= 100)%Q.

(** The moving averages a rule names, or the exception of looking them up. *)
Definition rule_averages (cfg : DetectorConfig) (mkt : Market) (rule : Rule)
  : result (list Q * list Q) :=
  match rule with
  | ma_position ema first second => rule_mas cfg mkt ema first second
  | ma_crossover ema first second => rule_mas cfg mkt ema first second
  end.

(** Successive calls of [_detection_filter_occurrence] for a detection:
    the verdicts in the order of the calls, and the detector after them. *)
Fixpoint occurrence_calls (cfg : DetectorConfig) (mkt : Market)
    (detection_name : string) (params : Detection) (calls : nat) (st : Detector)
  : result (list bool * Detector) :=
  match calls with
  | O => Ret ([], st)
  | S calls' =>
      let* (vetoed, st') :=
        _detection_filter_occurrence cfg mkt st detection_name params in
      let* (verdicts, st'') :=
        occurrence_calls cfg mkt detection_name params calls' st' in
      Ret (vetoed :: verdicts, st'')
  end.

(** Successive calls of [_update_detection_stats] for a detection, as made
    for detections that fire one after the other. *)
Fixpoint detections_recorded (cfg : DetectorConfig) (mkt : Market)
    (detection_name : string) (calls : nat) (st : Detector) : result Detector :=
  match calls with
  | O => Ret st
  | S calls' =>
      let* st' := _update_detection_stats cfg mkt st detection_name None in
      detections_recorded cfg mkt detection_name calls' st'
  end.

(** The count [_update_detection_stats] leaves in the record of a group. *)
Definition next_count (last : option LastDetection) (detection_name : string) : Z :=
  match last with
  | Some l => if decide (ld_name l = detection_name) then ld_count l + 1 else 1
  | None => 1
  end.

(** ** Stores and raw ticks of the examples *)

(** A store that is two ticks behind its backup. *)
Definition two_ticks_with_backup : TickData :=
  {| close_times := [0; 60]%Q; close_values := [10; 10]%Q;
     base_24hr_volumes := [5; 5]%Q;
     close_times_backup := Some [0; 60; 120; 180]%Q;
     close_values_backup := Some [10; 10; 12; 14]%Q;
     base_24hr_volumes_backup := Some [5; 5; 6; 7]%Q;
     last_update_nums := 0; back_refreshes := [];
     in_pairs := true; greylist_pairs := None |}.

(** Raw ticks at 0, 180 and 240 seconds. *)
Definition sparse_ticks : list RawTick :=
  [{| tick_T := 0; tick_C := 10 |}; {| tick_T := 180; tick_C := 13 |};
   {| tick_T := 240; tick_C := 14 |}].

(** A store of five ticks, the three in the middle interpolated. *)
Definition five_ticks : TickData :=
  {| close_times := [0; 60; 120; 180; 240]%Q; close_values := [10; 11; 12; 13; 14]%Q;
     base_24hr_volumes := [5; 5; 5; 5; 5]%Q;
     close_times_backup := None; close_values_backup := None;
     base_24hr_volumes_backup := None;
     last_update_nums := 0; back_refreshes := [];
     in_pairs := true; greylist_pairs := None |}.

(** Ticks of twelve hours: two ticks make a day. *)
Definition half_day_config : MarketConfig :=
  {| tick_interval_secs := 43200; tick_gap_max := 60;
     pairs_greylist_secs := 600; min_tick_length := 100 |}.

(** A detection that may be recorded twice in a row. *)
Definition buy_twice : Detection :=
  {| conditions := [[ma_position false 0 1]]; action := "buy"; occurrence := Some 1;
     groups := ["default"]; dtype := Some "default";
     time_frame_min := None; time_frame_max := None;
     value_range_min := None; value_range_max := None;
     distance_range := None; max_consecutive := Some 1; overlap := None;
     follow := None; follow_all := None; follow_trade := None |}.

Definition twice_config : DetectorConfig :=
  {| detections := [("breakout", buy_twice)];
     ma_windows := [5; 10]%nat; ema_windows := [];
     detection_flash_crash_sens := 1 # 2;
     detection_min_follow_secs := None; detection_max_follow_secs := None;
     trade_use_indicators := false; enable_rsi := false;
     app_log_level := INFO |}.

(** A detection that follows a detection of the group "surge" and one of
    the group "dip". *)
Definition sell_after_all : Detection :=
  {| conditions := [[ma_position false 0 1]]; action := "sellpush";
     occurrence := Some 1; groups := ["default"]; dtype := Some "default";
     time_frame_min := None; time_frame_max := None;
     value_range_min := None; value_range_max := None;
     distance_range := None; max_consecutive := None; overlap := None;
     follow := None;
     follow_all := Some [follow_confirmed "surge"; follow_confirmed "dip"];
     follow_trade := None |}.

(** * Properties *)

(** ** Moving averages *)

Lemma py_sum_from (l : list Q) (a : Q) :
  (fold_left Qplus l a == a + fold_right Qplus 0 l)%Q.
Proof.
  revert a; induction l as [|x l IH]; intros a; simpl.
  - ring.
  - rewrite IH. ring.
Qed.

Lemma py_sum_fold_right (l : list Q) : (py_sum l == fold_right Qplus 0 l)%Q.
Proof. unfold py_sum. rewrite py_sum_from. ring. Qed.

Lemma py_slice_window {A : Type} (l : list A) (w i : nat) :
  (w <= i <= length l)%nat ->
  py_slice l (Z.of_nat i - Z.of_nat w) (Z.of_nat i) = take w (drop (i - w) l).
Proof.
  intros H. unfold py_slice.
  assert (Ha : (Z.of_nat i - Z.of_nat w <? 0) = false) by (apply Z.ltb_ge; lia).
  assert (Hb : (Z.of_nat i <? 0) = false) by (apply Z.ltb_ge; lia).
  rewrite Ha, Hb.
  rewrite !Z.min_l by lia.
  f_equal; [|f_equal]; lia.
Qed.








(** ** The pair change filter *)

Lemma Qlt_bool_iff (x y : Q) : Qlt_bool x y = true <-> (x < y)%Q.
Proof.
  unfold Qlt_bool. rewrite negb_true_iff. split.
  - intros H. apply Qnot_le_lt. intros Hle.
    apply Qle_bool_iff in Hle. congruence.
  - intros H. destruct (Qle_bool y x) eqn:E; [|reflexivity].
    apply Qle_bool_iff in E. exfalso. exact (Qlt_not_le _ _ H E).
Qed.

Lemma Qlt_bool_false (x y : Q) : Qlt_bool x y = false <-> (y <= x)%Q.
Proof.
  unfold Qlt_bool. rewrite negb_false_iff. apply Qle_bool_iff.
Qed.

Lemma Qle_bool_false (x y : Q) : Qle_bool x y = false <-> (y < x)%Q.
Proof.
  rewrite <- Qlt_bool_iff. unfold Qlt_bool.
  destruct (Qle_bool x y); simpl; split; congruence.
Qed.

(** Case analysis on the next comparison of the goal, with the outcome as
    an order fact. *)
Ltac qcase :=
  match goal with
  | |- context [Qlt_bool ?a ?b] =>
      let E := fresh "E" in
      destruct (Qlt_bool a b) eqn:E;
      [apply Qlt_bool_iff in E | apply Qlt_bool_false in E]
  | |- context [Qle_bool ?a ?b] =>
      let E := fresh "E" in
      destruct (Qle_bool a b) eqn:E;
      [apply Qle_bool_iff in E | apply Qle_bool_false in E]
  end.

(** C7, the defect.  With both filters enabled, an included pair whose
    cumulative delta (the stored delta plus the new change) is still above
    [-pair_change_dip] is dropped as soon as that delta is at or below
    [-pair_change_cutoff]: the pair is filtered out before it has fallen by
    [pair_change_dip].  At the failing input, [pair_change_min = 0.01],
    [pair_change_dip = 0.02] and the cutoff at its default
    (0.0125): a pair that entered at 0.015 (its stored delta is capped at
    0.01) and then changes by -0.029 is dropped at a delta of -0.019. *)
Theorem dip_filter_drops_at_cutoff (cfg : PairChangeConfig)
    (last_pairs : gmap string LastPair) (pair : string) (change value : Q)
    (last : LastPair) :
  pair_change_filter cfg = true ->
  pair_dip_filter cfg = true ->
  last_pairs !! pair = Some last ->
  lp_filtered last = false ->
  (- pair_change_dip cfg < lp_delta last + change)%Q ->
  (lp_delta last + change <= - pair_change_cutoff cfg)%Q ->
  let r := apply_pair_change_filter cfg last_pairs pair change value in
  snd r = true /\
  exists lp, fst r !! pair = Some lp /\ lp_filtered lp = true /\
             (lp_delta lp == lp_delta last + change)%Q.
Proof.
  intros Hf Hd Hl Hin Hdip Hcut r. subst r.
  unfold apply_pair_change_filter. rewrite Hf, Hd, Hl, Hin. cbn [negb].
  repeat qcase; cbn [fst snd]; rewrite lookup_insert_eq;
    try (exfalso; lra);
    (split; [reflexivity|]); eexists; (split; [reflexivity|]);
    split; reflexivity.
Qed.

Lemma dip_filter_drops_at_cutoff_witness :
  let r1 := apply_pair_change_filter default_cutoff_config ∅ "BTC-ETH" (15 # 1000) 1 in
  let r2 := apply_pair_change_filter default_cutoff_config (fst r1) "BTC-ETH"
              (- (29 # 1000)) 1 in
  snd r1 = false /\ snd r2 = true.
Proof.
  intros r1 r2. split; [reflexivity|].
  refine (proj1 (dip_filter_drops_at_cutoff default_cutoff_config (fst r1) "BTC-ETH"
                   (- (29 # 1000)) 1
                   {| lp_value := 1; lp_change := 15 # 1000; lp_delta := 1 # 100;
                      lp_filtered := false |} _ _ _ _ _ _)).
  - reflexivity.
  - reflexivity.
  - vm_compute. reflexivity.
  - reflexivity.
  - vm_compute. reflexivity.
  - vm_compute. discriminate.
Defined.

(** ** The tick store *)

Lemma backup_tick_exn d timestamp e :
  backup_tick d timestamp = Raise e ->
  e = KeyError \/ e = ValueError \/ e = IndexError.
Proof.
  unfold backup_tick, py_key, py_get.
  destruct (close_times_backup d) as [times|]; cbn [rbind];
    [|intros H; injection H as <-; auto].
  destruct (py_index timestamp times) as [i|e'] eqn:Hi; cbn [rbind].
  - destruct (base_24hr_volumes_backup d) as [volumes|]; cbn [rbind];
      [|intros H; injection H as <-; auto].
    destruct (volumes !! i); cbn [rbind]; [|intros H; injection H as <-; auto].
    destruct (close_values_backup d) as [values|]; cbn [rbind];
      [|intros H; injection H as <-; auto].
    destruct (values !! i); cbn [rbind]; [discriminate|].
    intros H; injection H as <-; auto.
  - intros H. injection H as <-. right. left.
    clear -Hi. revert e' Hi. induction times as [|y times IH]; intros e' Hi; simpl in Hi.
    + injection Hi as <-. reflexivity.
    + destruct (Qeq_bool y timestamp); [discriminate|].
      destruct (py_index timestamp times) as [|e0]; [discriminate|].
      injection Hi as <-. apply (IH e0). reflexivity.
Qed.

(** The exceptions that leave [_restore_ticks] are among those that
    [update_tick_data] catches. *)
Lemma restore_loop_exn cfg num end_value end_volume last_volume last_value todo :
  forall index interpolated d e,
    snd (restore_loop cfg num end_value end_volume last_volume last_value
           todo index interpolated d) = Raise e ->
    e = IndexError \/ e = TypeError.
Proof.
  induction todo as [|todo IH]; intros index interpolated d e; cbn [restore_loop].
  - discriminate.
  - unfold py_last. destruct (last (close_times d)) as [last_time|];
      [|cbn; intros H; injection H as <-; auto].
    destruct (backup_tick d _) as [[volume value]|e'] eqn:Hb.
    + apply IH.
    + apply backup_tick_exn in Hb. destruct Hb as [->|[->| ->]].
      * destruct end_volume; [apply IH|cbn; intros H; injection H as <-; auto].
      * destruct end_volume; [apply IH|cbn; intros H; injection H as <-; auto].
      * cbn. intros H; injection H as <-; auto.
Qed.

Lemma update_tick_data_try_exn cfg d close_time tick_gap close_value volume e :
  snd (update_tick_data_try cfg d close_time tick_gap close_value volume) = Raise e ->
  e = IndexError \/ e = TypeError.
Proof.
  unfold update_tick_data_try, _restore_ticks.
  destruct (tick_gap =? 0).
  - cbn. destruct volume; cbn; [discriminate|].
    intros H; injection H as <-; auto.
  - unfold py_last.
    destruct (last (base_24hr_volumes d)); [|cbn; intros H; injection H as <-; auto].
    destruct (last (close_values d)); [|cbn; intros H; injection H as <-; auto].
    destruct (restore_loop _ _ _ _ _ _ _ _ _ _) as [d1 [interpolated|e']] eqn:Hr.
    + destruct (interpolated =? 0).
      * destruct volume; cbn; [discriminate|].
        intros H; injection H as <-; auto.
      * unfold _schedule_back_refresh. destruct (tick_gap >? 0).
        -- destruct (py_from_end (close_times d1) (Z.to_nat tick_gap)) as [?|e1] eqn:H1;
             destruct (py_last (close_times d1)) as [?|e2] eqn:H2; cbn.
           ++ destruct volume; cbn; [discriminate|].
              intros H; injection H as <-; auto.
           ++ intros H; injection H as <-. left.
              unfold py_last in H2. destruct (last (close_times d1)); congruence.
           ++ intros H; injection H as <-. left.
              unfold py_from_end in H1.
              destruct (Z.to_nat tick_gap); [destruct (close_times d1); congruence|].
              destruct (_ <? _)%nat; [congruence|].
              destruct (_ !! _); congruence.
           ++ intros H; injection H as <-. left.
              unfold py_from_end in H1.
              destruct (Z.to_nat tick_gap); [destruct (close_times d1); congruence|].
              destruct (_ <? _)%nat; [congruence|].
              destruct (_ !! _); congruence.
        -- destruct volume; cbn; [discriminate|].
           intros H; injection H as <-; auto.
    + cbn. intros H; injection H as <-.
      eapply restore_loop_exn. rewrite Hr. reflexivity.
Qed.

(** What the loop of [_restore_ticks] stores when the pair has no backup:
    every tick is interpolated, the [j]-th from the value before the gap with
    the step [(end_value - last_value) / (num - index + 1)] of its index. *)
Lemma restore_loop_interpolates cfg num end_value end_volume last_volume last_value todo :
  forall index interpolated d t,
    close_times_backup d = None ->
    last (close_times d) = Some t ->
    exists d' added T,
      restore_loop cfg num end_value (Some end_volume) last_volume last_value
        todo index interpolated d = (d', Ret (interpolated + Z.of_nat todo)) /\
      close_times d' = close_times d ++ added /\
      length added = todo /\
      last (close_times d') = Some T /\
      (T == t + inject_Z (Z.of_nat todo) * inject_Z (tick_interval_secs cfg))%Q /\
      close_values d' =
        close_values d ++
        map (fun j => (last_value + (end_value - last_value)
                       / inject_Z (num - (index + Z.of_nat j) + 1))%Q) (seq 0 todo) /\
      length (base_24hr_volumes d') = (length (base_24hr_volumes d) + todo)%nat.
Proof.
  induction todo as [|todo IH]; intros index interpolated d t Hb Ht;
    cbn [restore_loop].
  - exists d, [], t. rewrite Z.add_0_r, !app_nil_r, Nat.add_0_r.
    repeat split; try reflexivity; try assumption.
    cbn. ring.
  - unfold py_last. rewrite Ht. unfold backup_tick. rewrite Hb. cbn [py_key rbind].
    set (timestamp := (t + inject_Z (tick_interval_secs cfg))%Q).
    set (d1 := set_ticks d _ _ _).
    destruct (IH (index + 1) (interpolated + 1) d1 timestamp) as
      (d' & added & T & Hrun & Htimes & Hlen & Hlast & HT & Hvalues & Hvol).
    { exact Hb. }
    { subst d1. cbn [set_ticks close_times]. apply last_snoc. }
    exists d', (timestamp :: added), T.
    split; [rewrite Hrun; do 2 f_equal; lia|].
    subst d1. cbn [set_ticks close_times close_values base_24hr_volumes] in *.
    split; [rewrite Htimes, <- app_assoc; reflexivity|].
    split; [cbn; lia|]. split; [exact Hlast|].
    split.
    { rewrite HT. subst timestamp. rewrite Nat2Z.inj_succ, <- Z.add_1_r.
      rewrite inject_Z_plus. ring. }
    split.
    { rewrite Hvalues, <- app_assoc. f_equal. cbn [seq map app]. f_equal.
      - do 3 f_equal. lia.
      - rewrite <- seq_shift, map_map. apply map_ext. intros j.
        do 3 f_equal. lia. }
    rewrite Hvol, length_app. cbn. lia.
Qed.

Lemma py_last_Some {A : Type} (l : list A) (a : A) : last l = Some a -> py_last l = Ret a.
Proof. unfold py_last. intros ->. reflexivity. Qed.

Lemma py_int_inject (x : Q) (z : Z) : 0 <= z -> (x == inject_Z z)%Q -> py_int x = z.
Proof.
  intros Hz Hx. unfold py_int.
  assert (Hle : Qle_bool 0 x = true).
  { apply Qle_bool_iff. rewrite Hx. change 0%Q with (inject_Z 0).
    rewrite <- Zle_Qle. exact Hz. }
  rewrite Hle. rewrite (Qfloor_comp _ _ Hx). apply Qfloor_Z.
Qed.

(** An update that comes [k >= 2] whole intervals after the last stored
    tick: the gap it computes is [k], one more than the [k - 1] ticks that
    are missing. *)
Lemma get_tick_delta_late cfg d current_time t k :
  0 < tick_interval_secs cfg ->
  last (close_times d) = Some t ->
  2 <= k ->
  (current_time - py_fmod current_time (tick_interval_secs cfg)
   == t + inject_Z (k * tick_interval_secs cfg))%Q ->
  _get_tick_delta cfg d current_time
  = Some ((current_time - py_fmod current_time (tick_interval_secs cfg))%Q, k).
Proof.
  intros Hi Ht Hk Hc. unfold _get_tick_delta.
  rewrite (py_last_Some _ _ Ht).
  set (close_time := (current_time - py_fmod current_time (tick_interval_secs cfg))%Q)
    in *.
  assert (Hpos : 0 <= k * tick_interval_secs cfg) by nia.
  assert (Hlt : Qlt_bool close_time t = false).
  { apply Qlt_bool_false. rewrite Hc.
    assert (0 <= inject_Z (k * tick_interval_secs cfg))%Q.
    { change 0%Q with (inject_Z 0). rewrite <- Zle_Qle. exact Hpos. }
    lra. }
  rewrite Hlt.
  rewrite (py_int_inject (close_time - t) (k * tick_interval_secs cfg) Hpos)
    by (rewrite Hc; ring).
  replace (k * tick_interval_secs cfg =? 0) with false by (symmetry; apply Z.eqb_neq; nia).
  replace (k * tick_interval_secs cfg >? tick_interval_secs cfg) with true
    by (symmetry; apply Z.gtb_lt; nia).
  rewrite Z.div_mul by lia. reflexivity.
Qed.

Lemma dense_duplicate (interval : Z) (pre : list Q) (x y : Q) :
  0 < interval -> (x == y)%Q -> dense interval (pre ++ [x; y]) = false.
Proof.
  intros Hi Hxy.
  assert (Hend : dense interval [x; y] = false).
  { cbn. apply andb_false_iff. left.
    destruct (Qeq_bool (y - x) (inject_Z interval)) eqn:E; [|reflexivity].
    apply Qeq_bool_iff in E. exfalso.
    assert (Hz : (inject_Z interval == 0)%Q) by (rewrite <- E, Hxy; ring).
    change 0%Q with (inject_Z 0) in Hz.
    apply (proj1 (inject_Z_injective _ _)) in Hz. lia. }
  induction pre as [|a pre IH]; [exact Hend|].
  cbn [app dense]. destruct (pre ++ [x; y]) as [|b rest] eqn:Hp.
  - destruct pre; discriminate.
  - rewrite IH. apply andb_false_r.
Qed.

Lemma py_from_end_Ret {A : Type} (l : list A) (n : nat) :
  (0 < n <= length l)%nat -> exists a, py_from_end l n = Ret a.
Proof.
  intros Hn. unfold py_from_end. destruct n as [|n]; [lia|].
  replace (length l <? S n)%nat with false by (symmetry; apply Nat.ltb_ge; lia).
  destruct (l !! (length l - S n)%nat) as [a|] eqn:Hl; [exists a; reflexivity|].
  apply lookup_ge_None in Hl. lia.
Qed.

Lemma last_nonempty {A : Type} (l : list A) : l <> [] -> exists a, last l = Some a.
Proof.
  intros Hl. destruct (last l) as [a|] eqn:E; [exists a; reflexivity|].
  apply last_None in E. contradiction.
Qed.

Lemma truncate_keeps_last_two cfg d front (x y : Q) :
  (2 <= min_tick_length cfg)%nat ->
  close_times d = front ++ [x; y] ->
  exists prefix, close_times (_truncate_tick_data cfg d) = prefix ++ [x; y].
Proof.
  intros Hmin Hd. unfold _truncate_tick_data. destruct (_ >? 60).
  - cbn [set_ticks close_times]. rewrite Hd.
    eexists. apply drop_app_le. rewrite length_app. cbn [length]. lia.
  - exists front. exact Hd.
Qed.

Lemma backup_close_times cfg d :
  close_times (_backup_tick_data cfg d) = close_times d.
Proof. reflexivity. Qed.

(** C1, the defect in general.  Whenever the update comes [k >= 2] whole
    intervals after the last stored tick (within the tolerated gap, with no
    backup to restore from and both last values available), the call succeeds
    and the stored times end with the time of the new tick twice, so they are
    not dense. *)
Theorem update_tick_data_duplicates_tick (cfg : MarketConfig) (d : TickData)
    (current_time t close_value volume : Q) (k : Z) :
  0 < tick_interval_secs cfg ->
  (2 <= min_tick_length cfg)%nat ->
  close_times_backup d = None ->
  last (close_times d) = Some t ->
  close_values d <> [] ->
  base_24hr_volumes d <> [] ->
  2 <= k <= tick_gap_max cfg ->
  (current_time - py_fmod current_time (tick_interval_secs cfg)
   == t + inject_Z (k * tick_interval_secs cfg))%Q ->
  exists d' prefix x y,
    update_tick_data cfg d current_time (Some close_value, Some volume) = (d', true) /\
    close_times d' = prefix ++ [x; y] /\
    (x == y)%Q /\
    (y == t + inject_Z (k * tick_interval_secs cfg))%Q /\
    dense (tick_interval_secs cfg) (close_times d') = false.
Proof.
  intros Hi Hmin Hb Ht Hvalues Hvolumes Hk Hc.
  destruct (last_nonempty _ Hvalues) as (last_value & Hlv).
  destruct (last_nonempty _ Hvolumes) as (last_volume & Hlvol).
  unfold update_tick_data.
  set (d0 := set_last_update_nums d 0).
  rewrite (get_tick_delta_late cfg d0 current_time t k Hi Ht ltac:(lia) Hc).
  set (close_time := (current_time - py_fmod current_time (tick_interval_secs cfg))%Q)
    in *.
  replace (k >? tick_gap_max cfg) with false
    by (symmetry; rewrite Z.gtb_ltb; apply Z.ltb_ge; lia).
  cbn [fst snd]. unfold update_tick_data_try, _restore_ticks.
  replace (k =? 0) with false by (symmetry; apply Z.eqb_neq; lia).
  cbn [d0 set_last_update_nums base_24hr_volumes close_values].
  rewrite (py_last_Some _ _ Hlvol), (py_last_Some _ _ Hlv).
  destruct (restore_loop_interpolates cfg k close_value volume last_volume last_value
              (Z.to_nat k) 0 0 d0 t Hb Ht)
    as (d1 & added & T & Hrun & Htimes & Hlen & Hlast & HT & _ & _).
  fold d0. rewrite Hrun.
  replace (0 + Z.of_nat (Z.to_nat k) =? 0) with false
    by (symmetry; apply Z.eqb_neq; lia).
  unfold _schedule_back_refresh.
  replace (k >? 0) with true by (symmetry; rewrite Z.gtb_ltb; apply Z.ltb_lt; lia).
  destruct (py_from_end_Ret (close_times d1) (Z.to_nat k)) as (start & Hstart).
  { rewrite Htimes, length_app, Hlen. lia. }
  rewrite Hstart, (py_last_Some _ _ Hlast).
  cbv beta iota zeta.
  apply last_Some in Hlast as (front & Hfront).
  assert (HTc : (T == close_time)%Q).
  { rewrite HT, Hc, Z2Nat.id, inject_Z_mult by lia. reflexivity. }
  match goal with
  | |- context [_truncate_tick_data cfg ?x] =>
      destruct (truncate_keeps_last_two cfg x front T close_time Hmin)
        as (prefix & Hshape)
  end.
  { cbn [set_last_update_nums set_ticks close_times].
    rewrite Hfront, <- app_assoc. reflexivity. }
  eexists _, prefix, T, close_time. split; [reflexivity|].
  rewrite backup_close_times, Hshape.
  split; [reflexivity|]. split; [exact HTc|]. split; [exact Hc|].
  apply dense_duplicate; assumption.
Qed.

Lemma update_tick_data_duplicates_tick_witness :
  exists d',
    update_tick_data market_config_60 two_ticks 185 (Some 16%Q, Some 5%Q) = (d', true) /\
    Qlist_eqb (close_times d') [0; 60; 120; 180; 180]%Q = true /\
    dense 60 (close_times two_ticks) = true /\
    dense 60 (close_times d') = false.
Proof.
  destruct (update_tick_data_duplicates_tick market_config_60 two_ticks 185 60 16 5 2)
    as (d' & prefix & x & y & Hrun & _ & _ & _ & Hdense);
    try reflexivity; try discriminate.
  - simpl. lia.
  - split; discriminate.
  - exists d'. split; [exact Hrun|].
    split; [|split; [reflexivity|exact Hdense]].
    vm_compute in Hrun. injection Hrun as <-. reflexivity.
Defined.

Lemma restored_value_off_line (last_value end_value : Q) (n : Z) :
  2 <= n ->
  ~ (end_value == last_value)%Q ->
  ~ (restored_value last_value end_value n (n - 1)
     == linear_value last_value end_value n n)%Q.
Proof.
  intros Hn Hne Heq. apply Hne. unfold restored_value, linear_value in Heq.
  replace (n - (n - 1) + 1) with 2 in Heq by lia.
  rewrite inject_Z_plus in Heq.
  assert (Hx : (2 <= inject_Z n)%Q).
  { change 2%Q with (inject_Z 2). rewrite <- Zle_Qle. exact Hn. }
  set (x := inject_Z n) in *. set (diff := (end_value - last_value)%Q) in *.
  assert (Hx1 : ~ (x + inject_Z 1 == 0)%Q).
  { change (inject_Z 1) with 1%Q. lra. }
  assert (Hdiff : (diff * (x - 1) == 0)%Q).
  { assert (E : (diff * (x - 1)
                 == ((last_value + x * diff / (x + inject_Z 1))
                     - (last_value + diff / inject_Z 2)) * (2 * (x + inject_Z 1)))%Q).
    { change (inject_Z 2) with 2%Q. field. exact Hx1. }
    rewrite E, <- Heq. ring. }
  apply Qmult_integral in Hdiff as [Hd|Hd].
  - subst diff. lra.
  - lra.
Qed.

(** C8, the defect in general.  With no backup to restore from,
    [_restore_ticks] fills the tick of loop index [j] (the [j + 1]-th of
    [n] missing ticks) with [last_value + (end_value - last_value) /
    (n - j + 1)]: the value before the gap is never advanced, and from two
    missing ticks on the last restored value is off the straight line from
    the last value to the new observation whenever the two differ. *)
Theorem restore_ticks_not_linear (cfg : MarketConfig) (d : TickData) (n : Z)
    (end_value end_volume t last_value last_volume : Q) :
  close_times_backup d = None ->
  last (close_times d) = Some t ->
  last (close_values d) = Some last_value ->
  last (base_24hr_volumes d) = Some last_volume ->
  1 <= n ->
  exists d',
    _restore_ticks cfg d n end_value (Some end_volume) = (d', Ret n) /\
    close_values d' =
      close_values d ++
      map (fun j => restored_value last_value end_value n (Z.of_nat j))
          (seq 0 (Z.to_nat n)) /\
    (2 <= n -> ~ (end_value == last_value)%Q ->
     ~ (restored_value last_value end_value n (n - 1)
        == linear_value last_value end_value n n)%Q).
Proof.
  intros Hb Ht Hlv Hlvol Hn. unfold _restore_ticks.
  replace (n =? 0) with false by (symmetry; apply Z.eqb_neq; lia).
  rewrite (py_last_Some _ _ Hlvol), (py_last_Some _ _ Hlv).
  destruct (restore_loop_interpolates cfg n end_value end_volume last_volume last_value
              (Z.to_nat n) 0 0 d t Hb Ht)
    as (d' & added & T & Hrun & _ & _ & _ & _ & Hvalues & _).
  exists d'. split; [rewrite Hrun; do 2 f_equal; lia|].
  split; [|apply restored_value_off_line].
  rewrite Hvalues. reflexivity.
Qed.

Lemma restore_ticks_not_linear_witness :
  exists d',
    _restore_ticks market_config_60 two_ticks 2 16 (Some 5%Q) = (d', Ret 2) /\
    Qlist_eqb (close_values d') [10; 10; 12; 13]%Q = true /\
    Qeq_bool (linear_value 10 16 2 2) 14 = true /\
    Qlist_eqb
      (close_values
         (fst (update_tick_data market_config_60 two_ticks 185 (Some 16%Q, Some 5%Q))))
      [10; 10; 12; 13; 16]%Q = true.
Proof.
  destruct (restore_ticks_not_linear market_config_60 two_ticks 2 16 5 60 10 5
              eq_refl eq_refl eq_refl eq_refl ltac:(lia))
    as (d' & Hrun & Hvalues & _).
  exists d'. split; [exact Hrun|]. rewrite Hvalues.
  split; [reflexivity|]. split; reflexivity.
Defined.

(** ** The flash crash guard *)

(** C5 at its failing inputs.  The close values of the last two ticks are
    100 and 40, a ratio of 0.4 against a sensitivity of 0.5, and the only
    detection has its one condition set and no filter configured.  The guard
    compares the ratio of the last two close times (120 / 60), so the action
    is dispatched and the triggers are cleared instead of the dispatch being
    deferred; whatever the values are, the guard reads the times only.  When
    the guard does hold (a sensitivity of 2, against the same ratio of the
    times), the call does not defer either at the default logger level: the
    warning of that branch is logged with a placeholder and no argument, and
    [process_detections] ends in [IndexError].  Only with warnings not
    logged is the dispatch deferred and the trigger kept. *)
Theorem flash_crash_guard_reads_close_times :
  (forall cfg mkt mkt',
     m_close_times mkt' = m_close_times mkt ->
     flash_crash cfg mkt' = flash_crash cfg mkt) /\
  m_close_values crash_market = [100; 40]%Q /\
  Qle_bool (40 / 100) (detection_flash_crash_sens crash_config) = true /\
  flash_crash crash_config crash_market = Ret false /\
  (forall level, flash_crash (sensitive_config level) crash_market = Ret true) /\
  exists st1 st2,
    update_detection_triggers crash_config crash_market (fresh_detector ["breakout"])
      = Ret st1 /\
    option_map (map t_set) (alist_lookup "breakout" (detection_triggers st1))
      = Some [true] /\
    process_detections crash_config crash_market no_trades st1 = Ret st2 /\
    map is_dispatch (events st2) = [true] /\
    detection_triggers st2 = [("breakout", [])] /\
    (forall level,
       update_detection_triggers (sensitive_config level) crash_market
         (fresh_detector ["breakout"]) = Ret st1) /\
    process_detections (sensitive_config INFO) crash_market no_trades st1
      = Raise IndexError /\
    process_detections (sensitive_config ERROR) crash_market no_trades st1 = Ret st1.
Proof.
  split.
  { intros cfg mkt mkt' H. unfold flash_crash. rewrite H. reflexivity. }
  split; [reflexivity|]. split; [reflexivity|]. split; [reflexivity|].
  split; [intros level; reflexivity|].
  destruct (update_detection_triggers crash_config crash_market
              (fresh_detector ["breakout"])) as [st1|e] eqn:H1;
    [|vm_compute in H1; discriminate].
  destruct (process_detections crash_config crash_market no_trades st1)
    as [st2|e] eqn:H2.
  - exists st1, st2. split; [reflexivity|].
    vm_compute in H1. injection H1 as <-.
    vm_compute in H2. injection H2 as <-.
    repeat split.
  - vm_compute in H1. injection H1 as <-. vm_compute in H2. discriminate.
Qed.

(** ** Triggers of a cycle *)

(** Destructs the first bound computation of the goal. *)
Ltac rcase :=
  match goal with
  | |- context [rbind ?m _] =>
      let E := fresh "E" in
      destruct m as [?|?] eqn:E; cbn [rbind]
  end.

Lemma rule_mas_exn cfg mkt ema first second e :
  rule_mas cfg mkt ema first second = Raise e -> e = KeyError \/ e = IndexError.
Proof.
  unfold rule_mas, py_get, py_key.
  repeat (match goal with
          | |- context [match ?x !! ?i with _ => _ end] => destruct (x !! i)
          end; cbn [rbind]);
    intros H; inversion H; auto.
Qed.

Lemma check_rule_exn cfg mkt triggers cache rule idx name e :
  check_rule cfg mkt triggers cache rule idx name = Raise e ->
  e = KeyError \/ e = IndexError.
Proof.
  destruct rule as [ema a b|ema a b]; cbn [check_rule].
  - unfold _check_ma_position.
    destruct (alist_lookup _ cache) as [[? ?]|]; [discriminate|].
    destruct (rule_mas cfg mkt ema a b) as [[fm sm]|e'] eqn:Hm.
    + destruct (py_last fm), (py_last sm); try discriminate.
      destruct (_ || _); discriminate.
    + apply rule_mas_exn in Hm.
      destruct Hm as [-> | ->]; [intros H; inversion H; auto | discriminate].
  - unfold _check_ma_crossover.
    destruct (alist_lookup _ cache) as [[? ?]|]; [discriminate|].
    destruct (rule_mas cfg mkt ema a b) as [[fm sm]|e'] eqn:Hm.
    + destruct (py_from_end fm 2), (py_from_end sm 2), (py_last fm), (py_last sm);
        try discriminate.
      destruct (_ || _); [discriminate|].
      destruct (Qlt_bool _ _); discriminate.
    + apply rule_mas_exn in Hm.
      destruct Hm as [-> | ->]; [intros H; inversion H; auto | discriminate].
Qed.

(** The loop over the rules of a condition always completes. *)
Lemma check_rules_total cfg mkt triggers idx name rules states values positions cache :
  exists r, check_rules cfg mkt triggers idx name rules states values positions cache
            = Ret r.
Proof.
  revert states values positions cache.
  induction rules as [|rule rules IH]; intros states values positions cache;
    cbn [check_rules].
  - eexists; reflexivity.
  - destruct (check_rule cfg mkt triggers cache rule idx name)
      as [[[[state|] meta] cache']|e] eqn:Hc.
    + apply IH.
    + apply IH.
    + apply check_rule_exn in Hc. destruct Hc as [-> | ->]; apply IH.
Qed.

Lemma get_detection_trigger_total cfg mkt triggers cache name idx rules now :
  py_last (m_close_times mkt) = Ret now ->
  exists test cache',
    _get_detection_trigger cfg mkt triggers cache name idx rules = Ret (test, cache') /\
    t_time test = now.
Proof.
  intros Hnow. unfold _get_detection_trigger. rewrite Hnow. cbn [rbind].
  destruct (check_rules_total cfg mkt triggers idx name rules [] [] [] cache)
    as ([[[states values] positions] cache'] & Hr).
  rewrite Hr. cbn [rbind]. eexists _, _. split; reflexivity.
Qed.

(** ** Filtering and firing *)

Lemma alist_lookup_set_eq {V : Type} (k : string) (v : V) (l : list (string * V)) :
  alist_lookup k (alist_set k v l) = Some v.
Proof.
  induction l as [|[k' v'] l IH]; simpl.
  - rewrite decide_True by reflexivity. reflexivity.
  - destruct (decide (k' = k)) as [->|Hne]; simpl.
    + rewrite decide_True by reflexivity. reflexivity.
    + rewrite decide_False by assumption. exact IH.
Qed.

Lemma alist_lookup_set_ne {V : Type} (k k' : string) (v : V) (l : list (string * V)) :
  k <> k' -> alist_lookup k' (alist_set k v l) = alist_lookup k' l.
Proof.
  intros Hne. induction l as [|[k0 v0] l IH]; simpl.
  - rewrite decide_False by assumption. reflexivity.
  - destruct (decide (k0 = k)) as [->|Hne0]; simpl.
    + rewrite !decide_False by assumption. reflexivity.
    + destruct (decide (k0 = k')); [reflexivity|exact IH].
Qed.

Lemma update_detection_stats_frame cfg mkt st name ty st' :
  _update_detection_stats cfg mkt st name ty = Ret st' ->
  detection_triggers st' = detection_triggers st /\ events st' = events st.
Proof.
  unfold _update_detection_stats. repeat rcase; try discriminate.
  intros H. injection H as <-. split; reflexivity.
Qed.

Lemma rbind_ret {A B : Type} (m : result A) (k : A -> result B) (b : B) :
  rbind m k = Ret b -> exists a, m = Ret a /\ k a = Ret b.
Proof.
  destruct m as [a|e]; cbn [rbind]; intros H; [|discriminate].
  exists a. split; [reflexivity|exact H].
Qed.

(** Inverts a computation that returned: every bound step returned and every
    branch taken is known. *)
Ltac rinv :=
  repeat match goal with
         | H : rbind ?m _ = Ret _ |- _ =>
             let a := fresh "a" in
             let E := fresh "E" in
             apply rbind_ret in H; destruct H as (a & E & H)
         | H : Raise _ = Ret _ |- _ => discriminate H
         | H : Ret _ = Ret _ |- _ => injection H as H
         | H : (_, _) = (_, _) |- _ => injection H as H
         | H : (let '(_, _) := ?p in _) = Ret _ |- _ => destruct p
         | H : (if ?b then _ else _) = Ret _ |- _ =>
             let E := fresh "E" in destruct b eqn:E
         | H : match ?x with _ => _ end = Ret _ |- _ =>
             let E := fresh "E" in destruct x eqn:E
         end.

(** A filter leaves the stored triggers and the set flags of the aggregate
    alone, and calls the reporter only when it vetoes. *)
Lemma run_filter_frame cfg mkt trader param name params st td r st' td' :
  run_filter cfg mkt trader param name params st td = Ret (r, st', td') ->
  detection_triggers st' = detection_triggers st /\
  set_triggers td' = set_triggers td /\
  exists alerts,
    events st' = events st ++ alerts /\ alerts_only alerts /\
    (r = false -> alerts = []).
Proof.
  assert (Hnil : forall (s : Detector) (b : bool),
            exists alerts, events s = events s ++ alerts /\ alerts_only alerts /\
                           (b = false -> alerts = [])).
  { intros s b. exists []. rewrite app_nil_r. repeat split. constructor. }
  intros H.
  destruct param; cbn [run_filter] in H;
    unfold _detection_filter_values, _detection_filter_follow,
      _detection_filter_follow_all, _detection_filter_overlap,
      _detection_filter_occurrence in H;
    rinv; subst;
    repeat match goal with
           | E : _update_detection_stats _ _ _ _ _ = Ret _ |- _ =>
               apply update_detection_stats_frame in E as [? ?]
           end;
    try (split; [reflexivity|split; [reflexivity|apply Hnil]]).
  all: cbn [with_event with_occurrence detection_triggers events] in *.
  all: split; [assumption || reflexivity|]; split; [reflexivity|].
  - eexists. split; [rewrite H0; reflexivity|].
    split; [repeat constructor|discriminate].
  - exists []. rewrite app_nil_r. split; [assumption|].
    split; [constructor|reflexivity].
  - apply Hnil.
Qed.

Lemma filter_loop_frame cfg mkt trader name params methods st td triggered st' td' :
  filter_loop cfg mkt trader name params methods st td = Ret (triggered, st', td') ->
  set_triggers td' = set_triggers td /\
  exists alerts,
    events st' = events st ++ alerts /\ alerts_only alerts /\
    if triggered
    then detection_triggers st' = detection_triggers st /\ alerts = []
    else detection_triggers st' = alist_set name [] (detection_triggers st).
Proof.
  revert st td. induction methods as [|param methods IH]; intros st td H;
    cbn [filter_loop] in H.
  - injection H as <- <- <-. split; [reflexivity|].
    exists []. rewrite app_nil_r. repeat split. constructor.
  - destruct (param_is_set params param); [|apply IH; exact H].
    apply rbind_ret in H as ([[vetoed st1] td1] & Hrun & H).
    apply run_filter_frame in Hrun as (Ht & Hs & alerts & He & Ha & Hnone).
    destruct vetoed.
    + injection H as <- <- <-. split; [exact Hs|].
      exists alerts. cbn [clear_triggers with_triggers events detection_triggers].
      rewrite Ht. auto.
    + apply IH in H as (Hs' & alerts' & He' & Ha' & Hif).
      rewrite (Hnone eq_refl), app_nil_r in He.
      split; [congruence|]. exists alerts'.
      rewrite He', He. split; [reflexivity|]. split; [exact Ha'|].
      destruct triggered; rewrite <- Ht; exact Hif.
Qed.

Lemma set_triggers_time_frame_flags triggers td :
  set_triggers (_set_triggers_time_frame triggers td) = set_triggers td.
Proof.
  unfold _set_triggers_time_frame.
  destruct (py_max (map t_time triggers)), (py_min (map t_time triggers)); reflexivity.
Qed.

(** What [_filter_detection] does to the stored triggers and the events. *)
Lemma filter_detection_frame cfg mkt trader name params triggers st td filtered st' td' :
  _filter_detection cfg mkt trader name params triggers st td = Ret (filtered, st', td') ->
  set_triggers td' = set_triggers td /\
  exists alerts,
    events st' = events st ++ alerts /\ alerts_only alerts /\
    if filtered
    then if all_flags (set_triggers td)
         then detection_triggers st' = alist_set name [] (detection_triggers st)
         else st' = st
    else all_flags (set_triggers td) = true /\
         detection_triggers st' = detection_triggers st /\ alerts = [].
Proof.
  unfold _filter_detection. intros H.
  destruct (all_flags (set_triggers td)) eqn:Hall.
  - apply rbind_ret in H as ([[triggered st1] td1] & Hloop & H).
    apply filter_loop_frame in Hloop as (Hs & alerts & He & Ha & Hif).
    rewrite set_triggers_time_frame_flags in Hs.
    destruct (triggered && trade_use_indicators cfg && is_buy (action params)
              && enable_rsi cfg && rsi_descending st1) eqn:Hrsi.
    + injection H as <- <- <-. split; [exact Hs|].
      exists (alerts ++ [Alert "RSI SKIP BUY" name]).
      cbn [clear_triggers with_triggers with_event events detection_triggers].
      rewrite He, app_assoc. split; [reflexivity|].
      split; [apply Forall_app; split; [exact Ha|repeat constructor]|].
      destruct triggered; [|discriminate].
      destruct Hif as [-> _]. reflexivity.
    + injection H as <- <- <-. split; [exact Hs|].
      exists alerts. split; [exact He|]. split; [exact Ha|].
      destruct triggered; cbn [negb]; [|exact Hif].
      destruct Hif as [Ht Hn]. auto.
  - injection H as <- <- <-. split; [reflexivity|].
    exists []. rewrite app_nil_r. repeat split. constructor.
Qed.

(** C10. When all condition triggers of a detection are set and
    [_filter_detection] reports the detection as filtered out (a configured
    filter of the chain, or the indicator check after it, vetoed), the stored
    triggers of that detection are the empty list, and the stored triggers of
    every other detection are as they were. *)
Theorem filter_veto_clears_triggers (cfg : DetectorConfig) (mkt : Market)
    (trader : Trader) (detection_name : string) (params : Detection)
    (triggers : list Trigger) (st st' : Detector) (td td' : TriggerData) :
  all_flags (set_triggers td) = true ->
  _filter_detection cfg mkt trader detection_name params triggers st td
    = Ret (true, st', td') ->
  alist_lookup detection_name (detection_triggers st') = Some [] /\
  forall other,
    other <> detection_name ->
    alist_lookup other (detection_triggers st') = alist_lookup other (detection_triggers st).
Proof.
  intros Hall H.
  apply filter_detection_frame in H as (_ & alerts & _ & _ & Hif).
  cbn match in Hif. rewrite Hall in Hif. rewrite Hif. split.
  - apply alist_lookup_set_eq.
  - intros other Hne. apply alist_lookup_set_ne. congruence.
Qed.

Lemma filter_veto_clears_triggers_witness :
  all_flags (set_triggers aggregate_at_120) = true /\
  exists st' td',
    _filter_detection second_config crash_market no_trades "breakout" buy_on_second
      [set_trigger_at_60] both_set aggregate_at_120 = Ret (true, st', td') /\
    alist_lookup "breakout" (detection_triggers st') = Some [] /\
    alist_lookup "rebound" (detection_triggers st') = Some [set_trigger_at_60].
Proof.
  split; [reflexivity|].
  destruct (_filter_detection second_config crash_market no_trades "breakout"
              buy_on_second [set_trigger_at_60] both_set aggregate_at_120)
    as [[[filtered st'] td']|e] eqn:H.
  - destruct filtered.
    + exists st', td'. split; [reflexivity|].
      destruct (filter_veto_clears_triggers second_config crash_market no_trades
                  "breakout" buy_on_second [set_trigger_at_60] both_set st'
                  aggregate_at_120 td' eq_refl H) as [H1 H2].
      split; [exact H1|]. rewrite H2; [reflexivity|discriminate].
    + exfalso. vm_compute in H. discriminate.
  - exfalso. vm_compute in H. discriminate.
Defined.

Lemma dispatches_of_alerts n evs : alerts_only evs -> dispatches_of n evs = [].
Proof.
  unfold alerts_only, dispatches_of. induction 1 as [|e evs He _ IH]; [reflexivity|].
  simpl. destruct e; [exact IH|discriminate].
Qed.

Lemma alerts_only_not_dispatch evs a n td : alerts_only evs -> ~ In (Dispatch a n td) evs.
Proof.
  unfold alerts_only. rewrite Forall_forall. intros H Hin.
  apply list_elem_of_In in Hin. apply H in Hin. discriminate.
Qed.

(** One iteration of [process_detections]: either the action of the
    detection is dispatched, once, with all its triggers set and its stored
    triggers cleared, or nothing is dispatched; the stored triggers of the
    other detections stay as they are. *)
Lemma process_detection_spec cfg mkt trader st name triggers st' :
  process_detection cfg mkt trader st name triggers = Ret st' ->
  (forall other, other <> name ->
     alist_lookup other (detection_triggers st')
     = alist_lookup other (detection_triggers st)) /\
  exists new,
    events st' = events st ++ new /\
    (alerts_only new \/
     exists td,
       new = [Dispatch (action (get_detection cfg name)) name td] /\
       all_flags (set_triggers td) = true /\
       alist_lookup name (detection_triggers st') = Some []).
Proof.
  unfold process_detection. intros H.
  apply rbind_ret in H as (ts & Htimeout & H).
  apply rbind_ret in H as (time & Htime & H).
  apply rbind_ret in H as ([[filtered st1] td1] & Hfilter & H).
  apply filter_detection_frame in Hfilter as (Hs & alerts & He & Ha & Hif).
  cbn [with_triggers events detection_triggers] in He, Hif.
  destruct filtered.
  - injection H as <-. split.
    + intros other Hne.
      destruct (all_flags _).
      * rewrite Hif. rewrite !alist_lookup_set_ne by congruence. reflexivity.
      * rewrite Hif. cbn [with_triggers detection_triggers].
        rewrite alist_lookup_set_ne by congruence. reflexivity.
    + exists alerts. split; [exact He|]. left. exact Ha.
  - destruct Hif as (Hall & Ht & ->). rewrite app_nil_r in He.
    apply rbind_ret in H as (deferred & Hcrash & H).
    destruct deferred.
    + destruct (app_log_level cfg <=? WARNING); [discriminate H|].
      injection H as <-. split.
      * intros other Hne. rewrite Ht.
        rewrite alist_lookup_set_ne by congruence. reflexivity.
      * exists []. rewrite app_nil_r. split; [exact He|]. left. constructor.
    + apply rbind_ret in H as (st3 & Hstats & H).
      apply update_detection_stats_frame in Hstats as [Ht3 He3].
      cbn [with_event events detection_triggers] in Ht3, He3.
      injection H as <-.
      cbn [clear_triggers with_triggers events detection_triggers].
      split.
      * intros other Hne. rewrite Ht3, Ht.
        rewrite !alist_lookup_set_ne by congruence. reflexivity.
      * eexists. split; [rewrite He3, He; reflexivity|].
        right. eexists. split; [reflexivity|].
        split; [rewrite Hs; exact Hall|].
        apply alist_lookup_set_eq.
Qed.

Lemma dispatches_of_app n evs1 evs2 :
  dispatches_of n (evs1 ++ evs2) = dispatches_of n evs1 ++ dispatches_of n evs2.
Proof. unfold dispatches_of. apply List.filter_app. Qed.

(** The loop of [process_detections] over items with distinct names. *)
Lemma process_loop_spec cfg mkt trader items st st' :
  NoDup (map fst items) ->
  process_loop cfg mkt trader items st = Ret st' ->
  exists new,
    events st' = events st ++ new /\
    (forall n, ~ In n (map fst items) ->
       alist_lookup n (detection_triggers st') = alist_lookup n (detection_triggers st) /\
       dispatches_of n new = []) /\
    (forall a n td, In (Dispatch a n td) new ->
       In n (map fst items) /\
       dispatches_of n new = [Dispatch a n td] /\
       a = action (get_detection cfg n) /\
       all_flags (set_triggers td) = true /\
       alist_lookup n (detection_triggers st') = Some []).
Proof.
  revert st. induction items as [|[name ts] items IH]; intros st Hnd H;
    cbn [process_loop] in H.
  - injection H as <-. exists []. rewrite app_nil_r.
    split; [reflexivity|]. split; [auto|]. intros a n td [].
  - apply rbind_ret in H as (st1 & Hstep & H).
    cbn [map fst] in Hnd. apply NoDup_cons in Hnd as [Hfresh Hnd].
    apply process_detection_spec in Hstep as (Hframe & new1 & He1 & Hnew1).
    apply IH in H as (new2 & He2 & Hout & Hin); [|exact Hnd].
    exists (new1 ++ new2). split; [rewrite He2, He1, app_assoc; reflexivity|].
    assert (Hother : forall n, n <> name -> dispatches_of n new1 = []).
    { intros n Hne. destruct Hnew1 as [Ha|(td & -> & _)].
      - apply dispatches_of_alerts. exact Ha.
      - cbn. rewrite bool_decide_eq_false_2 by congruence. reflexivity. }
    split.
    + intros n Hn. cbn [map fst] in Hn.
      assert (n <> name) by (intros ->; apply Hn; left; reflexivity).
      assert (Hn' : ~ In n (map fst items)) by (intros ?; apply Hn; right; assumption).
      destruct (Hout n Hn') as [Hl Hd]. split.
      * rewrite Hl. apply Hframe. assumption.
      * rewrite dispatches_of_app, Hd, Hother by assumption. reflexivity.
    + intros a n td Hdisp. apply in_app_or in Hdisp as [Hdisp|Hdisp].
      * destruct Hnew1 as [Ha|(td1 & -> & Hall & Hclear)].
        { exfalso. exact (alerts_only_not_dispatch _ _ _ _ Ha Hdisp). }
        destruct Hdisp as [Heq|[]]. injection Heq as <- <- <-.
        assert (Hfresh' : ~ In name (map fst items)).
        { intros Hx. apply Hfresh. apply list_elem_of_In. exact Hx. }
        destruct (Hout name Hfresh') as [Hl Hd].
        split; [left; reflexivity|].
        split; [rewrite dispatches_of_app, Hd; cbn;
                rewrite bool_decide_eq_true_2 by reflexivity; reflexivity|].
        split; [reflexivity|]. split; [exact Hall|].
        rewrite Hl. exact Hclear.
      * destruct (Hin a n td Hdisp) as (Hn & Hd & Ha & Hall & Hclear).
        assert (n <> name).
        { intros ->. apply Hfresh. apply list_elem_of_In. exact Hn. }
        split; [right; exact Hn|].
        split; [rewrite dispatches_of_app, Hd, Hother by assumption; reflexivity|].
        auto.
Qed.

(** C4. Whenever [process_detections] dispatches the action of a detection
    (the stored triggers being a dict, with one entry per detection name),
    all condition triggers of that detection were set, the action is the
    configured one and is dispatched exactly once in that call, and after the
    call the stored triggers of the detection are the empty list. *)
Theorem firing_clears_triggers (cfg : DetectorConfig) (mkt : Market) (trader : Trader)
    (st st' : Detector) :
  NoDup (map fst (detection_triggers st)) ->
  process_detections cfg mkt trader st = Ret st' ->
  exists new,
    events st' = events st ++ new /\
    forall a n td, In (Dispatch a n td) new ->
      all_flags (set_triggers td) = true /\
      a = action (get_detection cfg n) /\
      dispatches_of n new = [Dispatch a n td] /\
      alist_lookup n (detection_triggers st') = Some [].
Proof.
  intros Hnd H. unfold process_detections in H.
  apply process_loop_spec in H as (new & He & _ & Hin); [|exact Hnd].
  exists new. split; [exact He|].
  intros a n td Hdisp.
  destruct (Hin a n td Hdisp) as (_ & Hd & Ha & Hall & Hclear). auto.
Qed.

Lemma firing_clears_triggers_witness :
  NoDup (map fst (detection_triggers both_set)) /\
  exists st',
    process_detections crash_config crash_market no_trades both_set = Ret st' /\
    map (dispatch_for "breakout") (events st') = [true; false] /\
    alist_lookup "breakout" (detection_triggers st') = Some [].
Proof.
  assert (Hnd : NoDup (map fst (detection_triggers both_set))).
  { apply (bool_decide_unpack _). vm_compute. exact I. }
  split; [exact Hnd|].
  destruct (process_detections crash_config crash_market no_trades both_set)
    as [st'|e] eqn:H.
  - destruct (firing_clears_triggers crash_config crash_market no_trades both_set st'
                Hnd H) as (new & He & Hin).
    exists st'. split; [reflexivity|].
    vm_compute in H. injection H as <-.
    split; [reflexivity|].
    cbn [events both_set with_triggers fresh_detector app] in He. subst new.
    exact (proj2 (proj2 (proj2 (Hin _ _ _ (or_introl eq_refl))))).
  - exfalso. vm_compute in H. discriminate.
Defined.

(** ** The follow filter *)

Lemma follow_rule_group_verdict mkt st rule group followed :
  match rule_group_filtered mkt st rule group with
  | Ret b => exists followed',
      _filter_follow_rule_group mkt st rule group followed = Ret (b, followed')
  | Raise e => _filter_follow_rule_group mkt st rule group followed = Raise e
  end.
Proof.
  unfold rule_group_filtered, _filter_follow_rule_group.
  destruct (py_last (m_adjusted_close_values mkt)) as [value|]; cbn [rbind];
    [|reflexivity].
  destruct (py_last (m_close_times mkt)) as [now|]; cbn [rbind]; [|reflexivity].
  destruct (last_detections st !! group) as [last|]; cbn [rbind];
    [|eexists; reflexivity].
  destruct (py_in (ld_type last) (fr_types rule)); cbn [rbind];
    [|eexists; reflexivity].
  destruct (py_div (ld_value last) value); cbn [rbind]; [|reflexivity].
  destruct (ld_ma_value last) as [ma|]; cbn [rbind]; [|eexists; reflexivity].
  destruct (py_div ma value); cbn [rbind]; [|reflexivity].
  repeat (match goal with
          | |- context [if ?b then _ else _] => destruct b
          end; cbn [rbind]; try (eexists; reflexivity)).
Qed.

Lemma rule_group_filtered_total mkt st rule group value now :
  py_last (m_adjusted_close_values mkt) = Ret value ->
  Qeq_bool value 0 = false ->
  py_last (m_close_times mkt) = Ret now ->
  exists b, rule_group_filtered mkt st rule group = Ret b.
Proof.
  intros Hv Hnz Hn. unfold rule_group_filtered, _filter_follow_rule_group.
  rewrite Hv, Hn. cbn [rbind].
  destruct (last_detections st !! group) as [last|]; cbn [rbind];
    [|eexists; reflexivity].
  destruct (py_in (ld_type last) (fr_types rule)); cbn [rbind];
    [|eexists; reflexivity].
  unfold py_div. rewrite Hnz. cbn [rbind].
  destruct (ld_ma_value last) as [ma|]; cbn [rbind]; [|eexists; reflexivity].
  repeat (match goal with
          | |- context [if ?b then _ else _] => destruct b
          end; cbn [rbind]; try (eexists; reflexivity)).
Qed.

Section FollowLoops.
Variables (mkt : Market) (st : Detector) (value now : Q).
Hypothesis Hvalue : py_last (m_adjusted_close_values mkt) = Ret value.
Hypothesis Hnonzero : Qeq_bool value 0 = false.
Hypothesis Hnow : py_last (m_close_times mkt) = Ret now.

Lemma follow_rule_passes_spec (rule : FollowRule) (groups : list string)
    (followed : list Followed) :
  exists passed followed',
    follow_rule_passes mkt st rule groups followed = Ret (passed, followed') /\
    (passed = true <->
     exists group, In group groups /\
                   rule_group_filtered mkt st rule group = Ret false).
Proof.
  revert followed. induction groups as [|group groups IH]; intros followed;
    cbn [follow_rule_passes].
  - eexists _, _. split; [reflexivity|]. split; [discriminate|].
    intros (g & [] & _).
  - destruct (rule_group_filtered_total mkt st rule group value now
                Hvalue Hnonzero Hnow) as (b & Hb).
    pose proof (follow_rule_group_verdict mkt st rule group followed) as Hv.
    rewrite Hb in Hv. destruct Hv as (followed1 & ->). cbn [rbind].
    destruct b; cbn [negb].
    + destruct (IH followed1) as (passed & followed' & -> & Hiff).
      eexists _, _. split; [reflexivity|]. rewrite Hiff. split.
      * intros (g & Hg & Hr). exists g. split; [right; exact Hg|exact Hr].
      * intros (g & [<-|Hg] & Hr); [congruence|]. exists g. auto.
    + eexists _, _. split; [reflexivity|]. split; [|reflexivity].
      intros _. exists group. split; [left; reflexivity|exact Hb].
Qed.

Lemma follow_loop_spec (rules : list FollowRule) (followed : list Followed) :
  exists filtered followed',
    follow_loop mkt st rules followed = Ret (filtered, followed') /\
    (filtered = false <->
     exists rule group,
       In rule rules /\ In group (fr_groups rule) /\
       rule_group_filtered mkt st rule group = Ret false).
Proof.
  revert followed. induction rules as [|rule rules IH]; intros followed;
    cbn [follow_loop].
  - eexists _, _. split; [reflexivity|]. split; [discriminate|].
    intros (r & g & [] & _).
  - destruct (follow_rule_passes_spec rule (fr_groups rule) followed)
      as (passed & followed1 & -> & Hp). cbn [rbind].
    destruct passed.
    + eexists _, _. split; [reflexivity|]. split; [|reflexivity].
      intros _. destruct (proj1 Hp eq_refl) as (g & Hg & Hr).
      exists rule, g. split; [left; reflexivity|]. auto.
    + destruct (IH followed1) as (filtered & followed' & -> & Hiff).
      eexists _, _. split; [reflexivity|]. rewrite Hiff. split.
      * intros (r & g & Hr & Hg & Hv). exists r, g. split; [right; exact Hr|]. auto.
      * intros (r & g & [<-|Hr] & Hg & Hv).
        -- assert (false = true) by (apply Hp; exists g; auto). discriminate.
        -- exists r, g. auto.
Qed.
End FollowLoops.

(** C6, amended.  With data for the pair (a current time and a non-zero
    current value), the follow filter returns, and it permits the detection
    exactly when at least one of the listed follow rules passes its checks
    for one of its groups; it vetoes when every rule fails for every group. *)
Theorem follow_filter_permits_when_one_passes (cfg : DetectorConfig) (mkt : Market)
    (st : Detector) (params : Detection) (td : TriggerData) (value now : Q) :
  py_last (m_adjusted_close_values mkt) = Ret value ->
  Qeq_bool value 0 = false ->
  py_last (m_close_times mkt) = Ret now ->
  exists filtered td',
    _detection_filter_follow cfg mkt st params td = Ret (filtered, td') /\
    (filtered = false <->
     exists rule group,
       In rule (map (follow_defaults cfg) (default [] (follow params))) /\
       In group (fr_groups rule) /\
       rule_group_filtered mkt st rule group = Ret false).
Proof.
  intros Hv Hnz Hn. unfold _detection_filter_follow.
  destruct (follow_loop_spec mkt st value now Hv Hnz Hn
              (map (follow_defaults cfg) (default [] (follow params))) (followed td))
    as (filtered & followed' & -> & Hiff).
  cbn [rbind]. eexists _, _. split; [reflexivity|exact Hiff].
Qed.

(** C6, as stated, fails: of the two follow rules of the detection the one
    on the group "surge" fails (no detection of that group is recorded) and
    the one on the group "dip" passes; the follow filter does not veto, and
    [_filter_detection] lets the detection fire. *)
Lemma follow_filter_permits_with_failing_rule :
  length (default [] (follow sell_after_both)) = 2%nat /\
  rule_group_filtered crash_market after_dip
    (follow_defaults follow_config (follow_confirmed "surge")) "surge" = Ret true /\
  rule_group_filtered crash_market after_dip
    (follow_defaults follow_config (follow_confirmed "dip")) "dip" = Ret false /\
  (exists td',
     _detection_filter_follow follow_config crash_market after_dip sell_after_both
       aggregate_at_120 = Ret (false, td')) /\
  (exists st' td',
     _filter_detection follow_config crash_market no_trades "exit" sell_after_both
       [set_trigger_at_60] after_dip aggregate_at_120 = Ret (false, st', td')).
Proof.
  vm_compute. repeat split; eexists; try eexists; reflexivity.
Qed.

Lemma follow_filter_permits_when_one_passes_witness :
  py_last (m_adjusted_close_values crash_market) = Ret 40%Q /\
  Qeq_bool 40 0 = false /\
  py_last (m_close_times crash_market) = Ret 120%Q /\
  exists td',
    _detection_filter_follow follow_config crash_market after_dip sell_after_both
      aggregate_at_120 = Ret (false, td').
Proof.
  split; [reflexivity|]. split; [reflexivity|]. split; [reflexivity|].
  destruct (follow_filter_permits_when_one_passes follow_config crash_market after_dip
              sell_after_both aggregate_at_120 40 120 eq_refl eq_refl eq_refl)
    as (filtered & td' & Hrun & Hiff).
  exists td'. rewrite Hrun. f_equal. f_equal. apply Hiff.
  exists (follow_defaults follow_config (follow_confirmed "dip")), "dip".
  split; [right; left; reflexivity|]. split; [left; reflexivity|reflexivity].
Defined.

(** ** Crossover *)

Lemma alist_lookup_set {K V : Type} `{EqDecision K} (k k' : K) (v : V)
    (l : list (K * V)) :
  alist_lookup k' (alist_set k v l) = if decide (k = k') then Some v else alist_lookup k' l.
Proof.
  induction l as [|[k0 v0] l IH]; simpl.
  - destruct (decide (k = k')); reflexivity.
  - destruct (decide (k0 = k)) as [->|Hne]; simpl.
    + destruct (decide (k = k')); reflexivity.
    + destruct (decide (k0 = k')) as [->|Hne'].
      * rewrite decide_False by congruence. reflexivity.
      * exact IH.
Qed.

Lemma cache_ok_set cfg mkt cache rule state meta :
  cache_ok cfg mkt cache -> result_ok cfg mkt rule state meta ->
  cache_ok cfg mkt (alist_set rule (state, meta) cache).
Proof.
  intros Hc Hr rule' state' meta' Hl. rewrite alist_lookup_set in Hl.
  destruct (decide (rule = rule')) as [<-|_].
  - injection Hl as <- <-. exact Hr.
  - apply Hc. exact Hl.
Qed.

(** An evaluation of a crossover rule that is not served from the cache,
    when the averages have a position. *)
Lemma check_ma_crossover_position cfg mkt triggers cache ema a b idx name p :
  crossover_position cfg mkt ema a b = Some p ->
  alist_lookup (ma_crossover ema a b) cache = None ->
  exists values,
    let crossover := (p =? 1) && previous_below triggers name idx in
    let meta := {| meta_ma_values := values; meta_ma_positions := [p] |} in
    _check_ma_crossover cfg mkt triggers cache (ma_crossover ema a b) ema a b idx name
    = Ret (Some crossover, meta, alist_set (ma_crossover ema a b) (crossover, meta) cache).
Proof.
  unfold crossover_position, _check_ma_crossover. intros Hp ->. revert Hp.
  destruct (rule_mas cfg mkt ema a b) as [[fm sm]|e]; [|discriminate].
  destruct (py_from_end fm 2), (py_from_end sm 2), (py_last fm), (py_last sm);
    try discriminate.
  destruct (isclose_zero _ || isclose_zero _); [discriminate|].
  destruct (Qlt_bool _ _); intros Hp; injection Hp as <-; eexists; reflexivity.
Qed.

(** Without a position the evaluation leaves the cache as it is. *)
Lemma check_ma_crossover_no_position cfg mkt triggers cache ema a b idx name r cache' :
  crossover_position cfg mkt ema a b = None ->
  _check_ma_crossover cfg mkt triggers cache (ma_crossover ema a b) ema a b idx name
    = Ret (r, cache') ->
  cache' = cache.
Proof.
  unfold crossover_position, _check_ma_crossover.
  destruct (alist_lookup _ cache) as [[s m]|];
    [intros _ H; injection H as <- <-; reflexivity|].
  destruct (rule_mas cfg mkt ema a b) as [[fm sm]|e].
  - destruct (py_from_end fm 2), (py_from_end sm 2), (py_last fm), (py_last sm);
      try (intros _ H; injection H as <- <-; reflexivity).
    destruct (isclose_zero _ || isclose_zero _);
      [intros _ H; injection H as <- <-; reflexivity|discriminate].
  - intros _ H. destruct e; try discriminate; injection H as <- <-; reflexivity.
Qed.

(** A rule check keeps the cache sound, and what it returns for a crossover
    rule carries the position of the averages on the market. *)
Lemma check_rule_ok cfg mkt triggers cache rule idx name state meta cache' :
  cache_ok cfg mkt cache ->
  check_rule cfg mkt triggers cache rule idx name = Ret (state, meta, cache') ->
  cache_ok cfg mkt cache' /\
  match rule with
  | ma_position _ _ _ => meta_ma_positions meta = []
  | ma_crossover ema first second =>
      forall p, crossover_position cfg mkt ema first second = Some p ->
                meta_ma_positions meta = [p] /\ state <> None /\
                (state = Some true -> p = 1)
  end.
Proof.
  intros Hc H. destruct rule as [ema a b|ema a b]; cbn [check_rule] in H.
  - unfold _check_ma_position in H.
    destruct (alist_lookup _ cache) as [[s m]|] eqn:Hl.
    + injection H as <- <- <-. split; [exact Hc|]. exact (Hc _ _ _ Hl).
    + rinv; subst; try (split; [exact Hc|reflexivity]).
      split; [|reflexivity]. apply cache_ok_set; [exact Hc|reflexivity].
  - destruct (alist_lookup (ma_crossover ema a b) cache) as [[s m]|] eqn:Hl.
    + unfold _check_ma_crossover in H. rewrite Hl in H.
      injection H as <- <- <-. split; [exact Hc|].
      intros p Hp. destruct (Hc _ _ _ Hl) as (p' & Hp' & Hm & Hs).
      rewrite Hp in Hp'. injection Hp' as <-.
      split; [exact Hm|]. split; [discriminate|].
      intros Hst. injection Hst as ->. auto.
    + destruct (crossover_position cfg mkt ema a b) as [p|] eqn:Hp.
      * destruct (check_ma_crossover_position cfg mkt triggers cache ema a b idx name p
                    Hp Hl) as (values & Heq).
        cbn zeta in Heq. rewrite Heq in H. injection H as <- <- <-.
        assert (Hone : (p =? 1) && previous_below triggers name idx = true -> p = 1).
        { intros Hb. apply andb_true_iff in Hb as [Hb _]. lia. }
        split.
        -- apply cache_ok_set; [exact Hc|]. exists p. auto.
        -- intros p' Hp'. injection Hp' as <-.
           split; [reflexivity|]. split; [discriminate|].
           intros Hst. injection Hst as Hst. auto.
      * apply check_ma_crossover_no_position in H as ->; [|exact Hp].
        split; [exact Hc|]. discriminate.
Qed.

Lemma check_rule_crossover_returns cfg mkt triggers cache ema a b idx name p :
  crossover_position cfg mkt ema a b = Some p ->
  exists r, check_rule cfg mkt triggers cache (ma_crossover ema a b) idx name = Ret r.
Proof.
  intros Hp. cbn [check_rule].
  destruct (alist_lookup (ma_crossover ema a b) cache) as [[s m]|] eqn:Hl.
  - unfold _check_ma_crossover. rewrite Hl. eexists; reflexivity.
  - destruct (check_ma_crossover_position cfg mkt triggers cache ema a b idx name p
                Hp Hl) as (values & Heq).
    eexists. exact Heq.
Qed.

(** The loop over the rules only appends to the states and positions, and
    keeps the cache sound. *)
Lemma check_rules_appends cfg mkt triggers idx name rules states values positions cache
    states' values' positions' cache' :
  cache_ok cfg mkt cache ->
  check_rules cfg mkt triggers idx name rules states values positions cache
    = Ret (states', values', positions', cache') ->
  cache_ok cfg mkt cache' /\
  exists s2 p2,
    states' = states ++ s2 /\ positions' = positions ++ p2 /\
    (Forall is_position_rule rules -> p2 = []).
Proof.
  revert states values positions cache.
  induction rules as [|rule rules IH]; intros states values positions cache Hc H;
    cbn [check_rules] in H.
  - injection H as <- <- <- <-. split; [exact Hc|].
    exists [], []. rewrite !app_nil_r. auto.
  - destruct (check_rule cfg mkt triggers cache rule idx name)
      as [[[state meta] cache1]|e] eqn:Hr.
    + apply check_rule_ok in Hr as [Hc1 Hm]; [|exact Hc].
      destruct state as [state|].
      * apply IH in H as (Hc' & s2 & p2 & -> & -> & Hpos); [|exact Hc1].
        split; [exact Hc'|].
        exists (state :: s2), (meta_ma_positions meta ++ p2).
        rewrite <- !app_assoc. split; [reflexivity|]. split; [reflexivity|].
        intros Hall. apply Forall_cons in Hall as [Hrule Hall].
        rewrite (Hpos Hall), app_nil_r.
        destruct rule; [exact Hm|destruct Hrule].
      * apply IH in H as (Hc' & s2 & p2 & -> & -> & Hpos); [|exact Hc1].
        split; [exact Hc'|]. exists s2, p2.
        split; [reflexivity|]. split; [reflexivity|].
        intros Hall. apply Forall_cons in Hall as [_ Hall]. auto.
    + assert (Hskip : check_rules cfg mkt triggers idx name rules states values
                        positions cache = Ret (states', values', positions', cache')).
      { destruct e; try discriminate; exact H. }
      apply IH in Hskip as (Hc' & s2 & p2 & -> & -> & Hpos); [|exact Hc].
      split; [exact Hc'|]. exists s2, p2.
      split; [reflexivity|]. split; [reflexivity|].
      intros Hall. apply Forall_cons in Hall as [_ Hall]. auto.
Qed.

(** When the first crossover rule of a condition has a position, the
    positions collected for the condition start with it, and a position of 0
    leaves a false state. *)
Lemma check_rules_first_crossover cfg mkt triggers idx name pre ema a b post p
    states values positions cache states' values' positions' cache' :
  cache_ok cfg mkt cache ->
  Forall is_position_rule pre ->
  crossover_position cfg mkt ema a b = Some p ->
  check_rules cfg mkt triggers idx name (pre ++ ma_crossover ema a b :: post)
    states values positions cache = Ret (states', values', positions', cache') ->
  cache_ok cfg mkt cache' /\
  exists s2 p2,
    states' = states ++ s2 /\ positions' = positions ++ p :: p2 /\
    (p = 0 -> In false s2).
Proof.
  intros Hc Hpre Hp. revert states values positions cache Hc.
  induction pre as [|rule pre IH]; intros states values positions cache Hc H.
  - cbn [app check_rules] in H.
    destruct (check_rule_crossover_returns cfg mkt triggers cache ema a b idx name p Hp)
      as ([[state meta] cache1] & Hr).
    rewrite Hr in H.
    apply check_rule_ok in Hr as [Hc1 Hm]; [|exact Hc].
    destruct (Hm p Hp) as (Hmeta & Hsome & Hone).
    destruct state as [state|]; [|congruence].
    apply check_rules_appends in H as (Hc' & s2 & p2 & -> & -> & _); [|exact Hc1].
    split; [exact Hc'|]. exists (state :: s2), p2.
    rewrite Hmeta, <- !app_assoc. split; [reflexivity|]. split; [reflexivity|].
    intros ->. left. destruct state; [|reflexivity].
    specialize (Hone eq_refl). discriminate.
  - apply Forall_cons in Hpre as [Hrule Hpre].
    cbn [app check_rules] in H.
    destruct (check_rule cfg mkt triggers cache rule idx name)
      as [[[state meta] cache1]|e] eqn:Hr.
    + apply check_rule_ok in Hr as [Hc1 Hm]; [|exact Hc].
      destruct rule; [|destruct Hrule].
      destruct state as [state|].
      * apply (IH Hpre) in H as (Hc' & s2 & p2 & -> & -> & Hz); [|exact Hc1].
        split; [exact Hc'|]. exists (state :: s2), p2.
        rewrite Hm, app_nil_r, <- app_assoc.
        split; [reflexivity|]. split; [reflexivity|].
        intros Hp0. right. auto.
      * apply (IH Hpre) in H as (Hc' & s2 & p2 & -> & -> & Hz); [|exact Hc1].
        split; [exact Hc'|]. exists s2, p2. auto.
    + assert (Hskip : check_rules cfg mkt triggers idx name
                        (pre ++ ma_crossover ema a b :: post) states values
                        positions cache = Ret (states', values', positions', cache')).
      { destruct e; try discriminate; exact H. }
      apply (IH Hpre) in Hskip as (Hc' & s2 & p2 & -> & -> & Hz); [|exact Hc].
      split; [exact Hc'|]. exists s2, p2. auto.
Qed.

Lemma all_flags_false (flags : list bool) : In false flags -> all_flags flags = false.
Proof.
  intros Hin. unfold all_flags, py_sum_flags. apply Z.eqb_neq.
  assert (Hlt : (length (filter (fun b => b = true) flags) < length flags)%nat).
  { induction flags as [|b flags IH]; [destruct Hin|].
    destruct Hin as [->|Hin].
    - rewrite filter_cons_False by discriminate. simpl.
      pose proof (length_filter (fun b => b = true) flags). lia.
    - specialize (IH Hin). destruct b.
      + rewrite filter_cons_True by reflexivity. simpl. lia.
      + rewrite filter_cons_False by discriminate. simpl. lia. }
  lia.
Qed.

Lemma get_detection_trigger_cache_ok cfg mkt triggers cache name idx rules t cache' :
  cache_ok cfg mkt cache ->
  _get_detection_trigger cfg mkt triggers cache name idx rules = Ret (t, cache') ->
  cache_ok cfg mkt cache'.
Proof.
  intros Hc H. unfold _get_detection_trigger in H.
  apply rbind_ret in H as (time & _ & H).
  apply rbind_ret in H as ([[[states values] positions] cache1] & Hr & H).
  injection H as <- <-.
  apply check_rules_appends in Hr as [Hc' _]; assumption.
Qed.

Lemma get_detection_trigger_carries cfg mkt triggers cache name idx pre ema a b post p
    t cache' :
  cache_ok cfg mkt cache ->
  Forall is_position_rule pre ->
  crossover_position cfg mkt ema a b = Some p ->
  _get_detection_trigger cfg mkt triggers cache name idx
    (pre ++ ma_crossover ema a b :: post) = Ret (t, cache') ->
  carries p t.
Proof.
  intros Hc Hpre Hp H. unfold _get_detection_trigger in H.
  apply rbind_ret in H as (time & _ & H).
  apply rbind_ret in H as ([[[states values] positions] cache1] & Hr & H).
  injection H as <- <-.
  apply (check_rules_first_crossover cfg mkt triggers idx name pre ema a b post p)
    in Hr as (_ & s2 & p2 & -> & -> & Hz); try assumption.
  split; cbn.
  - exists p2. reflexivity.
  - intros Hp0. apply all_flags_false. auto.
Qed.

Lemma update_condition_cache_ok cfg mkt triggers cache name idx rules t cache' :
  cache_ok cfg mkt cache ->
  update_condition cfg mkt triggers cache name idx rules = Ret (t, cache') ->
  cache_ok cfg mkt cache'.
Proof.
  intros Hc H. unfold update_condition in H.
  apply rbind_ret in H as ([test cache1] & Hget & H).
  apply get_detection_trigger_cache_ok in Hget; [|exact Hc].
  destruct (old_trigger triggers name idx) as [old|];
    [destruct (t_set old)|]; injection H as <- <-; exact Hget.
Qed.

Lemma update_condition_carries cfg mkt triggers cache name idx pre ema a b post p
    t cache' :
  cache_ok cfg mkt cache ->
  Forall is_position_rule pre ->
  crossover_position cfg mkt ema a b = Some p ->
  not_set (old_trigger triggers name idx) ->
  update_condition cfg mkt triggers cache name idx
    (pre ++ ma_crossover ema a b :: post) = Ret (t, cache') ->
  carries p t.
Proof.
  intros Hc Hpre Hp Hold H. unfold update_condition in H.
  apply rbind_ret in H as ([test cache1] & Hget & H).
  apply (get_detection_trigger_carries cfg mkt triggers cache name idx pre ema a b
           post p) in Hget; try assumption.
  destruct (old_trigger triggers name idx) as [old|]; cbn in Hold.
  - rewrite Hold in H. injection H as <- <-. exact Hget.
  - injection H as <- <-. exact Hget.
Qed.

Lemma update_conditions_keeps cfg mkt triggers name conds :
  forall i acc cache ts cache' m x,
    update_conditions cfg mkt triggers name i conds acc cache = Ret (ts, cache') ->
    acc !! m = Some x -> ts !! m = Some x.
Proof.
  induction conds as [|rules conds IH]; intros i acc cache ts cache' m x H Hm;
    cbn [update_conditions] in H.
  - injection H as <- <-. exact Hm.
  - apply rbind_ret in H as ([t cache1] & _ & H).
    eapply IH; [exact H|]. apply lookup_app_l_Some. exact Hm.
Qed.

(** The triggers the update stores for the conditions of one detection. *)
Lemma update_conditions_spec cfg mkt triggers name conds :
  forall i acc cache ts cache',
    cache_ok cfg mkt cache ->
    update_conditions cfg mkt triggers name i conds acc cache = Ret (ts, cache') ->
    cache_ok cfg mkt cache' /\
    forall k rules, conds !! k = Some rules ->
      exists c c' t,
        cache_ok cfg mkt c /\
        update_condition cfg mkt triggers c name (i + k) rules = Ret (t, c') /\
        ts !! (length acc + k)%nat = Some t.
Proof.
  induction conds as [|rules conds IH]; intros i acc cache ts cache' Hc H;
    cbn [update_conditions] in H.
  - injection H as <- <-. split; [exact Hc|]. intros k rules Hk. discriminate.
  - apply rbind_ret in H as ([t cache1] & Hu & H).
    pose proof (update_condition_cache_ok _ _ _ _ _ _ _ _ _ Hc Hu) as Hc1.
    assert (Hhere : ts !! length acc = Some t).
    { eapply update_conditions_keeps; [exact H|].
      apply list_lookup_middle. reflexivity. }
    apply IH in H as [Hc' Hrest]; [|exact Hc1].
    split; [exact Hc'|].
    intros k rules' Hk. destruct k as [|k].
    + injection Hk as <-. exists cache, cache1, t.
      rewrite !Nat.add_0_r. auto.
    + cbn in Hk. destruct (Hrest k rules' Hk) as (c & c' & t' & Hcc & Hu' & Hl).
      exists c, c', t'. split; [exact Hcc|].
      rewrite length_app in Hl. cbn [length] in Hl.
      replace (i + S k)%nat with (S i + k)%nat by lia.
      replace (length acc + S k)%nat with (length acc + 1 + k)%nat by lia.
      auto.
Qed.

Lemma alist_set_keys_in {V : Type} (k k0 : string) (v : V) (l : list (string * V)) :
  In k0 (map fst (alist_set k v l)) -> k0 = k \/ In k0 (map fst l).
Proof.
  induction l as [|[k1 v1] l IH]; simpl.
  - intros [Heq|[]]. left. congruence.
  - destruct (decide (k1 = k)) as [->|Hne]; simpl.
    + intros [Heq|Hin]; [left; congruence|right; right; exact Hin].
    + intros [Heq|Hin]; [right; left; exact Heq|].
      destruct (IH Hin) as [Hk|Hk]; auto.
Qed.

Lemma alist_set_nodup {V : Type} (k : string) (v : V) (l : list (string * V)) :
  NoDup (map fst l) -> NoDup (map fst (alist_set k v l)).
Proof.
  induction l as [|[k0 v0] l IH]; simpl; intros Hnd.
  - apply NoDup_singleton.
  - apply NoDup_cons in Hnd as [Hfresh Hnd].
    destruct (decide (k0 = k)) as [->|Hne]; simpl.
    + apply NoDup_cons. auto.
    + apply NoDup_cons. split; [|auto].
      intros Hin. apply list_elem_of_In, alist_set_keys_in in Hin as [Heq|Hin];
        [congruence|].
      apply Hfresh. apply list_elem_of_In. exact Hin.
Qed.

Lemma alist_lookup_In {V : Type} (k : string) (v : V) (l : list (string * V)) :
  alist_lookup k l = Some v -> In (k, v) l.
Proof.
  induction l as [|[k0 v0] l IH]; simpl; [discriminate|].
  destruct (decide (k0 = k)) as [->|Hne].
  - intros H. injection H as ->. left. reflexivity.
  - intros H. right. auto.
Qed.

(** The dict the update stores: the entry of a configured detection holds
    the triggers of its conditions. *)
Lemma update_detections_spec cfg mkt triggers dets :
  forall acc cache acc' cache',
    cache_ok cfg mkt cache ->
    NoDup (map fst dets) ->
    update_detections cfg mkt triggers dets acc cache = Ret (acc', cache') ->
    (NoDup (map fst acc) -> NoDup (map fst acc')) /\
    (forall n, ~ In n (map fst dets) -> alist_lookup n acc' = alist_lookup n acc) /\
    (forall n det, alist_lookup n dets = Some det ->
       exists c ts c',
         cache_ok cfg mkt c /\
         update_conditions cfg mkt triggers n 0 (conditions det) [] c = Ret (ts, c') /\
         alist_lookup n acc' = Some ts).
Proof.
  induction dets as [|[name det] dets IH]; intros acc cache acc' cache' Hc Hnd H;
    cbn [update_detections] in H.
  - injection H as <- <-. split; [auto|]. split; [auto|]. intros n d Hl. discriminate.
  - apply rbind_ret in H as ([ts cache1] & Hu & H).
    cbn [map fst] in Hnd. apply NoDup_cons in Hnd as [Hfresh Hnd].
    pose proof (update_conditions_spec _ _ _ _ _ _ _ _ _ _ Hc Hu) as [Hc1 _].
    apply IH in H as (Hkeys & Hout & Hin); [|exact Hc1|exact Hnd].
    split; [|split].
    + intros Hacc. apply Hkeys. apply alist_set_nodup. exact Hacc.
    + intros n Hn. cbn [map fst] in Hn.
      rewrite Hout by (intros ?; apply Hn; right; assumption).
      apply alist_lookup_set_ne. intros ->. apply Hn. left. reflexivity.
    + intros n d Hl. cbn [alist_lookup] in Hl.
      destruct (decide (name = n)) as [->|Hne].
      * injection Hl as <-. exists cache, ts, cache1.
        split; [exact Hc|]. split; [exact Hu|].
        rewrite Hout; [apply alist_lookup_set_eq|].
        intros Hx. apply Hfresh. apply list_elem_of_In. exact Hx.
      * apply Hin. exact Hl.
Qed.

(** After the update, the trigger of a condition whose stored trigger was
    not set carries the position of its first crossover rule. *)
Lemma update_detection_triggers_carries cfg mkt st st' name det idx pre ema a b post p :
  NoDup (map fst (detections cfg)) ->
  alist_lookup name (detections cfg) = Some det ->
  conditions det !! idx = Some (pre ++ ma_crossover ema a b :: post) ->
  Forall is_position_rule pre ->
  crossover_position cfg mkt ema a b = Some p ->
  not_set (old_trigger (detection_triggers st) name idx) ->
  update_detection_triggers cfg mkt st = Ret st' ->
  NoDup (map fst (detection_triggers st')) /\
  exists t, old_trigger (detection_triggers st') name idx = Some t /\ carries p t.
Proof.
  intros Hnd Hdet Hcond Hpre Hp Hold H. unfold update_detection_triggers in H.
  apply rbind_ret in H as ([dets cache] & Hu & H).
  apply rbind_ret in H as (time & _ & H). injection H as <-.
  cbn [detection_triggers].
  assert (Hc0 : cache_ok cfg mkt []) by (intros r s m Hl; discriminate).
  apply update_detections_spec in Hu as (Hkeys & _ & Hin); [|exact Hc0|exact Hnd].
  split; [apply Hkeys; apply NoDup_nil_2|].
  destruct (Hin name det Hdet) as (c & ts & c' & Hc & Hconds & Hl).
  apply update_conditions_spec in Hconds as [_ Hk]; [|exact Hc].
  destruct (Hk idx _ Hcond) as (c1 & c2 & t & Hc1 & Hcond' & Ht).
  cbn in Hcond', Ht.
  exists t. split.
  - unfold old_trigger. rewrite Hl. exact Ht.
  - eapply update_condition_carries; eassumption.
Qed.

Lemma timeout_triggers_lookup mkt params ts ts' i :
  _timeout_triggers mkt params ts = Ret ts' ->
  match ts !! i with
  | Some t => exists t', ts' !! i = Some t' /\ (t' = t \/ t' = unset t)
  | None => ts' !! i = None
  end.
Proof.
  unfold _timeout_triggers. intros H.
  destruct (time_frame_max params) as [frame_max|].
  - apply rbind_ret in H as (now & _ & H). injection H as <-.
    change (map ?f ?l) with (f <$> l). rewrite list_lookup_fmap.
    destruct (ts !! i) as [t|]; cbn; [|reflexivity].
    eexists. split; [reflexivity|]. destruct (Qlt_bool _ _); auto.
  - injection H as <-. destruct (ts !! i) as [t|]; [|reflexivity].
    exists t. auto.
Qed.

(** What one iteration of [process_detections] leaves as the stored triggers
    of its detection: the triggers after the time-out, or the empty list, the
    latter only when all of them were set. *)
Lemma process_detection_triggers cfg mkt trader st name ts st' :
  process_detection cfg mkt trader st name ts = Ret st' ->
  exists ts',
    _timeout_triggers mkt (get_detection cfg name) ts = Ret ts' /\
    (alist_lookup name (detection_triggers st') = Some ts' \/
     (all_flags (map t_set ts') = true /\
      alist_lookup name (detection_triggers st') = Some [])).
Proof.
  unfold process_detection. intros H.
  apply rbind_ret in H as (ts' & Htimeout & H).
  exists ts'. split; [exact Htimeout|].
  apply rbind_ret in H as (time & Htime & H).
  apply rbind_ret in H as ([[filtered st1] td1] & Hfilter & H).
  apply filter_detection_frame in Hfilter as (Hs & alerts & He & Ha & Hif).
  cbn [with_triggers events detection_triggers _normalize_trigger_values
         _aggregate_trigger_data set_triggers] in Hif.
  destruct filtered.
  - injection H as <-.
    destruct (all_flags (map t_set ts')) eqn:Hall.
    + right. split; [reflexivity|]. rewrite Hif. apply alist_lookup_set_eq.
    + left. rewrite Hif. cbn [with_triggers detection_triggers].
      apply alist_lookup_set_eq.
  - destruct Hif as (Hall & Ht & _).
    apply rbind_ret in H as (deferred & Hcrash & H).
    destruct deferred.
    + destruct (app_log_level cfg <=? WARNING); [discriminate H|].
      injection H as <-. left. rewrite Ht. apply alist_lookup_set_eq.
    + apply rbind_ret in H as (st3 & Hstats & H). injection H as <-.
      right. split; [exact Hall|].
      cbn [clear_triggers with_triggers detection_triggers].
      apply alist_lookup_set_eq.
Qed.

Lemma process_loop_triggers cfg mkt trader items st st' name ts :
  NoDup (map fst items) ->
  In (name, ts) items ->
  process_loop cfg mkt trader items st = Ret st' ->
  exists ts',
    _timeout_triggers mkt (get_detection cfg name) ts = Ret ts' /\
    (alist_lookup name (detection_triggers st') = Some ts' \/
     (all_flags (map t_set ts') = true /\
      alist_lookup name (detection_triggers st') = Some [])).
Proof.
  revert st. induction items as [|[n0 ts0] items IH]; intros st Hnd Hin H;
    [destruct Hin|].
  cbn [process_loop] in H. apply rbind_ret in H as (st1 & Hstep & H).
  cbn [map fst] in Hnd. apply NoDup_cons in Hnd as [Hfresh Hnd].
  destruct Hin as [Heq|Hin].
  - injection Heq as -> ->.
    apply process_detection_triggers in Hstep as (ts' & Ht & Hcases).
    apply process_loop_spec in H as (new & _ & Hout & _); [|exact Hnd].
    assert (Hfresh' : ~ In name (map fst items)).
    { intros Hx. apply Hfresh. apply list_elem_of_In. exact Hx. }
    destruct (Hout name Hfresh') as [Hl _].
    exists ts'. split; [exact Ht|]. rewrite Hl. exact Hcases.
  - eapply IH; eassumption.
Qed.

(** ** Sticky condition state *)






Lemma previous_below_old_trigger triggers name idx :
  previous_below triggers name idx =
  match old_trigger triggers name idx with
  | Some t => match t_ma_positions t with
              | [] => false
              | p :: _ => p =? 0
              end
  | None => false
  end.
Proof.
  unfold previous_below, old_trigger.
  destruct (alist_lookup name triggers); reflexivity.
Qed.

Lemma carries_unset p t : carries p t -> carries p (unset t).
Proof. intros [Hpos _]. split; [exact Hpos|reflexivity]. Qed.

(** A whole cycle, for a condition whose stored trigger was not set and
    whose first crossover rule has the position [p]: with [p = 0] the stored
    trigger afterwards records 0 and is not set; otherwise no stored trigger
    records a 0. *)
Lemma cycle_carries cfg mkt trader st st' name det idx pre ema a b post p :
  NoDup (map fst (detections cfg)) ->
  alist_lookup name (detections cfg) = Some det ->
  conditions det !! idx = Some (pre ++ ma_crossover ema a b :: post) ->
  Forall is_position_rule pre ->
  crossover_position cfg mkt ema a b = Some p ->
  not_set (old_trigger (detection_triggers st) name idx) ->
  cycle cfg mkt trader st = Ret st' ->
  (p = 0 ->
   not_set (old_trigger (detection_triggers st') name idx) /\
   previous_below (detection_triggers st') name idx = true) /\
  (p <> 0 -> previous_below (detection_triggers st') name idx = false).
Proof.
  intros Hnd Hdet Hcond Hpre Hp Hold H. unfold cycle in H.
  apply rbind_ret in H as (st1 & Hupdate & H).
  apply (update_detection_triggers_carries cfg mkt st st1 name det idx pre ema a b
           post p) in Hupdate as (Hkeys & t & Ht & Hcarries); try assumption.
  unfold old_trigger in Ht.
  destruct (alist_lookup name (detection_triggers st1)) as [ts|] eqn:Hl;
    [|discriminate].
  unfold process_detections in H.
  apply (process_loop_triggers cfg mkt trader _ st1 st' name ts) in H
    as (ts' & Htimeout & Hcases); [|exact Hkeys|apply alist_lookup_In; exact Hl].
  pose proof (timeout_triggers_lookup _ _ _ _ idx Htimeout) as Hidx.
  rewrite Ht in Hidx. destruct Hidx as (t' & Ht' & Hsame).
  assert (Hcarries' : carries p t').
  { destruct Hsame as [->| ->]; [exact Hcarries|apply carries_unset; exact Hcarries]. }
  destruct Hcarries' as [(rest & Hpos) Hzero].
  rewrite previous_below_old_trigger. unfold old_trigger.
  destruct Hcases as [Hkept|[Hall Hcleared]].
  - rewrite Hkept, Ht'. cbn [not_set]. rewrite Hpos. split.
    + intros ->. split; [auto|reflexivity].
    + intros Hne. apply Z.eqb_neq. exact Hne.
  - rewrite Hcleared. cbn. split; [|reflexivity].
    intros Hp0. exfalso.
    assert (Hfalse : all_flags (map t_set ts') = false).
    { apply all_flags_false. apply in_map_iff. exists t'.
      split; [auto|]. eapply list_elem_of_In, list_elem_of_lookup_2. exact Ht'. }
    congruence.
Qed.

Lemma crossover_state_position cfg mkt st name idx ema a b p :
  crossover_position cfg mkt ema a b = Some p ->
  crossover_state cfg mkt st name idx ema a b
  = Ret (Some ((p =? 1) && previous_below (detection_triggers st) name idx)).
Proof.
  intros Hp. unfold crossover_state.
  destruct (check_ma_crossover_position cfg mkt (detection_triggers st) [] ema a b
              idx name p Hp eq_refl) as (values & Heq).
  cbn zeta in Heq. rewrite Heq. reflexivity.
Qed.

(** C2 at its failing inputs.  The rule is to return 1 when the first
    average has just crossed over the second and 0 when it has not.  (1) While
    the trigger of its condition is set and kept (the other condition of the
    detection is not fulfilled), the stored position is the one of the cycle
    that set the trigger: after a first crossover the positions below, below,
    above, above return 0, 0, 0, 0, and the second crossover is missed.  (2)
    A crossover rule that is not the first rule of its condition is compared
    with the position the first rule stored: the positions below, below,
    above, above return 0, 0, 1, 1, a crossover on a tick without one. *)
Lemma ma_crossover_misses_edge :
  let sticky := crossover_config [[ma_crossover false 0 1]; [ma_position false 2 3]] in
  let second := crossover_config [[ma_crossover false 2 3; ma_crossover false 0 1]] in
  map (fun mkt => crossover_position sticky mkt false 0 1)
      [below_at 3; below_at 4; above_at 5; above_at 6]
    = [Some 0; Some 0; Some 1; Some 1] /\
  crossover_states sticky no_trades "cross" 0 false 0 1
    [below_at 1; above_at 2; below_at 3; below_at 4; above_at 5; above_at 6]
    (fresh_detector ["cross"])
    = Ret [Some false; Some true; Some false; Some false; Some false; Some false] /\
  crossover_states second no_trades "cross" 0 false 0 1
    [below_at 3; below_at 4; above_at 5; above_at 6]
    (fresh_detector ["cross"])
    = Ret [Some false; Some false; Some true; Some true].
Proof. vm_compute. repeat split. Qed.

(** X26 ([_check_ma_crossover], [update_detection_triggers],
    [process_detections]).  Take a condition (of a detection of the
    configuration dict) whose stored trigger is not set (or is absent) when
    the first cycle starts and whose first crossover rule is
    [ma_crossover(a, b)].  Over four cycles in which [MA[a]] is below
    [MA[b]], below, at or above, at or above (with enough data), the first
    three of which complete, the rule, evaluated against the stored
    triggers, returns 0, 0, 1, 0. *)
Theorem ma_crossover_fires_on_edge (cfg : DetectorConfig)
    (trader1 trader2 trader3 : Trader) (m1 m2 m3 m4 : Market)
    (st0 st1 st2 st3 : Detector) (name : string) (det : Detection) (idx : nat)
    (pre post : list Rule) (ema : bool) (a b : nat) :
  NoDup (map fst (detections cfg)) ->
  alist_lookup name (detections cfg) = Some det ->
  conditions det !! idx = Some (pre ++ ma_crossover ema a b :: post) ->
  Forall is_position_rule pre ->
  not_set (old_trigger (detection_triggers st0) name idx) ->
  crossover_position cfg m1 ema a b = Some 0 ->
  crossover_position cfg m2 ema a b = Some 0 ->
  crossover_position cfg m3 ema a b = Some 1 ->
  crossover_position cfg m4 ema a b = Some 1 ->
  cycle cfg m1 trader1 st0 = Ret st1 ->
  cycle cfg m2 trader2 st1 = Ret st2 ->
  cycle cfg m3 trader3 st2 = Ret st3 ->
  crossover_state cfg m1 st0 name idx ema a b = Ret (Some false) /\
  crossover_state cfg m2 st1 name idx ema a b = Ret (Some false) /\
  crossover_state cfg m3 st2 name idx ema a b = Ret (Some true) /\
  crossover_state cfg m4 st3 name idx ema a b = Ret (Some false).
Proof.
  intros Hnd Hdet Hcond Hpre Hold0 Hp1 Hp2 Hp3 Hp4 Hc1 Hc2 Hc3.
  destruct (cycle_carries cfg m1 trader1 st0 st1 name det idx pre ema a b post 0
              Hnd Hdet Hcond Hpre Hp1 Hold0 Hc1) as [H1 _].
  destruct (H1 eq_refl) as [Hold1 _].
  destruct (cycle_carries cfg m2 trader2 st1 st2 name det idx pre ema a b post 0
              Hnd Hdet Hcond Hpre Hp2 Hold1 Hc2) as [H2 _].
  destruct (H2 eq_refl) as [Hold2 Hbelow2].
  destruct (cycle_carries cfg m3 trader3 st2 st3 name det idx pre ema a b post 1
              Hnd Hdet Hcond Hpre Hp3 Hold2 Hc3) as [_ H3].
  specialize (H3 ltac:(discriminate)).
  rewrite (crossover_state_position _ _ _ _ _ _ _ _ 0 Hp1).
  rewrite (crossover_state_position _ _ _ _ _ _ _ _ 0 Hp2).
  rewrite (crossover_state_position _ _ _ _ _ _ _ _ 1 Hp3).
  rewrite (crossover_state_position _ _ _ _ _ _ _ _ 1 Hp4).
  rewrite Hbelow2, H3. repeat split.
Qed.

Lemma ma_crossover_fires_on_edge_witness :
  let st0 := fresh_detector ["cross"] in
  let st1 := after (below_at 1) st0 in
  let st2 := after (below_at 2) st1 in
  let st3 := after (above_at 3) st2 in
  crossover_state single_crossover (below_at 1) st0 "cross" 0 false 0 1
    = Ret (Some false) /\
  crossover_state single_crossover (below_at 2) st1 "cross" 0 false 0 1
    = Ret (Some false) /\
  crossover_state single_crossover (above_at 3) st2 "cross" 0 false 0 1
    = Ret (Some true) /\
  crossover_state single_crossover (above_at 4) st3 "cross" 0 false 0 1
    = Ret (Some false).
Proof.
  intros st0 st1 st2 st3.
  apply (ma_crossover_fires_on_edge single_crossover no_trades no_trades no_trades
           (below_at 1) (below_at 2) (above_at 3) (above_at 4) st0 st1 st2 st3
           "cross" (on_crossover [[ma_crossover false 0 1]]) 0 [] [] false 0 1).
  - apply (bool_decide_unpack _). vm_compute. exact I.
  - reflexivity.
  - reflexivity.
  - constructor.
  - exact I.
  - reflexivity.
  - reflexivity.
  - reflexivity.
  - reflexivity.
  - vm_compute. reflexivity.
  - vm_compute. reflexivity.
  - vm_compute. reflexivity.
Defined.

(** ** The tick store: updates on time, gaps and bounds *)

Lemma py_fmod_bounds (x : Q) (m : Z) :
  0 < m -> (0 <= py_fmod x m /\ py_fmod x m < inject_Z m)%Q.
Proof.
  intros Hm. unfold py_fmod.
  assert (Hq : (0 < inject_Z m)%Q).
  { change 0%Q with (inject_Z 0). rewrite <- Zlt_Qlt. exact Hm. }
  pose proof (Qfloor_le (x / inject_Z m)) as Hlo.
  pose proof (Qlt_floor (x / inject_Z m)) as Hhi.
  rewrite inject_Z_plus in Hhi.
  set (f := inject_Z (Qfloor (x / inject_Z m))) in *.
  assert (Hx : (x == x / inject_Z m * inject_Z m)%Q) by (field; lra).
  split.
  - assert (f * inject_Z m <= x / inject_Z m * inject_Z m)%Q
      by (apply Qmult_le_compat_r; lra).
    lra.
  - assert (x / inject_Z m * inject_Z m < (f + inject_Z 1) * inject_Z m)%Q
      by (apply Qmult_lt_compat_r; lra).
    change (inject_Z 1) with 1%Q in *. lra.
Qed.

Lemma dense_snoc (interval : Z) (l : list Q) (t x : Q) :
  dense interval l = true -> last l = Some t ->
  (x - t == inject_Z interval)%Q ->
  dense interval (l ++ [x]) = true.
Proof.
  intros Hd Hl Hx. induction l as [|a l IH]; [discriminate|].
  destruct l as [|b l].
  - cbn in Hl. injection Hl as ->. cbn. rewrite andb_true_r.
    apply Qeq_bool_iff. exact Hx.
  - cbn [app dense] in *. apply andb_true_iff in Hd as [Hab Hd].
    apply andb_true_iff. split; [exact Hab|]. apply IH; [exact Hd|exact Hl].
Qed.

Lemma dense_tail (interval : Z) (a : Q) (l : list Q) :
  dense interval (a :: l) = true -> dense interval l = true.
Proof.
  destruct l as [|b l]; [reflexivity|]. cbn [dense]. intros H.
  apply andb_true_iff in H as [_ H]. exact H.
Qed.

Lemma dense_drop (interval : Z) (n : nat) (l : list Q) :
  dense interval l = true -> dense interval (drop n l) = true.
Proof.
  revert l. induction n as [|n IH]; intros l Hd; [rewrite drop_0; exact Hd|].
  destruct l as [|a l]; [reflexivity|]. cbn [drop]. apply IH.
  exact (dense_tail _ _ _ Hd).
Qed.

Lemma truncate_dense cfg d :
  dense (tick_interval_secs cfg) (close_times d) = true ->
  dense (tick_interval_secs cfg) (close_times (_truncate_tick_data cfg d)) = true.
Proof.
  intros Hd. unfold _truncate_tick_data. destruct (_ >? 60); [|exact Hd].
  cbn [set_ticks close_times]. apply dense_drop. exact Hd.
Qed.

Lemma last_drop {A : Type} (n : nat) (l : list A) :
  (n < length l)%nat -> last (drop n l) = last l.
Proof.
  intros Hn. rewrite !last_lookup. rewrite lookup_drop, length_drop. f_equal. lia.
Qed.

(** An update that comes within the interval after the next tick boundary
    is on time: the gap is 0 and the time of the new tick is one interval
    after the last stored one. *)
Lemma get_tick_delta_on_time cfg d current_time t k :
  0 < tick_interval_secs cfg ->
  last (close_times d) = Some t ->
  (t == inject_Z (k * tick_interval_secs cfg))%Q ->
  (t + inject_Z (tick_interval_secs cfg) <= current_time)%Q ->
  (current_time < t + inject_Z (2 * tick_interval_secs cfg))%Q ->
  exists close_time,
    _get_tick_delta cfg d current_time = Some (close_time, 0) /\
    (close_time - t == inject_Z (tick_interval_secs cfg))%Q.
Proof.
  intros Hi Ht Hk Hlo Hhi. unfold _get_tick_delta.
  rewrite (py_last_Some _ _ Ht).
  set (I := tick_interval_secs cfg) in *.
  assert (HI : (0 < inject_Z I)%Q).
  { change 0%Q with (inject_Z 0). rewrite <- Zlt_Qlt. exact Hi. }
  rewrite inject_Z_mult in Hhi, Hk. change (inject_Z 2) with 2%Q in Hhi.
  (* the floor of current_time / I is k + 1 *)
  assert (Hfloor : Qfloor (current_time / inject_Z I) = k + 1).
  { symmetry. apply Z.le_antisymm.
    - assert (H1 : (inject_Z (k + 1) <= current_time / inject_Z I)%Q).
      { rewrite inject_Z_plus. change (inject_Z 1) with 1%Q.
        apply Qle_shift_div_l; [exact HI|].
        assert ((inject_Z k + 1) * inject_Z I == t + inject_Z I)%Q
          by (rewrite Hk; ring).
        lra. }
      apply Qfloor_resp_le in H1. rewrite Qfloor_Z in H1. exact H1.
    - assert (H1 : (current_time / inject_Z I < inject_Z (k + 2))%Q).
      { rewrite inject_Z_plus. change (inject_Z 2) with 2%Q.
        apply Qlt_shift_div_r; [exact HI|].
        assert ((inject_Z k + 2) * inject_Z I == t + 2 * inject_Z I)%Q
          by (rewrite Hk; ring).
        lra. }
      pose proof (Qfloor_le (current_time / inject_Z I)) as H2.
      assert (H3 : (inject_Z (Qfloor (current_time / inject_Z I)) < inject_Z (k + 2))%Q)
        by lra.
      rewrite <- Zlt_Qlt in H3. lia. }
  assert (Hc : (current_time - py_fmod current_time I - t == inject_Z I)%Q).
  { unfold py_fmod. rewrite Hfloor, inject_Z_plus. change (inject_Z 1) with 1%Q.
    rewrite Hk. ring. }
  set (close_time := (current_time - py_fmod current_time I)%Q) in *.
  exists close_time. split; [|exact Hc].
  assert (Hlt : Qlt_bool close_time t = false) by (apply Qlt_bool_false; lra).
  rewrite Hlt.
  rewrite (py_int_inject _ I ltac:(lia) Hc).
  replace (I =? 0) with false by (symmetry; apply Z.eqb_neq; lia).
  replace (I >? I) with false by (symmetry; rewrite Z.gtb_ltb; apply Z.ltb_ge; lia).
  reflexivity.
Qed.

Lemma truncate_last cfg d :
  (1 <= min_tick_length cfg)%nat ->
  length (close_values d) = length (close_times d) ->
  length (base_24hr_volumes d) = length (close_times d) ->
  last (close_times (_truncate_tick_data cfg d)) = last (close_times d) /\
  last (close_values (_truncate_tick_data cfg d)) = last (close_values d) /\
  last (base_24hr_volumes (_truncate_tick_data cfg d)) = last (base_24hr_volumes d).
Proof.
  intros Hmin Hlv Hlb. unfold _truncate_tick_data.
  destruct (_ >? 60) eqn:E; [|auto].
  apply Z.gtb_lt in E. cbn [set_ticks close_times close_values base_24hr_volumes].
  repeat split; apply last_drop; lia.
Qed.

(** X1 ([update_tick_data], [_get_tick_delta]).  An update that comes on
    time, in the interval after the next tick boundary, with both last
    values available, succeeds and appends exactly the tick of that
    boundary: the stored times stay dense, the new tick is the last of the
    three arrays and one tick is reported as updated. *)
Theorem update_tick_data_on_time (cfg : MarketConfig) (d : TickData)
    (current_time t close_value volume : Q) (k : Z) :
  0 < tick_interval_secs cfg ->
  0 <= tick_gap_max cfg ->
  (1 <= min_tick_length cfg)%nat ->
  last (close_times d) = Some t ->
  (t == inject_Z (k * tick_interval_secs cfg))%Q ->
  length (close_values d) = length (close_times d) ->
  length (base_24hr_volumes d) = length (close_times d) ->
  dense (tick_interval_secs cfg) (close_times d) = true ->
  (t + inject_Z (tick_interval_secs cfg) <= current_time)%Q ->
  (current_time < t + inject_Z (2 * tick_interval_secs cfg))%Q ->
  exists d' close_time,
    update_tick_data cfg d current_time (Some close_value, Some volume) = (d', true) /\
    (close_time - t == inject_Z (tick_interval_secs cfg))%Q /\
    last (close_times d') = Some close_time /\
    last (close_values d') = Some close_value /\
    last (base_24hr_volumes d') = Some volume /\
    dense (tick_interval_secs cfg) (close_times d') = true /\
    last_update_nums d' = 1.
Proof.
  intros Hi Hgap Hmin Ht Hk Hlv Hlb Hd Hlo Hhi.
  destruct (get_tick_delta_on_time cfg (set_last_update_nums d 0) current_time t k
              Hi Ht Hk Hlo Hhi) as (close_time & Hdelta & Hc).
  unfold update_tick_data. rewrite Hdelta.
  replace (0 >? tick_gap_max cfg) with false
    by (symmetry; rewrite Z.gtb_ltb; apply Z.ltb_ge; lia).
  cbn [fst snd]. unfold update_tick_data_try, _restore_ticks.
  cbn [Z.eqb set_last_update_nums close_times close_values base_24hr_volumes].
  set (d4 := set_last_update_nums _ (0 + 1)).
  exists (_backup_tick_data cfg (_truncate_tick_data cfg d4)), close_time.
  split; [reflexivity|]. split; [exact Hc|].
  destruct (truncate_last cfg d4 Hmin) as (Ht' & Hv' & Hb').
  { subst d4. cbn. rewrite !length_app. cbn. lia. }
  { subst d4. cbn. rewrite !length_app. cbn. lia. }
  split; [|split; [|split; [|split]]].
  - change (last (close_times (_truncate_tick_data cfg d4)) = Some close_time).
    rewrite Ht'. subst d4. cbn. apply last_snoc.
  - change (last (close_values (_truncate_tick_data cfg d4)) = Some close_value).
    rewrite Hv'. subst d4. cbn. apply last_snoc.
  - change (last (base_24hr_volumes (_truncate_tick_data cfg d4)) = Some volume).
    rewrite Hb'. subst d4. cbn. apply last_snoc.
  - change (dense (tick_interval_secs cfg)
              (close_times (_truncate_tick_data cfg d4)) = true).
    apply truncate_dense. subst d4. cbn.
    apply (dense_snoc _ _ t); [exact Hd|exact Ht|exact Hc].
  - unfold _truncate_tick_data. destruct (_ >? 60); reflexivity.
Qed.

Lemma update_tick_data_on_time_witness :
  exists d' close_time,
    update_tick_data market_config_60 two_ticks 125 (Some 16%Q, Some 5%Q) = (d', true) /\
    (close_time - 60 == 60)%Q /\
    last (close_times d') = Some close_time /\
    last (close_values d') = Some 16%Q /\
    last (base_24hr_volumes d') = Some 5%Q /\
    dense 60 (close_times d') = true /\
    last_update_nums d' = 1.
Proof.
  apply (update_tick_data_on_time market_config_60 two_ticks 125 60 16 5 1);
    try reflexivity; try (cbn; lia); try (vm_compute; discriminate).
Defined.

Lemma py_int_ge (x : Q) (n : Z) : 0 <= n -> (inject_Z n <= x)%Q -> n <= py_int x.
Proof.
  intros Hn Hx. unfold py_int.
  assert (H0 : (0 <= x)%Q).
  { assert (inject_Z 0 <= inject_Z n)%Q by (rewrite <- Zle_Qle; exact Hn).
    change (inject_Z 0) with 0%Q in *. lra. }
  apply Qle_bool_iff in H0. rewrite H0.
  apply Qfloor_resp_le in Hx. rewrite Qfloor_Z in Hx. exact Hx.
Qed.

(** X2 ([update_tick_data], [_handle_greylisted]).  An update that comes
    more than [tick_gap_max + 1] intervals after the last stored tick gives
    up on the pair: it returns [None] whatever the API has, leaves the tick
    arrays as they are, removes the pair from the pairs and greylists it
    until [pairs_greylist_secs] after the call, unless it is greylisted
    already, in which case the expiry is not extended.  Until the expiry
    [_handle_greylisted] reports the pair as greylisted and keeps the entry;
    from the expiry on it reports it as free and deletes the entry. *)
Theorem update_tick_data_greylists (cfg : MarketConfig) (d : TickData)
    (current_time t : Q) (last_values : option Q * option Q) :
  0 < tick_interval_secs cfg ->
  1 <= tick_gap_max cfg ->
  last (close_times d) = Some t ->
  (t + inject_Z ((tick_gap_max cfg + 2) * tick_interval_secs cfg) <= current_time)%Q ->
  exists d',
    update_tick_data cfg d current_time last_values = (d', false) /\
    close_times d' = close_times d /\
    close_values d' = close_values d /\
    base_24hr_volumes d' = base_24hr_volumes d /\
    in_pairs d' = false /\
    let expiry := default (current_time + pairs_greylist_secs cfg)%Q (greylist_pairs d) in
    greylist_pairs d' = Some expiry /\
    forall now,
      ((now < expiry)%Q -> _handle_greylisted d' now = (d', true)) /\
      ((expiry <= now)%Q ->
       snd (_handle_greylisted d' now) = false /\
       greylist_pairs (fst (_handle_greylisted d' now)) = None).
Proof.
  intros Hi Hgap Ht Hlate. unfold update_tick_data, _get_tick_delta.
  cbn [set_last_update_nums close_times]. rewrite (py_last_Some _ _ Ht).
  set (I := tick_interval_secs cfg) in *.
  set (close_time := (current_time - py_fmod current_time I)%Q).
  destruct (py_fmod_bounds current_time I Hi) as [_ Hmod].
  assert (HI : (0 < inject_Z I)%Q).
  { change 0%Q with (inject_Z 0). rewrite <- Zlt_Qlt. exact Hi. }
  assert (Hdiff : (inject_Z ((tick_gap_max cfg + 1) * I) <= close_time - t)%Q).
  { subst close_time. rewrite inject_Z_mult, inject_Z_plus in *.
    change (inject_Z 2) with 2%Q in Hlate. change (inject_Z 1) with 1%Q.
    assert ((inject_Z (tick_gap_max cfg) + 2) * inject_Z I
            == (inject_Z (tick_gap_max cfg) + 1) * inject_Z I + inject_Z I)%Q by ring.
    lra. }
  assert (Hpos : 0 <= (tick_gap_max cfg + 1) * I) by nia.
  pose proof (py_int_ge _ _ Hpos Hdiff) as Hdelta.
  assert (Hlt : Qlt_bool close_time t = false).
  { apply Qlt_bool_false.
    assert (inject_Z 0 <= inject_Z ((tick_gap_max cfg + 1) * I))%Q
      by (rewrite <- Zle_Qle; exact Hpos).
    change (inject_Z 0) with 0%Q in *. lra. }
  rewrite Hlt.
  set (delta := py_int (close_time - t)) in *.
  replace (delta =? 0) with false by (symmetry; apply Z.eqb_neq; nia).
  replace (delta >? I) with true by (symmetry; apply Z.gtb_lt; nia).
  assert (Hq : tick_gap_max cfg + 1 <= delta / I).
  { apply Z.div_le_lower_bound; [exact Hi|]. lia. }
  replace (delta / I >? tick_gap_max cfg) with true by (symmetry; apply Z.gtb_lt; lia).
  eexists. split; [reflexivity|]. cbn.
  repeat (split; [reflexivity|]).
  split.
  - destruct (greylist_pairs d); reflexivity.
  - intros now. unfold _handle_greylisted. cbn.
    set (expiry := default (current_time + pairs_greylist_secs cfg)%Q (greylist_pairs d)).
    replace (match greylist_pairs d with Some t0 => Some t0 | None => _ end)
      with (Some expiry) by (subst expiry; destruct (greylist_pairs d); reflexivity).
    split; intros Hnow.
    + apply Qle_bool_false in Hnow. rewrite Hnow. reflexivity.
    + apply Qle_bool_iff in Hnow. rewrite Hnow. split; reflexivity.
Qed.

Lemma update_tick_data_greylists_witness :
  exists d',
    update_tick_data market_config_60 two_ticks 3800 (Some 16%Q, Some 5%Q) = (d', false) /\
    in_pairs d' = false /\
    greylist_pairs d' = Some (3800 + 600)%Q /\
    _handle_greylisted d' 4399 = (d', true) /\
    snd (_handle_greylisted d' 4400) = false.
Proof.
  destruct (update_tick_data_greylists market_config_60 two_ticks 3800 60
              (Some 16%Q, Some 5%Q))
    as (d' & Hrun & _ & _ & _ & Hpairs & Hgrey & Hlater);
    try reflexivity; try (cbn; lia); try (vm_compute; discriminate).
  exists d'. split; [exact Hrun|]. split; [exact Hpairs|]. split; [exact Hgrey|].
  split.
  - apply Hlater. vm_compute. reflexivity.
  - apply Hlater. vm_compute. discriminate.
Defined.

(** X3 ([update_tick_data]).  When the API has the price but not the
    volume, an update on time returns [None] and reports no updated tick,
    yet the time and the value of the new tick have been appended before the
    volume was found missing: the times and values are one longer than the
    volumes from then on. *)
Theorem update_tick_data_without_volume (cfg : MarketConfig) (d : TickData)
    (current_time t close_value : Q) (k : Z) :
  0 < tick_interval_secs cfg ->
  0 <= tick_gap_max cfg ->
  last (close_times d) = Some t ->
  (t == inject_Z (k * tick_interval_secs cfg))%Q ->
  length (close_values d) = length (close_times d) ->
  length (base_24hr_volumes d) = length (close_times d) ->
  (t + inject_Z (tick_interval_secs cfg) <= current_time)%Q ->
  (current_time < t + inject_Z (2 * tick_interval_secs cfg))%Q ->
  exists d' close_time,
    update_tick_data cfg d current_time (Some close_value, None) = (d', false) /\
    close_times d' = close_times d ++ [close_time] /\
    close_values d' = close_values d ++ [close_value] /\
    base_24hr_volumes d' = base_24hr_volumes d /\
    last_update_nums d' = 0 /\
    length (close_times d') = S (length (base_24hr_volumes d')) /\
    length (close_values d') = S (length (base_24hr_volumes d')).
Proof.
  intros Hi Hgap Ht Hk Hlv Hlb Hlo Hhi.
  destruct (get_tick_delta_on_time cfg (set_last_update_nums d 0) current_time t k
              Hi Ht Hk Hlo Hhi) as (close_time & Hdelta & Hc).
  unfold update_tick_data. rewrite Hdelta.
  replace (0 >? tick_gap_max cfg) with false
    by (symmetry; rewrite Z.gtb_ltb; apply Z.ltb_ge; lia).
  cbn [fst snd]. unfold update_tick_data_try, _restore_ticks.
  cbn [Z.eqb set_last_update_nums close_times close_values base_24hr_volumes].
  eexists _, close_time. split; [reflexivity|]. cbn.
  repeat (split; [reflexivity|]). rewrite !length_app. cbn. lia.
Qed.

Lemma update_tick_data_without_volume_witness :
  exists d' close_time,
    update_tick_data market_config_60 two_ticks 125 (Some 16%Q, None) = (d', false) /\
    close_times d' = [0; 60]%Q ++ [close_time] /\
    close_values d' = [10; 10; 16]%Q /\
    base_24hr_volumes d' = [5; 5]%Q.
Proof.
  destruct (update_tick_data_without_volume market_config_60 two_ticks 125 60 16 1)
    as (d' & close_time & Hrun & Ht & Hv & Hb & _);
    try reflexivity; try (cbn; lia); try (vm_compute; discriminate).
  exists d', close_time. auto.
Defined.

Lemma truncate_length cfg d :
  (length (close_times (_truncate_tick_data cfg d)) <= min_tick_length cfg + 60)%nat.
Proof.
  unfold _truncate_tick_data. destruct (_ >? 60) eqn:E.
  - apply Z.gtb_lt in E. cbn [set_ticks close_times]. rewrite length_drop. lia.
  - rewrite Z.gtb_ltb in E. apply Z.ltb_ge in E. lia.
Qed.

Lemma update_tick_data_try_ret cfg d close_time tick_gap close_value volume d' :
  update_tick_data_try cfg d close_time tick_gap close_value volume = (d', Ret tt) ->
  exists d4, d' = _backup_tick_data cfg (_truncate_tick_data cfg d4) /\
             last_update_nums d4 = tick_gap + 1.
Proof.
  unfold update_tick_data_try.
  destruct (_restore_ticks _ _ _ _ _) as [d1 [interpolated|e]]; [|discriminate].
  destruct (if interpolated =? 0 then _ else _) as [d2 [[]|e]]; [|discriminate].
  destruct volume as [volume|]; [|discriminate].
  intros H. injection H as <-. eexists. split; reflexivity.
Qed.

(** X4 ([update_tick_data], [_truncate_tick_data], [_backup_tick_data]).
    Whatever the store and the inputs, after an update that returned the
    pair the stored times number at most [min_tick_length + 60], the backup
    holds the last [min_tick_length] ticks of each of the three arrays as
    they are stored, and the number of ticks reported as updated is the gap
    of the update plus one. *)
Theorem update_tick_data_bounded (cfg : MarketConfig) (d d' : TickData)
    (current_time : Q) (last_values : option Q * option Q) :
  update_tick_data cfg d current_time last_values = (d', true) ->
  (length (close_times d') <= min_tick_length cfg + 60)%nat /\
  close_times_backup d' = Some (py_suffix (min_tick_length cfg) (close_times d')) /\
  close_values_backup d' = Some (py_suffix (min_tick_length cfg) (close_values d')) /\
  base_24hr_volumes_backup d' =
    Some (py_suffix (min_tick_length cfg) (base_24hr_volumes d')) /\
  exists close_time tick_gap,
    _get_tick_delta cfg d current_time = Some (close_time, tick_gap) /\
    last_update_nums d' = tick_gap + 1.
Proof.
  unfold update_tick_data.
  change (_get_tick_delta cfg (set_last_update_nums d 0) current_time)
    with (_get_tick_delta cfg d current_time).
  destruct (_get_tick_delta cfg d current_time) as [[close_time tick_gap]|];
    [|discriminate].
  destruct (tick_gap >? tick_gap_max cfg); [discriminate|].
  destruct (fst last_values) as [close_value|]; [|discriminate].
  destruct (update_tick_data_try _ _ _ _ _ _) as [d'' [[]|e]] eqn:Htry; [|discriminate].
  intros H. injection H as <-.
  apply update_tick_data_try_ret in Htry as (d4 & -> & Hnum).
  split; [apply truncate_length|].
  repeat (split; [reflexivity|]).
  exists close_time, tick_gap. split; [reflexivity|].
  cbn. unfold _truncate_tick_data. destruct (_ >? 60); exact Hnum.
Qed.

Lemma update_tick_data_bounded_witness :
  exists d',
    update_tick_data market_config_60 two_ticks 125 (Some 16%Q, Some 5%Q) = (d', true) /\
    (length (close_times d') <= 160)%nat /\
    close_values_backup d' = Some (py_suffix 100 (close_values d')).
Proof.
  eexists. split; [reflexivity|].
  destruct (update_tick_data_bounded market_config_60 two_ticks _ 125
              (Some 16%Q, Some 5%Q) eq_refl) as (Hlen & _ & Hv & _).
  split; [exact Hlen|exact Hv].
Defined.

Lemma dense_adjacent (interval : Z) (l : list Q) (j : nat) (a b : Q) :
  dense interval l = true -> l !! j = Some a -> l !! S j = Some b ->
  (b - a == inject_Z interval)%Q.
Proof.
  revert j. induction l as [|x l IH]; intros j Hd Ha Hb; [discriminate|].
  destruct j as [|j].
  - destruct l as [|y l]; [discriminate|]. cbn in Ha, Hb.
    injection Ha as ->. injection Hb as ->.
    cbn [dense] in Hd. apply andb_true_iff in Hd as [Hd _].
    apply Qeq_bool_iff. exact Hd.
  - apply (IH j); [exact (dense_tail _ _ _ Hd)|exact Ha|exact Hb].
Qed.

Lemma dense_lookup (interval : Z) (l : list Q) (m j : nat) (a b : Q) :
  dense interval l = true -> l !! j = Some a -> l !! (j + m)%nat = Some b ->
  (b == a + inject_Z (Z.of_nat m) * inject_Z interval)%Q.
Proof.
  intros Hd. revert b. induction m as [|m IH]; intros b Ha Hb.
  - rewrite Nat.add_0_r in Hb. rewrite Ha in Hb. injection Hb as ->.
    cbn. ring.
  - destruct (l !! (j + m)%nat) as [c|] eqn:Hc.
    + specialize (IH c Ha eq_refl).
      replace (j + S m)%nat with (S (j + m)) in Hb by lia.
      pose proof (dense_adjacent _ _ _ _ _ Hd Hc Hb) as Hstep.
      rewrite Nat2Z.inj_succ. unfold Z.succ. rewrite inject_Z_plus.
      change (inject_Z 1) with 1%Q. rewrite IH in Hstep.
      assert (b == a + inject_Z (Z.of_nat m) * inject_Z interval + inject_Z interval)%Q
        by lra.
      rewrite H. ring.
    + apply lookup_ge_None in Hc. apply lookup_lt_Some in Hb. lia.
Qed.

Lemma py_index_found (x : Q) (l : list Q) (i : nat) (y : Q) :
  l !! i = Some y -> (y == x)%Q ->
  (forall j z, (j < i)%nat -> l !! j = Some z -> ~ (z == x)%Q) ->
  py_index x l = Ret i.
Proof.
  revert i. induction l as [|a l IH]; intros i Hi Hy Hbefore; [discriminate|].
  cbn [py_index]. destruct i as [|i].
  - cbn in Hi. injection Hi as ->. apply Qeq_bool_iff in Hy. rewrite Hy. reflexivity.
  - destruct (Qeq_bool a x) eqn:E.
    + apply Qeq_bool_iff in E. exfalso. apply (Hbefore 0%nat a); [lia|reflexivity|exact E].
    + rewrite (IH i); [reflexivity|exact Hi|exact Hy|].
      intros j z Hj Hz. apply (Hbefore (S j) z); [lia|exact Hz].
Qed.

(** In a dense array of a positive interval a time is found at the index
    where it is stored. *)
Lemma py_index_dense (interval : Z) (l : list Q) (i : nat) (x y : Q) :
  0 < interval -> dense interval l = true -> l !! i = Some y -> (y == x)%Q ->
  py_index x l = Ret i.
Proof.
  intros Hi Hd Hl Hy. apply (py_index_found x l i y Hl Hy).
  intros j z Hj Hz Hzx.
  replace i with (j + (i - j))%nat in Hl by lia.
  pose proof (dense_lookup _ _ _ _ _ _ Hd Hz Hl) as Hdiff.
  assert (Hm : (0 < inject_Z (Z.of_nat (i - j)) * inject_Z interval)%Q).
  { rewrite <- inject_Z_mult. change 0%Q with (inject_Z 0). rewrite <- Zlt_Qlt. nia. }
  rewrite Hy, <- Hzx in Hdiff. lra.
Qed.

Lemma restore_loop_from_backup cfg num end_value end_volume last_volume last_value
    (bt bv bvol : list Q) todo :
  0 < tick_interval_secs cfg ->
  length bv = length bt -> length bvol = length bt ->
  dense (tick_interval_secs cfg) bt = true ->
  forall index interpolated d t i t',
    close_times_backup d = Some bt ->
    close_values_backup d = Some bv ->
    base_24hr_volumes_backup d = Some bvol ->
    last (close_times d) = Some t ->
    bt !! i = Some t' -> (t' == t)%Q ->
    (i + todo < length bt)%nat ->
    exists d',
      restore_loop cfg num end_value end_volume last_volume last_value
        todo index interpolated d = (d', Ret interpolated) /\
      close_values d' = close_values d ++ take todo (drop (S i) bv) /\
      base_24hr_volumes d' = base_24hr_volumes d ++ take todo (drop (S i) bvol) /\
      length (close_times d') = (length (close_times d) + todo)%nat /\
      (dense (tick_interval_secs cfg) (close_times d) = true ->
       dense (tick_interval_secs cfg) (close_times d') = true).
Proof.
  intros Hi Hlv Hlb Hd.
  induction todo as [|todo IH]; intros index interpolated d t i t' Hbt Hbv Hbvol Ht Hti Htt Hlen.
  - exists d. cbn [restore_loop take]. rewrite !app_nil_r, Nat.add_0_r. auto.
  - cbn [restore_loop]. rewrite (py_last_Some _ _ Ht).
    set (timestamp := (t + inject_Z (tick_interval_secs cfg))%Q).
    destruct (bt !! S i) as [t1|] eqn:Ht1; [|apply lookup_ge_None in Ht1; lia].
    destruct (bv !! S i) as [v1|] eqn:Hv1; [|apply lookup_ge_None in Hv1; lia].
    destruct (bvol !! S i) as [b1|] eqn:Hb1; [|apply lookup_ge_None in Hb1; lia].
    assert (Ht1' : (t1 == timestamp)%Q).
    { pose proof (dense_adjacent _ _ _ _ _ Hd Hti Ht1). subst timestamp. lra. }
    assert (Hback : backup_tick d timestamp = Ret (b1, v1)).
    { unfold backup_tick. rewrite Hbt, Hbv, Hbvol. cbn [py_key rbind].
      rewrite (py_index_dense _ _ _ _ _ Hi Hd Ht1 Ht1'). cbn [rbind].
      unfold py_get. rewrite Hb1, Hv1. reflexivity. }
    rewrite Hback.
    set (d1 := set_ticks d _ _ _).
    destruct (IH (index + 1) interpolated d1 timestamp (S i) t1) as
      (d' & Hrun & Hvals & Hvols & Hlen' & Hdense); try assumption.
    + subst d1. cbn. apply last_snoc.
    + lia.
    + exists d'. split; [exact Hrun|].
      subst d1. cbn [set_ticks close_times close_values base_24hr_volumes] in *.
      rewrite Hvals, Hvols, Hlen'.
      rewrite (drop_S bv _ _ Hv1), (drop_S bvol _ _ Hb1). cbn [take].
      rewrite <- !app_assoc. cbn [app]. rewrite length_app. cbn [length].
      repeat split; try lia.
      intros Hdd. apply Hdense. apply (dense_snoc _ _ t); [exact Hdd|exact Ht|].
      subst timestamp. ring.
Qed.

(** X5 ([_restore_ticks], [backup_tick]).  When the backup, a dense array
    of times with its values and volumes, holds the last stored tick and the
    [n] ticks after it, restoring [n] ticks takes every one of them from the
    backup: the values and volumes appended are those of the backup in its
    order, none is interpolated (the end value and volume are not used), and
    stored times that were dense stay dense. *)
Theorem restore_ticks_from_backup (cfg : MarketConfig) (d : TickData) (n : nat)
    (end_value : Q) (end_volume : option Q) (bt bv bvol : list Q) (t t' : Q) (i : nat) :
  0 < tick_interval_secs cfg ->
  close_times_backup d = Some bt ->
  close_values_backup d = Some bv ->
  base_24hr_volumes_backup d = Some bvol ->
  length bv = length bt -> length bvol = length bt ->
  dense (tick_interval_secs cfg) bt = true ->
  last (close_times d) = Some t ->
  close_values d <> [] -> base_24hr_volumes d <> [] ->
  bt !! i = Some t' -> (t' == t)%Q ->
  (i + n < length bt)%nat ->
  exists d',
    _restore_ticks cfg d (Z.of_nat n) end_value end_volume = (d', Ret 0) /\
    close_values d' = close_values d ++ take n (drop (S i) bv) /\
    base_24hr_volumes d' = base_24hr_volumes d ++ take n (drop (S i) bvol) /\
    length (close_times d') = (length (close_times d) + n)%nat /\
    (dense (tick_interval_secs cfg) (close_times d) = true ->
     dense (tick_interval_secs cfg) (close_times d') = true).
Proof.
  intros Hi Hbt Hbv Hbvol Hlv Hlb Hd Ht Hvals Hvols Hti Htt Hlen.
  unfold _restore_ticks. destruct (Z.of_nat n =? 0) eqn:E.
  - apply Z.eqb_eq in E. assert (n = 0)%nat as -> by lia.
    exists d. cbn [take]. rewrite !app_nil_r, Nat.add_0_r. auto.
  - destruct (last_nonempty _ Hvols) as [last_volume Hlvol].
    destruct (last_nonempty _ Hvals) as [last_value Hlval].
    rewrite (py_last_Some _ _ Hlvol), (py_last_Some _ _ Hlval), Nat2Z.id.
    apply (restore_loop_from_backup cfg _ _ _ _ _ bt bv bvol n Hi Hlv Hlb Hd
             0 0 d t i t'); assumption.
Qed.

Lemma restore_ticks_from_backup_witness :
  exists d',
    _restore_ticks market_config_60 two_ticks_with_backup 2 16 None = (d', Ret 0) /\
    close_values d' = [10; 10; 12; 14]%Q /\
    base_24hr_volumes d' = [5; 5; 6; 7]%Q /\
    dense 60 (close_times d') = true.
Proof.
  destruct (restore_ticks_from_backup market_config_60 two_ticks_with_backup 2 16 None
              [0; 60; 120; 180]%Q [10; 10; 12; 14]%Q [5; 5; 6; 7]%Q 60 60 1)
    as (d' & Hrun & Hv & Hb & _ & Hd);
    try reflexivity; try discriminate; try (cbn; lia).
  exists d'. split; [exact Hrun|]. split; [exact Hv|]. split; [exact Hb|].
  apply Hd. reflexivity.
Defined.

(** ** The back-refresh of restored ticks *)

Lemma restore_loop_times cfg num end_value end_volume last_volume last_value todo :
  forall index interpolated d d' n t,
    restore_loop cfg num end_value end_volume last_volume last_value
      todo index interpolated d = (d', Ret n) ->
    last (close_times d) = Some t ->
    back_refreshes d' = back_refreshes d /\
    exists added,
      close_times d' = close_times d ++ added /\
      length added = todo /\
      forall j x, added !! j = Some x ->
        (x == t + inject_Z (Z.of_nat j + 1) * inject_Z (tick_interval_secs cfg))%Q.
Proof.
  induction todo as [|todo IH]; intros index interpolated d d' n t H Hlast;
    cbn [restore_loop] in H.
  - injection H as <- _. split; [reflexivity|]. exists [].
    rewrite app_nil_r. repeat split. intros j x Hx. discriminate.
  - rewrite (py_last_Some _ _ Hlast) in H.
    set (timestamp := (t + inject_Z (tick_interval_secs cfg))%Q) in *.
    match type of H with
    | match ?tick with _ => _ end = _ => destruct tick as [[[volume value] interp]|e]
    end; [|discriminate].
    apply IH with (t := timestamp) in H; [|cbn; apply last_snoc].
    destruct H as (Hbr & added & Htimes & Hlen & Hadded).
    cbn [set_ticks back_refreshes close_times] in Hbr, Htimes.
    split; [exact Hbr|]. exists (timestamp :: added).
    split; [rewrite Htimes, <- app_assoc; reflexivity|]. split; [cbn; lia|].
    intros j x Hx. destruct j as [|j].
    + cbn in Hx. injection Hx as <-. subst timestamp.
      change (inject_Z (Z.of_nat 0 + 1)) with 1%Q. ring.
    + cbn in Hx. pose proof (Hadded j x Hx) as H1. cbn beta in H1. rewrite H1.
      subst timestamp.
      rewrite Nat2Z.inj_succ. unfold Z.succ. rewrite !inject_Z_plus. ring.
Qed.

(** X6 ([_schedule_back_refresh], [_restore_ticks]).  After [k] ticks
    have been restored behind a last stored time [t], the back-refresh that is
    scheduled for them covers exactly these ticks: it starts at the first
    restored time, [t] plus one interval, and ends, exclusively, one interval
    after the last restored time.  Scheduling leaves the tick arrays as they
    are. *)
Theorem back_refresh_covers_restored (cfg : MarketConfig) (d d1 : TickData) (k : Z)
    (end_value : Q) (end_volume : option Q) (interpolated : Z) (t : Q) :
  0 < k ->
  last (close_times d) = Some t ->
  _restore_ticks cfg d k end_value end_volume = (d1, Ret interpolated) ->
  exists d2 r,
    _schedule_back_refresh cfg d1 k = (d2, Ret tt) /\
    back_refreshes d2 = back_refreshes d ++ [r] /\
    (br_start r == t + inject_Z (tick_interval_secs cfg))%Q /\
    (br_end r == t + inject_Z (k + 1) * inject_Z (tick_interval_secs cfg))%Q /\
    close_times d2 = close_times d1 /\
    close_values d2 = close_values d1 /\
    base_24hr_volumes d2 = base_24hr_volumes d1 /\
    length (close_times d1) = (length (close_times d) + Z.to_nat k)%nat.
Proof.
  intros Hk Hlast H. unfold _restore_ticks in H.
  replace (k =? 0) with false in H by (symmetry; apply Z.eqb_neq; lia).
  destruct (py_last (base_24hr_volumes d)) as [last_volume|]; [|discriminate].
  destruct (py_last (close_values d)) as [last_value|]; [|discriminate].
  apply restore_loop_times with (t := t) in H; [|exact Hlast].
  destruct H as (Hbr & added & Htimes & Hlen & Hadded).
  unfold _schedule_back_refresh.
  replace (k >? 0) with true by (symmetry; apply Z.gtb_lt; lia).
  assert (Hn : Z.to_nat k = S (Z.to_nat k - 1)) by lia.
  (* the first and the last restored time *)
  destruct (added !! 0%nat) as [first|] eqn:Hfirst;
    [|apply lookup_ge_None in Hfirst; lia].
  destruct (added !! (Z.to_nat k - 1)%nat) as [final|] eqn:Hfinal;
    [|apply lookup_ge_None in Hfinal; lia].
  assert (Hstart : py_from_end (close_times d1) (Z.to_nat k) = Ret first).
  { unfold py_from_end. rewrite Hn, <- Hn.
    rewrite Htimes, length_app, Hlen.
    replace (_ <? _)%nat with false by (symmetry; apply Nat.ltb_ge; lia).
    replace (length (close_times d) + Z.to_nat k - Z.to_nat k)%nat
      with (length (close_times d) + 0)%nat by lia.
    rewrite lookup_app_r by lia.
    replace (length (close_times d) + 0 - length (close_times d))%nat with 0%nat by lia.
    rewrite Hfirst. reflexivity. }
  assert (Hend : py_last (close_times d1) = Ret final).
  { apply py_last_Some. rewrite Htimes, last_lookup, length_app, Hlen.
    rewrite lookup_app_r by lia. rewrite <- Hfinal. f_equal. lia. }
  rewrite Hstart, Hend. eexists _, _. split; [reflexivity|].
  cbn [back_refreshes close_times close_values base_24hr_volumes br_start br_end].
  rewrite Hbr. split; [reflexivity|]. split.
  - pose proof (Hadded _ _ Hfirst) as H1. cbn beta in H1. cbn [br_start]. rewrite H1.
    change (inject_Z (Z.of_nat 0 + 1)) with 1%Q. ring.
  - split.
    + pose proof (Hadded _ _ Hfinal) as H1. cbn beta in H1. cbn [br_end]. rewrite H1.
      replace (Z.of_nat (Z.to_nat k - 1) + 1) with k by lia.
      rewrite inject_Z_plus. ring.
    + repeat split. rewrite Htimes, length_app, Hlen. reflexivity.
Qed.

Lemma back_refresh_covers_restored_witness :
  exists d1 d2 r,
    _restore_ticks market_config_60 two_ticks 2 16 (Some 5%Q) = (d1, Ret 2) /\
    _schedule_back_refresh market_config_60 d1 2 = (d2, Ret tt) /\
    back_refreshes d2 = [r] /\
    (br_start r == 120)%Q /\ (br_end r == 240)%Q.
Proof.
  eexists. 
  destruct (back_refresh_covers_restored market_config_60 two_ticks _ 2 16 (Some 5%Q)
              2 60 ltac:(lia) eq_refl eq_refl)
    as (d2 & r & Hrun & Hbr & Hs & He & _).
  exists d2, r. split; [reflexivity|]. split; [exact Hrun|]. split; [exact Hbr|].
  split; [rewrite Hs; reflexivity|rewrite He; reflexivity].
Defined.

(** ** The pair change filter: the stored delta *)

(** X7 ([apply_pair_change_filter]).  With the dip filter enabled and
    thresholds ordered as [-dip <= -cutoff < min], every call leaves for the
    pair a record whose accumulated delta lies between [-pair_change_dip] and
    [pair_change_min], whatever the change and the record it found: a
    filtered pair has its delta below [pair_change_min], a pair that is not
    filtered has it above [-pair_change_cutoff].  The records of the other
    pairs are not touched. *)
Theorem pair_change_filter_delta_bounded (cfg : PairChangeConfig)
    (last_pairs : gmap string LastPair) (pair : string) (change value : Q) :
  pair_change_filter cfg = true ->
  pair_dip_filter cfg = true ->
  (pair_change_cutoff cfg <= pair_change_dip cfg)%Q ->
  (- pair_change_cutoff cfg < pair_change_min cfg)%Q ->
  let r := apply_pair_change_filter cfg last_pairs pair change value in
  (exists lp,
     fst r !! pair = Some lp /\
     lp_value lp = value /\ lp_change lp = change /\
     (- pair_change_dip cfg <= lp_delta lp)%Q /\
     (lp_delta lp <= pair_change_min cfg)%Q /\
     (snd r = true -> (lp_delta lp < pair_change_min cfg)%Q) /\
     (snd r = false -> (- pair_change_cutoff cfg < lp_delta lp)%Q)) /\
  forall other, other <> pair -> fst r !! other = last_pairs !! other.
Proof.
  intros Hf Hd Hcut Hmin r. subst r.
  unfold apply_pair_change_filter. rewrite Hf, Hd. cbn [negb].
  destruct (last_pairs !! pair) as [last|] eqn:Hl;
    [destruct (lp_filtered last)|];
    repeat qcase; cbn [fst snd];
    (split;
     [rewrite lookup_insert_eq; eexists; split; [reflexivity|];
      cbn [lp_value lp_change lp_delta];
      repeat split; intros; try discriminate; lra
     |intros other Ho; apply lookup_insert_ne; congruence]).
Qed.

Lemma pair_change_filter_delta_bounded_witness :
  let r := apply_pair_change_filter default_cutoff_config ∅ "BTC-ETH" (- (5 # 100)) 1 in
  (exists lp,
     fst r !! "BTC-ETH" = Some lp /\
     lp_value lp = 1%Q /\ lp_change lp = (- (5 # 100))%Q /\
     (- (2 # 100) <= lp_delta lp)%Q /\
     (lp_delta lp <= 1 # 100)%Q /\
     (snd r = true -> (lp_delta lp < 1 # 100)%Q) /\
     (snd r = false -> (- (125 # 10000) < lp_delta lp)%Q)) /\
  forall other, other <> "BTC-ETH" -> fst r !! other = (∅ : gmap string LastPair) !! other.
Proof.
  apply (pair_change_filter_delta_bounded default_cutoff_config ∅ "BTC-ETH"
           (- (5 # 100)) 1); try reflexivity; vm_compute; discriminate.
Defined.

(** ** Raw ticks: expansion and overwriting *)

Lemma Qfloor_unique (x : Q) (n : Z) :
  (inject_Z n <= x)%Q -> (x < inject_Z (n + 1))%Q -> Qfloor x = n.
Proof.
  intros Hlo Hhi. apply Z.le_antisymm.
  - pose proof (Qfloor_le x) as H.
    assert (H1 : (inject_Z (Qfloor x) < inject_Z (n + 1))%Q) by lra.
    rewrite <- Zlt_Qlt in H1. lia.
  - apply Qfloor_resp_le in Hlo. rewrite Qfloor_Z in Hlo. exact Hlo.
Qed.

Lemma py_int_nonneg (x : Q) : (0 <= x)%Q -> py_int x = Qfloor x.
Proof. intros H. unfold py_int. apply Qle_bool_iff in H. rewrite H. reflexivity. Qed.

Lemma py_int_pos (x : Q) : 0 < py_int x -> (0 <= x)%Q.
Proof.
  unfold py_int. destruct (Qle_bool 0 x) eqn:E; [intros _; apply Qle_bool_iff; exact E|].
  apply Qle_bool_false in E. intros H.
  assert (Hc : (inject_Z (Qceiling x) <= 0)%Q).
  { unfold Qceiling. rewrite inject_Z_opp.
    assert (H0 : (inject_Z 0 <= - x)%Q) by (change (inject_Z 0) with 0%Q; lra).
    apply Qfloor_resp_le in H0. rewrite Qfloor_Z in H0.
    assert (inject_Z 0 <= inject_Z (Qfloor (- x)))%Q by (rewrite <- Zle_Qle; exact H0).
    change (inject_Z 0) with 0%Q in *. lra. }
  change 0%Q with (inject_Z 0) in Hc. rewrite <- Zle_Qle in Hc. lia.
Qed.

(** One more interval stored takes one interval off the distance the loop
    tests. *)
Lemma py_int_step (x : Q) (interval : Z) :
  0 < interval -> interval < py_int x ->
  py_int (x - inject_Z interval) = py_int x - interval.
Proof.
  intros Hi Hx. assert (H0 : (0 <= x)%Q) by (apply py_int_pos; lia).
  rewrite (py_int_nonneg x H0) in *.
  pose proof (Qfloor_le x) as Hlo. pose proof (Qlt_floor x) as Hhi.
  assert (Hge : (inject_Z interval <= inject_Z (Qfloor x))%Q)
    by (rewrite <- Zle_Qle; lia).
  rewrite py_int_nonneg by lra.
  apply Qfloor_unique.
  - unfold Z.sub. rewrite inject_Z_plus, inject_Z_opp. lra.
  - replace (Qfloor x - interval + 1) with (Qfloor x + 1 + - interval) by lia.
    rewrite inject_Z_plus, inject_Z_opp. lra.
Qed.

Lemma py_int_comp (x y : Q) : (x == y)%Q -> py_int x = py_int y.
Proof.
  intros H. unfold py_int, Qceiling.
  assert (H' : (- x == - y)%Q) by (rewrite H; reflexivity).
  rewrite (Qfloor_comp _ _ H), (Qfloor_comp _ _ H').
  replace (Qle_bool 0 x) with (Qle_bool 0 y); [reflexivity|].
  destruct (Qle_bool 0 x) eqn:E.
  - apply Qle_bool_iff. apply Qle_bool_iff in E. lra.
  - apply Qle_bool_false. apply Qle_bool_false in E. lra.
Qed.

Lemma expand_gap_total (interval : Z) (close_time last_value : Q) :
  0 < interval ->
  forall fuel last_time times values,
    py_int (close_time - last_time) <= Z.of_nat fuel ->
    exists added,
      expand_gap fuel interval close_time last_time last_value times values
      = Some (times ++ added, values ++ replicate (length added) last_value).
Proof.
  intros Hi. induction fuel as [|fuel IH]; intros last_time times values Hfuel;
    cbn [expand_gap].
  - replace (_ >? interval) with false
      by (symmetry; rewrite Z.gtb_ltb; apply Z.ltb_ge; lia).
    exists []. cbn. rewrite !app_nil_r. reflexivity.
  - destruct (_ >? interval) eqn:E.
    + apply Z.gtb_lt in E.
      destruct (IH (last_time + inject_Z interval)%Q
                  (times ++ [(last_time + inject_Z interval)%Q])
                  (values ++ [last_value])) as [added Hadded].
      { rewrite (py_int_comp _ (close_time - last_time - inject_Z interval))
          by ring.
        rewrite (py_int_step _ _ Hi E). lia. }
      exists ((last_time + inject_Z interval)%Q :: added).
      rewrite Hadded, <- !app_assoc. reflexivity.
    + exists []. cbn. rewrite !app_nil_r. reflexivity.
Qed.

Lemma expand_loop_total (interval : Z) :
  0 < interval ->
  forall ticks last_time last_value times values,
    exists added_times added_values,
      expand_loop interval ticks last_time last_value times values
      = Some (times ++ added_times, values ++ added_values) /\
      length added_times = length added_values /\
      (length ticks <= length added_times)%nat /\
      Forall (fun tick => (tick_T tick, tick_C tick) ∈ zip added_times added_values)
             ticks /\
      Forall (fun v => v = last_value \/ exists tick, tick ∈ ticks /\ tick_C tick = v)
             added_values.
Proof.
  intros Hi. induction ticks as [|tick ticks IH];
    intros last_time last_value times values; cbn [expand_loop].
  - exists [], []. rewrite !app_nil_r. repeat split; constructor.
  - destruct (expand_gap_total interval (tick_T tick) last_value Hi
                (Z.to_nat (py_int (tick_T tick - last_time))) last_time times values)
      as [gap Hgap]; [lia|].
    rewrite Hgap.
    destruct (IH (tick_T tick) (tick_C tick) ((times ++ gap) ++ [tick_T tick])
                ((values ++ replicate (length gap) last_value) ++ [tick_C tick]))
      as (at2 & av2 & Hrun & Hlen & Hticks & Hin & Hvals).
    exists (gap ++ tick_T tick :: at2),
           (replicate (length gap) last_value ++ tick_C tick :: av2).
    split; [rewrite Hrun, <- !app_assoc; reflexivity|].
    assert (Hzip : zip (gap ++ tick_T tick :: at2)
                       (replicate (length gap) last_value ++ tick_C tick :: av2)
                   = zip gap (replicate (length gap) last_value)
                     ++ (tick_T tick, tick_C tick) :: zip at2 av2).
    { rewrite zip_with_app by (rewrite length_replicate; reflexivity). reflexivity. }
    split; [rewrite !length_app, length_replicate; cbn [length]; lia|].
    split; [rewrite length_app; cbn [length]; lia|].
    split.
    + rewrite Hzip. constructor.
      * apply elem_of_app. right. left.
      * eapply Forall_impl; [exact Hin|]. intros t Ht. cbn beta in *.
        apply elem_of_app. right. right. exact Ht.
    + apply Forall_app. split.
      * apply Forall_forall. intros v Hv. apply elem_of_replicate in Hv as [-> _].
        left. reflexivity.
      * constructor.
        -- right. exists tick. split; [left|reflexivity].
        -- eapply Forall_impl; [exact Hvals|]. intros v [->|(t & Ht & <-)]; right.
           ++ exists tick. split; [left|reflexivity].
           ++ exists t. split; [right; exact Ht|reflexivity].
Qed.

(** X8 ([_expand_ticks]).  With a positive tick interval the expansion of a
    non-empty list of raw ticks returns, whatever their times: the two
    arrays have equal lengths, every raw tick is in them with its time beside
    its value, and every value stored is the closing value of a raw tick, so
    the ticks that fill a gap only repeat values. *)
Theorem expand_ticks_total (cfg : MarketConfig) (ticks : list RawTick) :
  0 < tick_interval_secs cfg ->
  ticks <> [] ->
  exists times values,
    _expand_ticks cfg ticks = Ret (Some (times, values)) /\
    length times = length values /\
    (length ticks <= length times)%nat /\
    Forall (fun tick => (tick_T tick, tick_C tick) ∈ zip times values) ticks /\
    Forall (fun v => exists tick, tick ∈ ticks /\ tick_C tick = v) values.
Proof.
  intros Hi Hne. destruct ticks as [|tick ticks]; [contradiction|].
  unfold _expand_ticks.
  destruct (expand_loop_total _ Hi ticks (tick_T tick) (tick_C tick)
              [tick_T tick] [tick_C tick])
    as (added_times & added_values & Hrun & Hlen & Hticks & Hin & Hvals).
  rewrite Hrun. eexists _, _. split; [reflexivity|].
  cbn [app length zip zip_with]. split; [lia|]. split; [lia|]. split.
  - constructor; [left|].
    eapply Forall_impl; [exact Hin|]. intros t Ht. right. exact Ht.
  - constructor.
    + exists tick. split; [left|reflexivity].
    + eapply Forall_impl; [exact Hvals|]. intros v [->|(t & Ht & <-)].
      * exists tick. split; [left|reflexivity].
      * exists t. split; [right; exact Ht|reflexivity].
Qed.

Lemma expand_ticks_total_witness :
  exists times values,
    _expand_ticks market_config_60 sparse_ticks = Ret (Some (times, values)) /\
    length times = length values /\
    (3 <= length times)%nat.
Proof.
  destruct (expand_ticks_total market_config_60 sparse_ticks)
    as (times & values & Hrun & Hlen & Hticks & _);
    [reflexivity|discriminate|].
  exists times, values. auto.
Defined.

Lemma expand_gap_aligned (interval : Z) (close_time last_value : Q) :
  0 < interval ->
  forall fuel k last_time times values,
    1 <= k ->
    (close_time == last_time + inject_Z (k * interval))%Q ->
    k - 1 <= Z.of_nat fuel ->
    last times = Some last_time ->
    dense interval times = true ->
    exists added values' last_time',
      expand_gap fuel interval close_time last_time last_value times values
      = Some (times ++ added, values') /\
      last (times ++ added) = Some last_time' /\
      (close_time - last_time' == inject_Z interval)%Q /\
      dense interval (times ++ added) = true.
Proof.
  intros Hi. induction fuel as [|fuel IH];
    intros k last_time times values Hk Hc Hfuel Hlast Hd;
    assert (Hint : py_int (close_time - last_time) = k * interval)
      by (apply py_int_inject; [nia|rewrite Hc; ring]);
    cbn [expand_gap]; rewrite Hint.
  - assert (k = 1) as -> by lia. rewrite Z.mul_1_l in *.
    replace (interval >? interval) with false
      by (symmetry; rewrite Z.gtb_ltb; apply Z.ltb_ge; lia).
    exists [], values, last_time. rewrite app_nil_r.
    repeat split; [exact Hlast|rewrite Hc; ring|exact Hd].
  - destruct (k * interval >? interval) eqn:E.
    + apply Z.gtb_lt in E. assert (Hk2 : 2 <= k) by nia.
      destruct (IH (k - 1) (last_time + inject_Z interval)%Q
                  (times ++ [(last_time + inject_Z interval)%Q])
                  (values ++ [last_value]))
        as (added & values' & last_time' & Hrun & Hl & Hdiff & Hdense).
      * lia.
      * rewrite Hc. replace (k * interval) with ((k - 1) * interval + interval) by lia.
        rewrite inject_Z_plus. ring.
      * lia.
      * apply last_snoc.
      * apply (dense_snoc _ _ last_time); [exact Hd|exact Hlast|ring].
      * exists ((last_time + inject_Z interval)%Q :: added), values', last_time'.
        rewrite <- app_assoc in Hrun, Hl, Hdense. auto.
    + rewrite Z.gtb_ltb in E. apply Z.ltb_ge in E. assert (k = 1) as -> by nia.
      rewrite Z.mul_1_l in *.
      exists [], values, last_time. rewrite app_nil_r.
      repeat split; [exact Hlast|rewrite Hc; ring|exact Hd].
Qed.

Lemma expand_loop_aligned (interval : Z) :
  0 < interval ->
  forall ticks last_time last_value times values,
    aligned interval last_time ticks ->
    last times = Some last_time ->
    dense interval times = true ->
    exists added values',
      expand_loop interval ticks last_time last_value times values
      = Some (times ++ added, values') /\
      last (times ++ added) = Some (default last_time (tick_T <$> last ticks)) /\
      dense interval (times ++ added) = true.
Proof.
  intros Hi. induction ticks as [|tick ticks IH];
    intros last_time last_value times values Ha Hlast Hd; cbn [expand_loop].
  - exists [], values. rewrite app_nil_r. auto.
  - destruct Ha as [(k & Hk & Hc) Ha].
    destruct (expand_gap_aligned interval (tick_T tick) last_value Hi
                (Z.to_nat (py_int (tick_T tick - last_time))) k last_time times values
                Hk Hc)
      as (gap & values1 & last_time' & Hgap & Hl & Hdiff & Hdense);
      [|exact Hlast|exact Hd|].
    { rewrite (py_int_inject _ (k * interval)); [nia|nia|rewrite Hc; ring]. }
    rewrite Hgap.
    destruct (IH (tick_T tick) (tick_C tick) ((times ++ gap) ++ [tick_T tick])
                (values1 ++ [tick_C tick]) Ha)
      as (added & values' & Hrun & Hl' & Hdense').
    + apply last_snoc.
    + apply (dense_snoc _ _ last_time'); [exact Hdense|exact Hl|exact Hdiff].
    + exists (gap ++ tick_T tick :: added), values'.
      replace (times ++ gap ++ tick_T tick :: added)
        with (((times ++ gap) ++ [tick_T tick]) ++ added)
        by (rewrite <- !app_assoc; reflexivity).
      split; [exact Hrun|]. split; [|exact Hdense'].
      rewrite Hl'. rewrite last_cons. destruct (last ticks); reflexivity.
Qed.

(** X9 ([_expand_ticks]).  When the times of the raw ticks are whole
    intervals apart, each a positive number of them after the one before,
    the expanded times are dense: they start at the time of the first raw
    tick, end at the time of the last, and step by exactly one interval, so
    their number is the span in intervals plus one. *)
Theorem expand_ticks_dense (cfg : MarketConfig) (tick : RawTick) (ticks : list RawTick) :
  0 < tick_interval_secs cfg ->
  aligned (tick_interval_secs cfg) (tick_T tick) ticks ->
  exists times values,
    _expand_ticks cfg (tick :: ticks) = Ret (Some (times, values)) /\
    dense (tick_interval_secs cfg) times = true /\
    head times = Some (tick_T tick) /\
    let end_time := default (tick_T tick) (tick_T <$> last ticks) in
    last times = Some end_time /\
    (end_time - tick_T tick
     == inject_Z (Z.of_nat (length times) - 1) * inject_Z (tick_interval_secs cfg))%Q.
Proof.
  intros Hi Ha. unfold _expand_ticks.
  destruct (expand_loop_aligned _ Hi ticks (tick_T tick) (tick_C tick)
              [tick_T tick] [tick_C tick] Ha eq_refl eq_refl)
    as (added & values & Hrun & Hl & Hd).
  rewrite Hrun. eexists _, _. split; [reflexivity|].
  split; [exact Hd|]. split; [reflexivity|]. cbn zeta. split; [exact Hl|].
  rewrite last_lookup in Hl. cbn [app length] in Hl. cbn [Nat.pred] in Hl.
  pose proof (dense_lookup _ _ (length added) 0 (tick_T tick) _ Hd eq_refl Hl) as Hspan.
  rewrite Hspan. cbn [app length].
  replace (Z.of_nat (S (length added)) - 1) with (Z.of_nat (length added)) by lia.
  ring.
Qed.

Lemma expand_ticks_dense_witness :
  exists times values,
    _expand_ticks market_config_60 sparse_ticks = Ret (Some (times, values)) /\
    dense 60 times = true /\
    last times = Some 240%Q /\
    Qlist_eqb values [10; 10; 10; 13; 14]%Q = true.
Proof.
  destruct (expand_ticks_dense market_config_60 {| tick_T := 0; tick_C := 10 |}
              [{| tick_T := 180; tick_C := 13 |}; {| tick_T := 240; tick_C := 14 |}])
    as (times & values & Hrun & Hd & _ & Hl & _).
  - reflexivity.
  - cbn. split; [exists 3; split; [lia|reflexivity]|].
    split; [exists 1; split; [lia|reflexivity]|exact I].
  - exists times, values. split; [exact Hrun|]. split; [exact Hd|]. split; [exact Hl|].
    vm_compute in Hrun. injection Hrun as _ <-. reflexivity.
Defined.

Lemma overwrite_loop_spec (source : list Q) :
  forall todo source_index dest_index overwritten values,
    exists values' n,
      overwrite_loop todo source source_index dest_index overwritten values
      = (values', overwritten + Z.of_nat n) /\
      (n <= todo)%nat /\
      length values' = length values /\
      (forall j, (j < n)%nat ->
                 is_Some (source !! (source_index + j)%nat) /\
                 values' !! (dest_index + j)%nat = source !! (source_index + j)%nat) /\
      (forall i, (i < dest_index)%nat \/ (dest_index + n <= i)%nat ->
                 values' !! i = values !! i).
Proof.
  induction todo as [|todo IH]; intros source_index dest_index overwritten values;
    cbn [overwrite_loop].
  - exists values, 0%nat. rewrite Z.add_0_r.
    repeat split; auto; intros; lia.
  - destruct (source !! source_index) as [value|] eqn:Hs.
    + destruct (dest_index <? length values)%nat eqn:Hd.
      * apply Nat.ltb_lt in Hd.
        destruct (IH (S source_index) (S dest_index) (overwritten + 1)
                    (<[dest_index := value]> values))
          as (values' & n & Hrun & Hn & Hlen & Hnew & Hold).
        exists values', (S n). rewrite Hrun.
        split; [f_equal; lia|]. split; [lia|].
        split; [rewrite Hlen; apply length_insert|]. split.
        -- intros j Hj. destruct j as [|j].
           ++ rewrite !Nat.add_0_r, Hs. split; [eauto|].
              rewrite Hold by lia. apply list_lookup_insert_eq. exact Hd.
           ++ replace (source_index + S j)%nat with (S source_index + j)%nat by lia.
              replace (dest_index + S j)%nat with (S dest_index + j)%nat by lia.
              apply Hnew. lia.
        -- intros i Hi. rewrite Hold by lia. apply list_lookup_insert_ne. lia.
      * exists values, 0%nat. rewrite Z.add_0_r.
        repeat split; auto; intros; lia.
    + exists values, 0%nat. rewrite Z.add_0_r.
      repeat split; auto; intros; lia.
Qed.

(** X10 ([_overwrite_tick_data], [_expand_ticks]).  With a positive tick
    interval a back-refresh returns for any raw ticks and any range, and it
    changes nothing but closing values: the times, the volumes and the length
    of the values are as before, the number of ticks overwritten is at most
    the length of the range in intervals, the ticks overwritten are those
    that follow the stored tick of the start time and hold the expanded
    values of the raw ticks from the start time on, and every other stored
    value is untouched.  No raw ticks, or a start time in neither array,
    overwrites nothing. *)
Theorem overwrite_tick_data_frame (cfg : MarketConfig) (d : TickData)
    (start_time end_time : Q) (ticks : list RawTick) :
  0 < tick_interval_secs cfg ->
  exists d' n,
    _overwrite_tick_data cfg d start_time end_time ticks = Ret (Some (d', Z.of_nat n)) /\
    close_times d' = close_times d /\
    base_24hr_volumes d' = base_24hr_volumes d /\
    length (close_values d') = length (close_values d) /\
    Z.of_nat n
      <= Z.max 0 (Qfloor ((end_time - start_time) / inject_Z (tick_interval_secs cfg))) /\
    (n = 0%nat -> close_values d' = close_values d) /\
    ((0 < n)%nat ->
     exists times values source_index dest_index,
       _expand_ticks cfg ticks = Ret (Some (times, values)) /\
       py_index start_time times = Ret source_index /\
       py_index start_time (close_times d) = Ret dest_index /\
       (forall j, (j < n)%nat ->
                  is_Some (values !! (source_index + j)%nat) /\
                  close_values d' !! (dest_index + j)%nat
                  = values !! (source_index + j)%nat) /\
       (forall i, (i < dest_index)%nat \/ (dest_index + n <= i)%nat ->
                  close_values d' !! i = close_values d !! i)).
Proof.
  intros Hi. unfold _overwrite_tick_data.
  destruct ticks as [|tick ticks].
  { exists d, 0%nat. repeat split; auto; try lia. }
  unfold _expand_ticks. cbn [rbind].
  destruct (expand_loop_total _ Hi ticks (tick_T tick) (tick_C tick)
              [tick_T tick] [tick_C tick])
    as (added_times & added_values & Hrun & _).
  rewrite Hrun.
  set (times := [tick_T tick] ++ added_times).
  set (values := [tick_C tick] ++ added_values).
  destruct (py_index start_time times) as [source_index|e] eqn:Hsrc;
    [|exists d, 0%nat; repeat split; auto; lia].
  destruct (py_index start_time (close_times d)) as [dest_index|e] eqn:Hdst;
    [|exists d, 0%nat; repeat split; auto; lia].
  unfold py_floordiv.
  replace (tick_interval_secs cfg =? 0) with false by (symmetry; apply Z.eqb_neq; lia).
  cbn [rbind].
  set (len := Qfloor _).
  destruct (overwrite_loop_spec values (Z.to_nat len) source_index dest_index 0
              (close_values d))
    as (values' & n & Hloop & Hn & Hlen & Hnew & Hold).
  rewrite Hloop. exists (set_ticks d (close_times d) values' (base_24hr_volumes d)), n.
  cbn [set_ticks close_times close_values base_24hr_volumes].
  split; [reflexivity|]. split; [reflexivity|]. split; [reflexivity|].
  split; [exact Hlen|]. split; [lia|]. split.
  - intros ->. apply list_eq. intros i. apply Hold. lia.
  - intros _. exists times, values, source_index, dest_index. auto.
Qed.

Lemma overwrite_tick_data_frame_witness :
  exists d',
    _overwrite_tick_data market_config_60 five_ticks 60 180 sparse_ticks
    = Ret (Some (d', 2)) /\
    close_times d' = close_times five_ticks /\
    Qlist_eqb (close_values d') [10; 10; 10; 13; 14]%Q = true.
Proof.
  destruct (overwrite_tick_data_frame market_config_60 five_ticks 60 180 sparse_ticks
              eq_refl) as (d' & n & Hrun & Ht & _).
  exists d'.
  set (run := _overwrite_tick_data market_config_60 five_ticks 60 180 sparse_ticks) in *.
  vm_compute in run. subst run. injection Hrun as Hd Hn.
  subst d'. repeat split.
Defined.

(** ** Source data: the rolling 24-hour volume *)

Lemma py_item_nat {A : Type} (l : list A) (i : nat) : py_item l (Z.of_nat i) = py_get l i.
Proof.
  unfold py_item. replace (Z.of_nat i <? 0) with false by (symmetry; apply Z.ltb_ge; lia).
  rewrite Nat2Z.id. reflexivity.
Qed.

Lemma prefix_sum_loop (volumes : list Q) :
  forall n s acc,
    (s + n <= length volumes)%nat ->
    rfold (fun day_volume index =>
             let* volume := py_item volumes index in Ret (day_volume + volume)%Q)
          (map (fun k => 0 + Z.of_nat k) (seq s n)) acc
    = Ret (fold_left Qplus (take n (drop s volumes)) acc).
Proof.
  induction n as [|n IH]; intros s acc Hlen; cbn [seq map rfold].
  - reflexivity.
  - rewrite Z.add_0_l, py_item_nat. unfold py_get.
    destruct (volumes !! s) as [v|] eqn:Hv; [|apply lookup_ge_None in Hv; lia].
    cbn [rbind]. rewrite IH by lia.
    rewrite (drop_S _ _ _ Hv). reflexivity.
Qed.

(** The second loop from the source index [day + s] on, entered with the
    running volume [dv]: the volumes it appends start with [dv] plus the
    volume of the tick minus the one a day before, and each later one is got
    from the one before it in the same way. *)
Lemma parse_loop (day : nat) (sv st svol : list Q) :
  length st = length sv -> length svol = length sv ->
  forall n s dv cv ct bv pv,
    (day + s + n <= length sv)%nat ->
    exists dv' bv',
      rfold (parse_tick (Z.of_nat day) sv st svol)
            (map (fun k => Z.of_nat day + Z.of_nat k) (seq s n)) (dv, cv, ct, bv, pv)
      = Ret (dv', cv ++ take n (drop (day + s) sv), ct ++ take n (drop (day + s) st),
             bv ++ bv', pv ++ take n (drop s sv)) /\
      length bv' = n /\
      (forall a b, (0 < n)%nat ->
         svol !! s = Some a -> svol !! (day + s)%nat = Some b ->
         bv' !! 0%nat = Some (dv + b - a)%Q) /\
      (forall j v a b, (S j < n)%nat ->
         bv' !! j = Some v ->
         svol !! (S (s + j)) = Some a -> svol !! (day + S (s + j))%nat = Some b ->
         bv' !! S j = Some (v + b - a)%Q).
Proof.
  intros Hlt Hlv. induction n as [|n IH]; intros s dv cv ct bv pv Hlen;
    cbn [seq map rfold].
  - exists dv, []. cbn [take]. rewrite !app_nil_r. split; [reflexivity|].
    split; [reflexivity|]. split; intros; lia.
  - unfold parse_tick at 1.
    replace (Z.of_nat day + Z.of_nat s - Z.of_nat day) with (Z.of_nat s) by lia.
    rewrite <- Nat2Z.inj_add, !py_item_nat. unfold py_get.
    destruct (svol !! (day + s)%nat) as [b|] eqn:Hb; [|apply lookup_ge_None in Hb; lia].
    destruct (svol !! s) as [a|] eqn:Ha; [|apply lookup_ge_None in Ha; lia].
    destruct (sv !! (day + s)%nat) as [value|] eqn:Hvalue;
      [|apply lookup_ge_None in Hvalue; lia].
    destruct (st !! (day + s)%nat) as [time|] eqn:Htime;
      [|apply lookup_ge_None in Htime; lia].
    destruct (sv !! s) as [prev|] eqn:Hprev; [|apply lookup_ge_None in Hprev; lia].
    cbn [rbind].
    destruct (IH (S s) (dv + b - a)%Q (cv ++ [value]) (ct ++ [time])
                (bv ++ [(dv + b - a)%Q]) (pv ++ [prev]))
      as (dv' & bv' & Hrun & Hlen' & Hfirst & Hnext); [lia|].
    exists dv', ((dv + b - a)%Q :: bv').
    split.
    + rewrite Hrun. rewrite <- !app_assoc. cbn [app].
      replace (day + S s)%nat with (S (day + s)) by lia.
      rewrite (drop_S sv _ _ Hvalue), (drop_S st _ _ Htime), (drop_S sv _ _ Hprev).
      reflexivity.
    + split; [cbn; lia|]. split.
      * intros a0 b0 _ Ha0 Hb0. injection Ha0 as <-. injection Hb0 as <-. reflexivity.
      * intros j v a1 b1 Hj Hv Ha1 Hb1. destruct j as [|j].
        -- cbn in Hv. injection Hv as <-.
           rewrite Nat.add_0_r in Ha1, Hb1.
           apply (Hfirst a1 b1); [lia|exact Ha1|].
           rewrite <- Hb1. f_equal.
        -- cbn in Hv. change ((dv + b - a)%Q :: bv') with ([(dv + b - a)%Q] ++ bv').
           rewrite lookup_app_r by (cbn; lia). cbn [length].
           replace (S (S j) - 1)%nat with (S j) by lia.
           apply (Hnext j v a1 b1); [lia|exact Hv| |].
           ++ rewrite <- Ha1. f_equal. lia.
           ++ rewrite <- Hb1. f_equal. lia.
Qed.

(** X11 ([_parse_source_tick_data]).  With a tick interval of at least a
    minute and source arrays of equal lengths, parsing returns: the first
    [day_ticks = 1440 // (interval // 60)] source ticks are dropped from the
    closing values and times, and the previous-day value of a tick is the
    source value [day_ticks] ticks before it.  The 24-hour volumes are a
    running value: the first is the sum of the first [day_ticks] source
    volumes, added up from 0 in their order, plus the volume of the first
    tick kept, minus the first source volume; each later one is the one
    before it plus the volume of its own tick, minus the source volume
    [day_ticks] ticks earlier. *)
Theorem parse_source_rolling_volume (cfg : MarketConfig) (sv st svol : list Q) :
  60 <= tick_interval_secs cfg ->
  length st = length sv -> length svol = length sv ->
  let day := Z.to_nat (1440 / (tick_interval_secs cfg / 60)) in
  exists bv,
    _parse_source_tick_data cfg sv st svol
    = Ret (drop day sv, drop day st, bv, take (length sv - day) sv) /\
    length bv = (length sv - day)%nat /\
    (forall a b, (day < length sv)%nat ->
       svol !! 0%nat = Some a -> svol !! day = Some b ->
       bv !! 0%nat = Some (fold_left Qplus (take day svol) 0 + b - a)%Q) /\
    (forall j v a b, (day + S j < length sv)%nat ->
       bv !! j = Some v ->
       svol !! S j = Some a -> svol !! (day + S j)%nat = Some b ->
       bv !! S j = Some (v + b - a)%Q).
Proof.
  intros Hi Hlt Hlv day. unfold _parse_source_tick_data, py_intdiv.
  assert (Hm : 1 <= tick_interval_secs cfg / 60)
    by (apply Z.div_le_lower_bound; lia).
  replace (tick_interval_secs cfg / 60 =? 0) with false
    by (symmetry; apply Z.eqb_neq; lia).
  cbn [rbind].
  assert (Hday : 0 <= 1440 / (tick_interval_secs cfg / 60))
    by (apply Z.div_pos; lia).
  assert (Hd : 1440 / (tick_interval_secs cfg / 60) = Z.of_nat day)
    by (subst day; lia).
  rewrite Hd.
  destruct (Z.of_nat (length sv) >? Z.of_nat day) eqn:E.
  - apply Z.gtb_lt in E. unfold py_range.
    rewrite Z.sub_0_r, Nat2Z.id.
    rewrite (prefix_sum_loop svol day 0 0%Q) by lia. cbn [rbind].
    replace (Z.to_nat (Z.of_nat (length sv) - Z.of_nat day))
      with (length sv - day)%nat by lia.
    destruct (parse_loop day sv st svol Hlt Hlv (length sv - day) 0
                (fold_left Qplus (take day (drop 0 svol)) 0%Q) [] [] [] [])
      as (dv' & bv' & Hrun & Hlen & Hfirst & Hnext); [lia|].
    rewrite Hrun. cbn [rbind app]. exists bv'.
    rewrite Nat.add_0_r, drop_0 in *.
    rewrite (take_ge (drop day sv)) by (rewrite length_drop; lia).
    rewrite (take_ge (drop day st)) by (rewrite length_drop; lia).
    split; [reflexivity|]. split; [exact Hlen|]. split.
    + intros a b Hlen' Ha Hb. apply (Hfirst a b); [lia|exact Ha|exact Hb].
    + intros j v a b Hj Hv Ha Hb. apply (Hnext j v a b); [lia|exact Hv|exact Ha|exact Hb].
  - rewrite Z.gtb_ltb in E. apply Z.ltb_ge in E. exists [].
    rewrite !drop_ge by lia. replace (length sv - day)%nat with 0%nat by lia.
    split; [reflexivity|]. split; [reflexivity|]. split; intros; lia.
Qed.

Lemma parse_source_rolling_volume_witness :
  exists bv,
    _parse_source_tick_data half_day_config [1; 2; 3; 4]%Q [0; 43200; 86400; 129600]%Q
      [10; 20; 30; 40]%Q
    = Ret ([3; 4]%Q, [86400; 129600]%Q, bv, [1; 2]%Q) /\
    Qlist_eqb bv [50; 70]%Q = true.
Proof.
  destruct (parse_source_rolling_volume half_day_config [1; 2; 3; 4]%Q
              [0; 43200; 86400; 129600]%Q [10; 20; 30; 40]%Q)
    as (bv & Hrun & _); [cbn; lia|reflexivity|reflexivity|].
  exists bv. split; [exact Hrun|].
  set (run := _parse_source_tick_data _ _ _ _) in Hrun.
  vm_compute in run. subst run. injection Hrun as <-. reflexivity.
Defined.

(** ** Differences and the relative strength index *)

Lemma py_get_Some {A : Type} (l : list A) (i : nat) (a : A) :
  l !! i = Some a -> py_get l i = Ret a.
Proof. unfold py_get. intros ->. reflexivity. Qed.

Lemma diff_loop (source : list Q) :
  forall n s acc,
    (1 <= s)%nat -> (s + n <= length source)%nat ->
    exists added,
      rfold (fun result index =>
               let* a := py_get source index in
               let* b := py_get source (index - 1) in
               Ret (result ++ [(a - b)%Q]))
            (seq s n) acc = Ret (acc ++ added) /\
      length added = n /\
      forall j a b, source !! (s + j - 1)%nat = Some b -> source !! (s + j)%nat = Some a ->
                    (j < n)%nat -> added !! j = Some (a - b)%Q.
Proof.
  induction n as [|n IH]; intros s acc Hs Hlen; cbn [seq rfold].
  - exists []. rewrite app_nil_r. repeat split. intros; lia.
  - destruct (source !! s) as [a|] eqn:Ha; [|apply lookup_ge_None in Ha; lia].
    destruct (source !! (s - 1)%nat) as [b|] eqn:Hb; [|apply lookup_ge_None in Hb; lia].
    rewrite (py_get_Some _ _ _ Ha), (py_get_Some _ _ _ Hb). cbn [rbind].
    destruct (IH (S s) (acc ++ [(a - b)%Q])) as (added & Hrun & Hl & Hj); [lia|lia|].
    exists ((a - b)%Q :: added). rewrite Hrun, <- app_assoc.
    split; [reflexivity|]. split; [cbn; lia|].
    intros j a' b' Hb' Ha' Hjn. destruct j as [|j].
    + rewrite Nat.add_0_r in *. cbn. congruence.
    + cbn. apply Hj; [| |lia].
      * rewrite <- Hb'. f_equal. lia.
      * rewrite <- Ha'. f_equal. lia.
Qed.

Lemma diff_lookup (source : list Q) :
  exists deltas,
    diff source = Ret deltas /\
    length deltas = (length source - 1)%nat /\
    forall j a b, source !! j = Some b -> source !! S j = Some a ->
                  deltas !! j = Some (a - b)%Q.
Proof.
  unfold diff. destruct source as [|x source].
  { exists []. repeat split. intros j a b Hb. discriminate. }
  set (l := x :: source).
  destruct (diff_loop l (length l - 1) 1 []) as (added & Hrun & Hl & Hj);
    [lia|subst l; cbn [length]; lia|].
  exists added. split; [exact Hrun|]. split; [exact Hl|].
  intros j a b Hb Ha. apply Hj.
  - rewrite <- Hb. f_equal. lia.
  - exact Ha.
  - apply lookup_lt_Some in Ha. lia.
Qed.

Lemma py_div_ret (x y : Q) : ~ (y == 0)%Q -> py_div x y = Ret (x / y)%Q.
Proof.
  intros H. unfold py_div. destruct (Qeq_bool y 0) eqn:E; [|reflexivity].
  apply Qeq_bool_iff in E. contradiction.
Qed.

Lemma Qdiv_nonneg (x y : Q) : (0 <= x)%Q -> (0 < y)%Q -> (0 <= x / y)%Q.
Proof. intros Hx Hy. apply Qle_shift_div_l; [exact Hy|]. lra. Qed.

Lemma rsi_value_range (up down : Q) :
  (0 <= up)%Q -> (0 <= down)%Q -> exists v, rsi_value up down = Ret v /\ rsi_range v.
Proof.
  intros Hu Hd. unfold rsi_value.
  set (rs := match py_div up down with Ret rs => rs | Raise _ => 0%Q end).
  assert (Hrs : (0 <= rs)%Q).
  { subst rs. unfold py_div. destruct (Qeq_bool down 0) eqn:E; [lra|].
    apply Qeq_bool_neq in E. apply Qdiv_nonneg; [exact Hu|lra]. }
  rewrite py_div_ret by lra. cbn [rbind]. eexists. split; [reflexivity|].
  assert (H1 : (0 < 100 / (1 + rs))%Q).
  { apply Qlt_shift_div_l; lra. }
  assert (H2 : (100 / (1 + rs) <= 100)%Q).
  { apply Qle_shift_div_r; [lra|]. nra. }
  split; lra.
Qed.

Lemma rsi_value_zero (up down : Q) :
  (down == 0)%Q -> exists v, rsi_value up down = Ret v /\ (v == 0)%Q.
Proof.
  intros Hd. unfold rsi_value.
  assert (Hz : py_div up down = Raise ZeroDivisionError).
  { unfold py_div. apply Qeq_bool_iff in Hd. rewrite Hd. reflexivity. }
  rewrite Hz. rewrite py_div_ret by lra. cbn [rbind]. eexists. split; [reflexivity|]. field.
Qed.

Lemma smooth_nonneg (x v : Q) (n : nat) :
  (1 <= n)%nat -> (0 <= x)%Q -> (0 <= v)%Q ->
  exists y, py_div (x * (inject_Z (Z.of_nat n) - 1) + v) (inject_Z (Z.of_nat n)) = Ret y /\
            (0 <= y)%Q /\ ((x == 0)%Q -> (v == 0)%Q -> (y == 0)%Q).
Proof.
  intros Hn Hx Hv.
  assert (Hq : (1 <= inject_Z (Z.of_nat n))%Q).
  { change 1%Q with (inject_Z 1). rewrite <- Zle_Qle. lia. }
  rewrite py_div_ret by lra. eexists. split; [reflexivity|]. split.
  - apply Qdiv_nonneg; [|lra]. nra.
  - intros Hx0 Hv0. rewrite Hx0, Hv0. field. lra.
Qed.

Lemma rsi_loop (n : nat) (deltas : list Q) :
  (1 <= n)%nat ->
  forall m s up down rsi,
    (n <= s)%nat ->
    (m = 0%nat \/ (s + m <= S (length deltas))%nat /\ (s + m <= length rsi)%nat) ->
    (0 <= up)%Q -> (0 <= down)%Q -> Forall rsi_range rsi ->
    exists up' down' rsi',
      rfold (rsi_step n deltas) (seq s m) (up, down, rsi) = Ret (up', down', rsi') /\
      length rsi' = length rsi /\
      Forall rsi_range rsi' /\
      ((down == 0)%Q -> Forall (fun delta => 0 <= delta)%Q deltas ->
       Forall (fun v => v == 0)%Q rsi -> Forall (fun v => v == 0)%Q rsi').
Proof.
  intros Hn. induction m as [|m IH]; intros s up down rsi Hs Hb Hup Hdown Hrange;
    cbn [seq rfold].
  - exists up, down, rsi. auto.
  - destruct Hb as [Hb|[Hd Hr]]; [discriminate|].
    unfold rsi_step at 1.
    replace (Z.of_nat s - 1) with (Z.of_nat (s - 1)) by lia.
    rewrite py_item_nat. unfold py_get.
    destruct (deltas !! (s - 1)%nat) as [delta|] eqn:Hdelta;
      [|apply lookup_ge_None in Hdelta; lia].
    cbn [rbind].
    destruct (Qlt_bool 0 delta) eqn:E;
      [apply Qlt_bool_iff in E|apply Qlt_bool_false in E].
    + destruct (smooth_nonneg up delta n Hn Hup ltac:(lra)) as (up1 & -> & Hup1 & _).
      destruct (smooth_nonneg down 0 n Hn Hdown ltac:(lra)) as (down1 & -> & Hdown1 & Hz).
      cbn [rbind].
      destruct (rsi_value_range up1 down1 Hup1 Hdown1) as (v & Hv & Hvr).
      rewrite Hv. cbn [rbind].
      replace (s <? length rsi)%nat with true by (symmetry; apply Nat.ltb_lt; lia).
      destruct (IH (S s) up1 down1 (<[s := v]> rsi))
        as (up' & down' & rsi' & Hrun & Hlen & Hrange' & Hzero);
        [lia|rewrite length_insert; lia|exact Hup1|exact Hdown1| |].
      { apply Forall_insert; assumption. }
      exists up', down', rsi'. split; [exact Hrun|].
      split; [rewrite Hlen; apply length_insert|]. split; [exact Hrange'|].
      intros Hd0 Hdeltas Hrsi0. apply Hzero; [apply Hz; [exact Hd0|reflexivity]|exact Hdeltas|].
      apply Forall_insert; [exact Hrsi0|].
      destruct (rsi_value_zero up1 down1 (Hz Hd0 ltac:(reflexivity))) as (v' & Hv' & Hv0).
      congruence.
    + destruct (smooth_nonneg up 0 n Hn Hup ltac:(lra)) as (up1 & -> & Hup1 & _).
      destruct (smooth_nonneg down (- delta) n Hn Hdown ltac:(lra))
        as (down1 & -> & Hdown1 & Hz).
      cbn [rbind].
      destruct (rsi_value_range up1 down1 Hup1 Hdown1) as (v & Hv & Hvr).
      rewrite Hv. cbn [rbind].
      replace (s <? length rsi)%nat with true by (symmetry; apply Nat.ltb_lt; lia).
      destruct (IH (S s) up1 down1 (<[s := v]> rsi))
        as (up' & down' & rsi' & Hrun & Hlen & Hrange' & Hzero);
        [lia|rewrite length_insert; lia|exact Hup1|exact Hdown1| |].
      { apply Forall_insert; assumption. }
      exists up', down', rsi'. split; [exact Hrun|].
      split; [rewrite Hlen; apply length_insert|]. split; [exact Hrange'|].
      intros Hd0 Hdeltas Hrsi0.
      assert (Hdelta0 : (- delta == 0)%Q).
      { pose proof (proj1 (Forall_lookup _ _) Hdeltas _ _ Hdelta) as H. cbn beta in H. lra. }
      apply Hzero; [apply Hz; [exact Hd0|exact Hdelta0]|exact Hdeltas|].
      apply Forall_insert; [exact Hrsi0|].
      destruct (rsi_value_zero up1 down1 (Hz Hd0 Hdelta0)) as (v' & Hv' & Hv0).
      congruence.
Qed.

Lemma py_sum_nonneg (l : list Q) : Forall (fun v => 0 <= v)%Q l -> (0 <= py_sum l)%Q.
Proof.
  intros H. rewrite py_sum_fold_right. induction H as [|x l Hx _ IH]; cbn [fold_right]; lra.
Qed.

Lemma py_sum_nonpos (l : list Q) : Forall (fun v => v <= 0)%Q l -> (py_sum l <= 0)%Q.
Proof.
  intros H. rewrite py_sum_fold_right. induction H as [|x l Hx _ IH]; cbn [fold_right]; lra.
Qed.

Lemma seed_ups_nonneg (seed : list Q) :
  Forall (fun v => 0 <= v)%Q (List.filter (fun value => Qle_bool 0 value) seed).
Proof.
  apply Forall_forall. intros v Hv. apply list_elem_of_In, filter_In in Hv as [_ Hv].
  apply Qle_bool_iff. exact Hv.
Qed.

Lemma seed_downs_nonpos (seed : list Q) :
  Forall (fun v => v <= 0)%Q (List.filter (fun value => Qlt_bool value 0) seed).
Proof.
  apply Forall_forall. intros v Hv. apply list_elem_of_In, filter_In in Hv as [_ Hv].
  apply Qlt_bool_iff in Hv. lra.
Qed.

Lemma seed_downs_none (seed : list Q) :
  Forall (fun v => 0 <= v)%Q seed ->
  List.filter (fun value => Qlt_bool value 0) seed = [].
Proof.
  intros H. induction H as [|x l Hx _ IH]; [reflexivity|]. cbn [List.filter].
  replace (Qlt_bool x 0) with false by (symmetry; apply Qlt_bool_false; exact Hx).
  exact IH.
Qed.

Lemma refresh_rsi_spec (rsi_size n : nat) (adjusted : list Q) :
  (1 <= n)%nat ->
  let source := py_suffix rsi_size adjusted in
  exists rsi,
    _refresh_rsi rsi_size n adjusted = Ret rsi /\
    length rsi = Nat.max n (length source) /\
    Forall rsi_range rsi /\
    ((forall j a b, source !! j = Some a -> source !! S j = Some b -> (a <= b)%Q) ->
     Forall (fun v => v == 0)%Q rsi).
Proof.
  intros Hn source. unfold _refresh_rsi. fold source.
  destruct (diff_lookup source) as (deltas & -> & Hlen & Hdeltas). cbn [rbind].
  assert (Hq : (1 <= inject_Z (Z.of_nat n))%Q).
  { change 1%Q with (inject_Z 1). rewrite <- Zle_Qle. lia. }
  set (seed := take (n + 1) deltas).
  pose proof (py_sum_nonneg _ (seed_ups_nonneg seed)) as Hups.
  pose proof (py_sum_nonpos _ (seed_downs_nonpos seed)) as Hdowns.
  rewrite !py_div_ret by lra. cbn [rbind].
  set (up := (py_sum _ / _)%Q). set (down := (- py_sum _ / _)%Q).
  assert (Hup : (0 <= up)%Q) by (apply Qdiv_nonneg; lra).
  assert (Hdown : (0 <= down)%Q) by (apply Qdiv_nonneg; lra).
  destruct (rsi_value_range up down Hup Hdown) as (first & Hfirst & Hfr).
  rewrite Hfirst. cbn [rbind].
  set (rsi0 := replicate n first ++ drop n (replicate (length source) 0%Q)).
  assert (Hlen0 : length rsi0 = Nat.max n (length source)).
  { subst rsi0. rewrite length_app, length_drop, !length_replicate. lia. }
  assert (Hrange0 : Forall rsi_range rsi0).
  { subst rsi0. apply Forall_app. split; [apply Forall_replicate; exact Hfr|].
    apply Forall_drop, Forall_replicate. split; lra. }
  destruct (rsi_loop n deltas Hn (length source - n) n up down rsi0)
    as (up' & down' & rsi & Hrun & Hl & Hrange & Hzero);
    [lia|lia|exact Hup|exact Hdown|exact Hrange0|].
  rewrite Hrun. cbn [rbind]. exists rsi.
  split; [reflexivity|]. split; [congruence|]. split; [exact Hrange|].
  intros Hsorted.
  assert (Hnonneg : Forall (fun delta => 0 <= delta)%Q deltas).
  { apply Forall_lookup. intros j delta Hj.
    destruct (source !! j) as [a|] eqn:Ha;
      [|apply lookup_ge_None in Ha; apply lookup_lt_Some in Hj; lia].
    destruct (source !! S j) as [b|] eqn:Hb;
      [|apply lookup_ge_None in Hb; apply lookup_lt_Some in Hj; lia].
    rewrite (Hdeltas j b a Ha Hb) in Hj. injection Hj as <-.
    specialize (Hsorted j a b Ha Hb). lra. }
  assert (Hd0 : (down == 0)%Q).
  { subst down. rewrite seed_downs_none by (subst seed; apply Forall_take; exact Hnonneg).
    change (py_sum []) with 0%Q. field. lra. }
  apply Hzero; [exact Hd0|exact Hnonneg|].
  subst rsi0. apply Forall_app. split.
  - apply Forall_replicate.
    destruct (rsi_value_zero up down Hd0) as (v & Hv & Hv0). congruence.
  - apply Forall_drop, Forall_replicate. reflexivity.
Qed.

(** X12 ([_refresh_rsi], [common.math.diff]).  With a window of at least
    one tick the refresh returns for any closing values, every entry of the
    index it stores is at least 0 and at most 100, and the series is as long
    as the source, or as the window when the source is shorter. *)
Theorem refresh_rsi_range (rsi_size rsi_window : nat) (adjusted_close_values : list Q) :
  (1 <= rsi_window)%nat ->
  exists rsi,
    _refresh_rsi rsi_size rsi_window adjusted_close_values = Ret rsi /\
    length rsi
    = Nat.max rsi_window (length (py_suffix rsi_size adjusted_close_values)) /\
    Forall rsi_range rsi.
Proof.
  intros Hn.
  destruct (refresh_rsi_spec rsi_size rsi_window adjusted_close_values Hn)
    as (rsi & Hrun & Hlen & Hrange & _).
  exists rsi. auto.
Qed.

Lemma refresh_rsi_range_witness :
  exists rsi,
    _refresh_rsi 0 2 [1; 2; 1; 3]%Q = Ret rsi /\
    length rsi = 4%nat /\
    Forall rsi_range rsi.
Proof.
  apply (refresh_rsi_range 0 2 [1; 2; 1; 3]%Q). lia.
Defined.

(** X13 ([_refresh_rsi]).  For closing values that never fall the index is
    0 at every tick: the average loss stays 0, the division by it fails and
    the relative strength falls back to 0. *)
Theorem refresh_rsi_without_losses (rsi_size rsi_window : nat)
    (adjusted_close_values : list Q) :
  (1 <= rsi_window)%nat ->
  (forall j a b,
     py_suffix rsi_size adjusted_close_values !! j = Some a ->
     py_suffix rsi_size adjusted_close_values !! S j = Some b -> (a <= b)%Q) ->
  exists rsi,
    _refresh_rsi rsi_size rsi_window adjusted_close_values = Ret rsi /\
    Forall (fun v => v == 0)%Q rsi.
Proof.
  intros Hn Hsorted.
  destruct (refresh_rsi_spec rsi_size rsi_window adjusted_close_values Hn)
    as (rsi & Hrun & _ & _ & Hzero).
  exists rsi. split; [exact Hrun|]. apply Hzero. exact Hsorted.
Qed.

Lemma refresh_rsi_without_losses_witness :
  exists rsi,
    _refresh_rsi 0 2 [1; 2; 3; 4]%Q = Ret rsi /\
    Forall (fun v => v == 0)%Q rsi.
Proof.
  apply (refresh_rsi_without_losses 0 2 [1; 2; 3; 4]%Q); [lia|].
  intros j a b Ha Hb.
  destruct j as [|[|[|j]]]; cbn in Ha, Hb; try discriminate;
    injection Ha as <-; injection Hb as <-; vm_compute; discriminate.
Defined.

(** ** Slopes, curvature and the exponential average *)

Lemma Qdiv_nonpos (x y : Q) : (x <= 0)%Q -> (0 < y)%Q -> (x / y <= 0)%Q.
Proof. intros Hx Hy. apply Qle_shift_div_r; [exact Hy|]. lra. Qed.

(** The loop of [norm_slope_avg] from the index [s] on, for a positive
    norm: it completes, and the sum keeps the sign of the steps. *)
Lemma slope_loop (source : list Q) (norm : Q) :
  (0 < norm)%Q ->
  forall n s acc,
    (1 <= s)%nat -> (s + n <= length source)%nat ->
    exists delta,
      rfold (fun delta x =>
               let* a := py_get source x in
               let* b := py_get source (x - 1) in
               let* step := py_div (a - b) norm in
               Ret (delta + step)%Q)
            (seq s n) acc = Ret delta /\
      (rising source -> (0 <= acc)%Q -> (0 <= delta)%Q) /\
      (falling source -> (acc <= 0)%Q -> (delta <= 0)%Q).
Proof.
  intros Hnorm. induction n as [|n IH]; intros s acc Hs Hlen; cbn [seq rfold].
  - exists acc. split; [reflexivity|]. split; intros _ H; exact H.
  - destruct (source !! s) as [x|] eqn:Hx; [|apply lookup_ge_None in Hx; lia].
    destruct (source !! (s - 1)%nat) as [a|] eqn:Ha;
      [|apply lookup_ge_None in Ha; lia].
    rewrite (py_get_Some _ _ _ Hx), (py_get_Some _ _ _ Ha). cbn [rbind].
    rewrite py_div_ret by lra. cbn [rbind].
    destruct (IH (S s) (acc + (x - a) / norm)%Q) as (delta & Hrun & Hup & Hdown);
      [lia|lia|].
    exists delta. split; [exact Hrun|].
    assert (Hx' : source !! S (s - 1) = Some x) by (rewrite <- Hx; f_equal; lia).
    split.
    + intros Hr Hacc. apply Hup; [exact Hr|].
      pose proof (Hr _ _ _ Ha Hx') as Hle.
      pose proof (Qdiv_nonneg (x - a) norm ltac:(lra) Hnorm). lra.
    + intros Hf Hacc. apply Hdown; [exact Hf|].
      pose proof (Hf _ _ _ Ha Hx') as Hle.
      pose proof (Qdiv_nonpos (x - a) norm ltac:(lra) Hnorm). lra.
Qed.

Lemma norm_slope_avg_given (source : list Q) (norm : Q) :
  (0 < norm)%Q ->
  exists v,
    norm_slope_avg source (Some norm) = Ret v /\
    (rising source -> (0 <= v)%Q) /\
    (falling source -> (v <= 0)%Q).
Proof.
  intros Hnorm. unfold norm_slope_avg. cbn [rbind].
  destruct (decide (length source = 0%nat)) as [Hempty|Hsome].
  { rewrite Hempty. cbn. exists 0%Q. split; [reflexivity|]. split; intros _; lra. }
  destruct (slope_loop source norm Hnorm (length source - 1) 1 0%Q)
    as (delta & Hrun & Hup & Hdown); [lia|lia|].
  rewrite Hrun. cbn [rbind].
  destruct (1 <? length source)%nat eqn:E.
  - apply Nat.ltb_lt in E.
    assert (Hq : (1 <= inject_Z (Z.of_nat (length source) - 1))%Q).
    { change 1%Q with (inject_Z 1). rewrite <- Zle_Qle. lia. }
    rewrite py_div_ret by lra. eexists. split; [reflexivity|]. split.
    + intros Hr. apply Qdiv_nonneg; [apply Hup; [exact Hr|lra]|lra].
    + intros Hf. apply Qdiv_nonpos; [apply Hdown; [exact Hf|lra]|lra].
  - exists delta. split; [reflexivity|]. split.
    + intros Hr. apply Hup; [exact Hr|lra].
    + intros Hf. apply Hdown; [exact Hf|lra].
Qed.

(** X14 ([common.math.norm_slope_avg]).  With a positive norm (the one
    given or, without one, the first value of the source) the function
    returns, and the slope has the sign of the steps: it is not negative for
    a source that never falls and not positive for a source that never
    rises. *)
Theorem norm_slope_avg_sign (source : list Q) (norm : option Q) (positive : Q) :
  norm = Some positive \/ (norm = None /\ head source = Some positive) ->
  (0 < positive)%Q ->
  exists v,
    norm_slope_avg source norm = Ret v /\
    (rising source -> (0 <= v)%Q) /\
    (falling source -> (v <= 0)%Q).
Proof.
  intros Hn Hpos.
  destruct (norm_slope_avg_given source positive Hpos) as (v & Hrun & Hv).
  exists v. split; [|exact Hv].
  destruct Hn as [->|[-> Hhead]]; [exact Hrun|].
  unfold norm_slope_avg in *. rewrite head_lookup in Hhead.
  rewrite (py_get_Some _ _ _ Hhead). exact Hrun.
Qed.

Lemma norm_slope_avg_sign_witness :
  exists v,
    norm_slope_avg [2; 5; 5; 8]%Q None = Ret v /\ (0 <= v)%Q.
Proof.
  destruct (norm_slope_avg_sign [2; 5; 5; 8]%Q None 2
              (or_intror (conj eq_refl eq_refl)) ltac:(reflexivity))
    as (v & Hrun & Hup & _).
  exists v. split; [exact Hrun|]. apply Hup.
  intros i a b Ha Hb.
  destruct i as [|[|[|[|i]]]]; cbn in Ha, Hb; try discriminate;
    injection Ha as <-; injection Hb as <-; vm_compute; discriminate.
Defined.

(** X15 ([common.math.curvature_avg]).  With a positive norm (the one
    given or, without one, the first value of the source) the function
    returns the slope of the second half of the source minus the slope of
    the first half, the halves being split at [len(source) // 2]: the result
    is not negative when the first half never rises and the second never
    falls, and not positive when the first half never falls and the second
    never rises. *)
Theorem curvature_avg_sign (source : list Q) (norm : option Q) (positive : Q) :
  norm = Some positive \/ (norm = None /\ head source = Some positive) ->
  (0 < positive)%Q ->
  let split := (length source / 2)%nat in
  exists v slope_1 slope_2,
    curvature_avg source norm = Ret v /\
    norm_slope_avg (take split source) (Some positive) = Ret slope_1 /\
    norm_slope_avg (drop split source) (Some positive) = Ret slope_2 /\
    v = (slope_2 - slope_1)%Q /\
    (falling (take split source) -> rising (drop split source) -> (0 <= v)%Q) /\
    (rising (take split source) -> falling (drop split source) -> (v <= 0)%Q).
Proof.
  intros Hn Hpos split.
  destruct (norm_slope_avg_given (take split source) positive Hpos)
    as (s1 & Hs1 & Hup1 & Hdown1).
  destruct (norm_slope_avg_given (drop split source) positive Hpos)
    as (s2 & Hs2 & Hup2 & Hdown2).
  exists (s2 - s1)%Q, s1, s2.
  split; [|split; [exact Hs1|split; [exact Hs2|split; [reflexivity|]]]].
  - unfold curvature_avg. fold split.
    assert (Hnorm : (match norm with Some norm => Ret norm | None => py_get source 0 end)
                    = Ret positive).
    { destruct Hn as [->|[-> Hhead]]; [reflexivity|].
      rewrite head_lookup in Hhead. exact (py_get_Some _ _ _ Hhead). }
    rewrite Hnorm. cbn [rbind]. rewrite Hs1. cbn [rbind]. rewrite Hs2. reflexivity.
  - split.
    + intros Hf Hr. specialize (Hdown1 Hf). specialize (Hup2 Hr). lra.
    + intros Hr Hf. specialize (Hup1 Hr). specialize (Hdown2 Hf). lra.
Qed.

Lemma curvature_avg_sign_witness :
  exists v, curvature_avg [5; 3; 2; 4; 7]%Q None = Ret v /\ (0 <= v)%Q.
Proof.
  destruct (curvature_avg_sign [5; 3; 2; 4; 7]%Q None 5
              (or_intror (conj eq_refl eq_refl)) ltac:(reflexivity))
    as (v & s1 & s2 & Hrun & _ & _ & _ & Hup & _).
  exists v. split; [exact Hrun|]. apply Hup.
  - intros i a b Ha Hb.
    destruct i as [|[|i]]; cbn in Ha, Hb; try discriminate;
      injection Ha as <-; injection Hb as <-; vm_compute; discriminate.
  - intros i a b Ha Hb.
    destruct i as [|[|[|i]]]; cbn in Ha, Hb; try discriminate;
      injection Ha as <-; injection Hb as <-; vm_compute; discriminate.
Defined.

Lemma smoothing_nonneg (c : Q) (l : list Q) :
  (0 <= c)%Q -> (c <= 1)%Q ->
  Forall (fun v => 0 <= v)%Q l ->
  forall seed, (0 <= seed)%Q ->
    (0 <= fold_left (fun current_ema value => c * value + (1 - c) * current_ema) l seed)%Q.
Proof.
  intros Hc0 Hc1 H. induction H as [|x l Hx _ IH]; intros seed Hs;
    cbn [fold_left]; [assumption|].
  apply IH. nra.
Qed.

Lemma exponential_average_nonneg (source : list Q) (w i : nat) :
  (1 <= w)%nat -> (w * 2 <= i)%nat -> (i <= length source)%nat ->
  exists v, exponential_average source w (Z.of_nat i) = Ret v /\
            (Forall (fun x => 0 <= x)%Q source -> (0 <= v)%Q).
Proof.
  intros Hw Hi Hlen. unfold exponential_average.
  assert (Hq : (1 <= inject_Z (Z.of_nat w))%Q).
  { change 1%Q with (inject_Z 1). rewrite <- Zle_Qle. lia. }
  rewrite py_div_ret by lra. cbn [rbind]. eexists. split; [reflexivity|].
  intros Hb.
  replace (Z.of_nat i - Z.of_nat w * 2) with (Z.of_nat (i - w) - Z.of_nat w) by lia.
  replace (Z.of_nat i - Z.of_nat w) with (Z.of_nat (i - w)) by lia.
  rewrite py_slice_window by lia.
  replace (Z.of_nat (i - w)) with (Z.of_nat i - Z.of_nat w) by lia.
  rewrite py_slice_window by lia.
  apply smoothing_nonneg.
  - apply Qdiv_nonneg; [lra|]. rewrite inject_Z_plus. change (inject_Z 1) with 1%Q. lra.
  - apply Qle_shift_div_r.
    + rewrite inject_Z_plus. change (inject_Z 1) with 1%Q. lra.
    + rewrite inject_Z_plus. change (inject_Z 1) with 1%Q. lra.
  - apply Forall_take, Forall_drop. exact Hb.
  - apply Qdiv_nonneg; [|lra].
    apply py_sum_nonneg. apply Forall_take, Forall_drop. exact Hb.
Qed.

Lemma ema_fill (source : list Q) (w : nat) :
  (1 <= w)%nat ->
  forall n s acc,
    (w * 2 <= s)%nat -> (s + n <= length source)%nat -> length acc = length source ->
    exists result,
      rfold (fun result source_index =>
               let* current_ema := exponential_average source w (Z.of_nat source_index) in
               if (source_index <? length result)%nat
               then Ret (<[source_index := current_ema]> result)
               else Raise IndexError)
            (seq s n) acc = Ret result /\
      length result = length acc /\
      (forall i, (i < s)%nat \/ (s + n <= i)%nat -> result !! i = acc !! i) /\
      (forall i, (s <= i < s + n)%nat ->
                 exists v, result !! i = Some v /\
                           exponential_average source w (Z.of_nat i) = Ret v /\
                           (Forall (fun x => 0 <= x)%Q source -> (0 <= v)%Q)).
Proof.
  intros Hw. induction n as [|n IH]; intros s acc Hs Hlen Hacc; cbn [seq rfold].
  - exists acc. repeat split; auto. intros i Hi. lia.
  - destruct (exponential_average_nonneg source w s Hw Hs ltac:(lia))
      as (v & Hv & Hpos).
    rewrite Hv. cbn [rbind].
    replace (s <? length acc)%nat with true by (symmetry; apply Nat.ltb_lt; lia).
    destruct (IH (S s) (<[s := v]> acc)) as (result & Hrun & Hl & Hout & Hin);
      [lia|lia|rewrite length_insert; exact Hacc|].
    exists result. split; [exact Hrun|].
    split; [rewrite Hl; apply length_insert|]. split.
    + intros i Hi. rewrite Hout by lia. apply list_lookup_insert_ne. lia.
    + intros i Hi. destruct (decide (i = s)) as [->|Hne].
      * exists v. rewrite Hout by lia.
        rewrite list_lookup_insert_eq by lia. auto.
      * apply Hin. lia.
Qed.

(** X16 ([common.math.ar_exponential_moving_average]).  With a window of
    at least one the exponential moving average returns an array as long as
    the source, 0 at the indexes before twice the window, and at every later
    index the value of the window computation at that index, which is not
    negative when no value of the source is. *)
Theorem exponential_moving_average_nonneg (source : list Q) (window_size : nat) :
  (1 <= window_size)%nat ->
  exists result,
    ar_exponential_moving_average source window_size = Ret result /\
    length result = length source /\
    (forall i, (i < window_size * 2)%nat -> (i < length source)%nat ->
               result !! i = Some 0%Q) /\
    (forall i, (window_size * 2 <= i < length source)%nat ->
               exists v, result !! i = Some v /\
                         exponential_average source window_size (Z.of_nat i) = Ret v /\
                         (Forall (fun x => 0 <= x)%Q source -> (0 <= v)%Q)).
Proof.
  intros Hw. unfold ar_exponential_moving_average.
  destruct (le_lt_dec (window_size * 2) (length source)) as [Hle|Hgt].
  - destruct (ema_fill source window_size Hw
                (length source - window_size * 2) (window_size * 2)
                (replicate (length source) 0%Q))
      as (result & Hrun & Hl & Hout & Hin);
      [lia|lia|apply length_replicate|].
    exists result. split; [exact Hrun|].
    split; [rewrite Hl; apply length_replicate|]. split.
    + intros i Hi Hlen. rewrite Hout by lia. apply lookup_replicate_2. exact Hlen.
    + intros i Hi. apply Hin. lia.
  - replace (length source - window_size * 2)%nat with 0%nat by lia.
    cbn [seq rfold]. eexists. split; [reflexivity|].
    split; [apply length_replicate|]. split.
    + intros i Hi Hlen. apply lookup_replicate_2. exact Hlen.
    + intros i Hi. lia.
Qed.

Lemma exponential_moving_average_nonneg_witness :
  exists result,
    ar_exponential_moving_average [4; 6; 5; 7; 4; 6]%Q 2 = Ret result /\
    length result = 6%nat /\
    (forall i, (i < 4)%nat -> (i < 6)%nat -> result !! i = Some 0%Q) /\
    (forall i, (4 <= i < 6)%nat -> exists v, result !! i = Some v /\ (0 <= v)%Q).
Proof.
  destruct (exponential_moving_average_nonneg [4; 6; 5; 7; 4; 6]%Q 2 ltac:(lia))
    as (result & Hrun & Hlen & Hzero & Hin).
  exists result. split; [exact Hrun|]. split; [exact Hlen|]. split; [exact Hzero|].
  intros i Hi. destruct (Hin i Hi) as (v & Hv & _ & Hpos).
  exists v. split; [exact Hv|]. apply Hpos.
  repeat constructor; vm_compute; discriminate.
Defined.

(** ** The incremental exponential average *)

Lemma update_emas_loop (source full : list Q) (w : nat) :
  forall n s ema,
    (forall i, (s <= i < s + n)%nat ->
       exists v, full !! i = Some v /\ exponential_average source w (Z.of_nat i) = Ret v) ->
    rfold (fun ema index =>
             let* current_ema := exponential_average source w index in
             Ret (ema ++ [current_ema]))
          (map (fun k => Z.of_nat s + Z.of_nat k) (seq 0 n)) ema
    = Ret (ema ++ take n (drop s full)).
Proof.
  induction n as [|n IH]; intros s ema Hfull; cbn [seq map rfold].
  - rewrite take_0, app_nil_r. reflexivity.
  - destruct (Hfull s ltac:(lia)) as (v & Hv & He).
    rewrite Z.add_0_r, He. cbn [rbind].
    rewrite <- seq_shift, map_map.
    rewrite (map_ext _ (fun k => Z.of_nat (S s) + Z.of_nat k)) by (intros k; lia).
    rewrite IH by (intros i Hi; apply Hfull; lia).
    rewrite (drop_S _ _ _ Hv), firstn_cons, <- app_assoc. reflexivity.
Qed.

Lemma exponential_average_ret (source : list Q) (w : nat) (index : Z) :
  (1 <= w)%nat -> exists v, exponential_average source w index = Ret v.
Proof.
  intros Hw. unfold exponential_average.
  assert (Hq : (1 <= inject_Z (Z.of_nat w))%Q).
  { change 1%Q with (inject_Z 1). rewrite <- Zle_Qle. lia. }
  rewrite py_div_ret by lra. cbn [rbind]. eexists. reflexivity.
Qed.

Lemma ema_loop_keeps (source : list Q) (w : nat) :
  forall n s acc result m x,
    rfold (fun result source_index =>
             let* current_ema := exponential_average source w (Z.of_nat source_index) in
             if (source_index <? length result)%nat
             then Ret (<[source_index := current_ema]> result)
             else Raise IndexError)
          (seq s n) acc = Ret result ->
    (m < s)%nat -> acc !! m = Some x -> result !! m = Some x.
Proof.
  induction n as [|n IH]; intros s acc result m x Hrun Hm Hx; cbn [seq rfold] in Hrun.
  - injection Hrun as <-. exact Hx.
  - apply rbind_ret in Hrun as (acc1 & Hstep & Hrun).
    apply rbind_ret in Hstep as (v & _ & Hstep).
    destruct (s <? length acc)%nat; [|discriminate].
    injection Hstep as <-.
    apply (IH (S s) _ _ m x Hrun); [lia|].
    rewrite list_lookup_insert_ne by lia. exact Hx.
Qed.

Lemma ema_fill_values (source : list Q) (w : nat) :
  (1 <= w)%nat ->
  forall n s acc,
    (s + n <= length acc)%nat ->
    exists result,
      rfold (fun result source_index =>
               let* current_ema := exponential_average source w (Z.of_nat source_index) in
               if (source_index <? length result)%nat
               then Ret (<[source_index := current_ema]> result)
               else Raise IndexError)
            (seq s n) acc = Ret result /\
      length result = length acc /\
      (forall i, (s <= i < s + n)%nat ->
                 exists v, result !! i = Some v /\
                           exponential_average source w (Z.of_nat i) = Ret v).
Proof.
  intros Hw. induction n as [|n IH]; intros s acc Hacc; cbn [seq rfold].
  - exists acc. repeat split; auto. intros i Hi. lia.
  - destruct (exponential_average_ret source w (Z.of_nat s) Hw) as (v & Hv).
    rewrite Hv. cbn [rbind].
    replace (s <? length acc)%nat with true by (symmetry; apply Nat.ltb_lt; lia).
    destruct (IH (S s) (<[s := v]> acc)) as (result & Hrun & Hl & Hin);
      [rewrite length_insert; lia|].
    exists result. split; [exact Hrun|].
    split; [rewrite Hl; apply length_insert|].
    intros i Hi. destruct (decide (i = s)) as [->|Hne].
    + exists v. split; [|exact Hv].
      apply (ema_loop_keeps source w n (S s) _ _ s v Hrun); [lia|].
      apply list_lookup_insert_eq. lia.
    + apply Hin. lia.
Qed.

(** X17 ([update_emas], [ar_exponential_moving_average]).  With a window
    of at least one, once the source holds twice the window before the ticks
    of the update, the incremental update appends for each new tick the value
    the full computation has at that index: updating and refreshing agree.
    The stored average is then cut to its last [min_tick_length] entries when
    it has grown more than 60 beyond that. *)
Theorem update_emas_agrees_with_refresh (min_tick_length : nat) (num : nat)
    (source ema : list Q) (window : nat) :
  (1 <= window)%nat ->
  (window * 2 + num <= length source)%nat ->
  exists full,
    ar_exponential_moving_average source window = Ret full /\
    length full = length source /\
    let appended := ema ++ drop (length source - num) full in
    let truncate := Z.of_nat (length appended) - Z.of_nat min_tick_length in
    update_emas_window min_tick_length (Z.of_nat num) source ema window
    = Ret (if truncate >? 60 then drop (Z.to_nat truncate) appended else appended).
Proof.
  intros Hw Hlen. unfold ar_exponential_moving_average.
  destruct (ema_fill_values source window Hw (length source - window * 2) (window * 2)
              (replicate (length source) 0%Q))
    as (full & Hrun & Hl & Hin); [rewrite length_replicate; lia|].
  rewrite length_replicate in Hl.
  exists full. split; [exact Hrun|]. split; [exact Hl|]. cbn zeta.
  unfold update_emas_window, py_range.
  replace (Z.to_nat (Z.of_nat (length source)
                     - (Z.of_nat (length source) - Z.of_nat num))) with num by lia.
  rewrite (map_ext _ (fun k => Z.of_nat (length source - num) + Z.of_nat k))
    by (intros k; lia).
  rewrite (update_emas_loop source full window num (length source - num) ema)
    by (intros i Hi; apply Hin; lia).
  cbn [rbind].
  rewrite (take_ge (drop (length source - num) full)) by (rewrite length_drop; lia).
  reflexivity.
Qed.

Lemma update_emas_agrees_with_refresh_witness :
  exists full,
    ar_exponential_moving_average [4; 6; 5; 7; 4; 6]%Q 2 = Ret full /\
    length full = 6%nat /\
    update_emas_window 100 2 [4; 6; 5; 7; 4; 6]%Q [] 2 = Ret (drop 4 full).
Proof.
  destruct (update_emas_agrees_with_refresh 100 2 [4; 6; 5; 7; 4; 6]%Q [] 2)
    as (full & Hrun & Hlen & Hupd); [lia|cbn; lia|].
  exists full. split; [exact Hrun|]. split; [exact Hlen|].
  cbn zeta in Hupd. cbn [app length] in Hupd.
  rewrite length_drop, Hlen in Hupd. exact Hupd.
Defined.

(** ** The update of the triggers *)

Lemma alist_lookup_None_iff {V : Type} (k : string) (l : list (string * V)) :
  alist_lookup k l = None <-> ~ In k (map fst l).
Proof.
  induction l as [|[k0 v0] l IH]; cbn [alist_lookup map fst In].
  - split; [intros _ []|reflexivity].
  - destruct (decide (k0 = k)) as [->|Hne].
    + split; [discriminate|]. intros H. exfalso. apply H. left. reflexivity.
    + rewrite IH. split; [intros H [Heq|Hin]; [congruence|auto]|auto].
Qed.

Lemma update_condition_total cfg mkt triggers cache name idx rules now :
  py_last (m_close_times mkt) = Ret now ->
  exists t cache',
    update_condition cfg mkt triggers cache name idx rules = Ret (t, cache') /\
    (t_set t = false -> t_time t = now).
Proof.
  intros Hnow. unfold update_condition.
  destruct (get_detection_trigger_total cfg mkt triggers cache name idx rules now Hnow)
    as (test & cache' & -> & Htime).
  cbn [rbind]. destruct (old_trigger triggers name idx) as [old|].
  - destruct (t_set old) eqn:Hold.
    + eexists _, _. split; [reflexivity|].
      destruct (t_set test); cbn; [intros _; exact Htime|congruence].
    + eexists _, _. split; [reflexivity|]. intros _. exact Htime.
  - eexists _, _. split; [reflexivity|]. intros _. exact Htime.
Qed.

Lemma update_conditions_total cfg mkt triggers name now conds :
  py_last (m_close_times mkt) = Ret now ->
  forall idx acc cache,
    Forall (fun t => t_set t = false -> t_time t = now) acc ->
    exists ts cache',
      update_conditions cfg mkt triggers name idx conds acc cache = Ret (ts, cache') /\
      length ts = (length acc + length conds)%nat /\
      Forall (fun t => t_set t = false -> t_time t = now) ts.
Proof.
  intros Hnow. induction conds as [|rules conds IH]; intros idx acc cache Hacc;
    cbn [update_conditions].
  - eexists _, _. split; [reflexivity|]. split; [cbn; lia|exact Hacc].
  - destruct (update_condition_total cfg mkt triggers cache name idx rules now Hnow)
      as (t & cache1 & -> & Ht).
    cbn [rbind].
    destruct (IH (S idx) (acc ++ [t]) cache1) as (ts & cache' & Hrun & Hlen & Hts).
    { apply Forall_app. split; [exact Hacc|]. constructor; [exact Ht|constructor]. }
    eexists _, _. split; [exact Hrun|]. split; [|exact Hts].
    rewrite Hlen, length_app. cbn. lia.
Qed.

Lemma update_detections_total cfg mkt triggers now dets :
  py_last (m_close_times mkt) = Ret now ->
  NoDup (map fst dets) ->
  forall acc cache,
    exists acc' cache',
      update_detections cfg mkt triggers dets acc cache = Ret (acc', cache') /\
      (forall n, ~ In n (map fst dets) -> alist_lookup n acc' = alist_lookup n acc) /\
      (forall n det, alist_lookup n dets = Some det ->
         exists ts, alist_lookup n acc' = Some ts /\
                    length ts = length (conditions det) /\
                    Forall (fun t => t_set t = false -> t_time t = now) ts).
Proof.
  intros Hnow. induction dets as [|[name det] dets IH]; intros Hnd acc cache;
    cbn [update_detections].
  - eexists _, _. split; [reflexivity|]. split; [auto|]. intros n det H. discriminate.
  - cbn [map fst] in Hnd. apply NoDup_cons in Hnd as [Hfresh Hnd].
    destruct (update_conditions_total cfg mkt triggers name now (conditions det) Hnow
                0%nat [] cache (Forall_nil_2 _))
      as (ts & cache1 & -> & Hlen & Hts).
    cbn [rbind].
    destruct (IH Hnd (alist_set name ts acc) cache1)
      as (acc' & cache' & Hrun & Hout & Hin).
    eexists _, _. split; [exact Hrun|]. split.
    + intros n Hn. cbn [map fst In] in Hn. rewrite Hout by tauto.
      apply alist_lookup_set_ne. tauto.
    + intros n d Hl. cbn [alist_lookup] in Hl.
      destruct (decide (name = n)) as [->|Hne].
      * injection Hl as <-. exists ts. rewrite Hout.
        -- split; [apply alist_lookup_set_eq|]. split; [exact Hlen|exact Hts].
        -- intros Hc. apply Hfresh. apply list_elem_of_In. exact Hc.
      * apply Hin. exact Hl.
Qed.

(** X18 ([update_detection_triggers], [_get_detection_trigger]).  For a
    market that has a tick the update returns, whatever the rules and the
    moving averages: an invalid rule or a missing average is skipped, not
    raised.  The stored triggers are rebuilt from the configuration: each
    configured detection has one trigger for each of its conditions, a
    detection that is not configured has none, and a trigger that is not set
    always carries the time of the current tick.  The counters, the last
    detections and the events are left as they are. *)
Theorem update_detection_triggers_rebuilds (cfg : DetectorConfig) (mkt : Market)
    (st : Detector) (now : Q) :
  last (m_close_times mkt) = Some now ->
  NoDup (map fst (detections cfg)) ->
  exists st',
    update_detection_triggers cfg mkt st = Ret st' /\
    last_update_time st' = now /\
    detection_states st' = detection_states st /\
    detection_stats st' = detection_stats st /\
    last_detections st' = last_detections st /\
    events st' = events st /\
    (forall name det, alist_lookup name (detections cfg) = Some det ->
       exists ts, alist_lookup name (detection_triggers st') = Some ts /\
                  length ts = length (conditions det) /\
                  Forall (fun t => t_set t = false -> t_time t = now) ts) /\
    (forall name, alist_lookup name (detections cfg) = None ->
       alist_lookup name (detection_triggers st') = None).
Proof.
  intros Hlast Hnd. apply py_last_Some in Hlast.
  unfold update_detection_triggers.
  destruct (update_detections_total cfg mkt (detection_triggers st) now (detections cfg)
              Hlast Hnd [] [])
    as (acc' & cache' & -> & Hout & Hin).
  cbn [rbind]. rewrite Hlast. cbn [rbind]. eexists. split; [reflexivity|].
  cbn. repeat (split; [reflexivity|]). split; [exact Hin|].
  intros name Hnone. rewrite Hout; [reflexivity|].
  apply alist_lookup_None_iff. exact Hnone.
Qed.

Lemma update_detection_triggers_rebuilds_witness :
  exists st',
    update_detection_triggers second_config crash_market both_set = Ret st' /\
    last_update_time st' = 120%Q /\
    events st' = events both_set /\
    (exists ts, alist_lookup "rebound" (detection_triggers st') = Some ts /\
                length ts = 1%nat) /\
    alist_lookup "other" (detection_triggers st') = None.
Proof.
  destruct (update_detection_triggers_rebuilds second_config crash_market both_set 120)
    as (st' & Hrun & Htime & _ & _ & _ & Hev & Hin & Hout).
  - reflexivity.
  - apply (bool_decide_unpack _). vm_compute. exact I.
  - exists st'. split; [exact Hrun|]. split; [exact Htime|]. split; [exact Hev|].
    split.
    + destruct (Hin "rebound" buy_on_position eq_refl) as (ts & Hl & Hlen & _).
      exists ts. split; [exact Hl|exact Hlen].
    + apply Hout. reflexivity.
Defined.

Lemma check_rule_skipped cfg mkt triggers cache rule idx name e :
  alist_lookup rule cache = None ->
  rule_averages cfg mkt rule = Raise e ->
  check_rule cfg mkt triggers cache rule idx name = Ret (None, no_meta, cache) \/
  check_rule cfg mkt triggers cache rule idx name = Raise KeyError.
Proof.
  intros Hc Hr. destruct rule as [ema a b|ema a b]; cbn [check_rule rule_averages] in *.
  - unfold _check_ma_position. rewrite Hc, Hr.
    apply rule_mas_exn in Hr as [-> | ->]; auto.
  - unfold _check_ma_crossover. rewrite Hc, Hr.
    apply rule_mas_exn in Hr as [-> | ->]; auto.
Qed.

Lemma check_rules_skipped cfg mkt triggers idx name rules :
  forall states values positions cache,
    Forall (fun rule => alist_lookup rule cache = None /\
                        exists e, rule_averages cfg mkt rule = Raise e) rules ->
    check_rules cfg mkt triggers idx name rules states values positions cache
    = Ret (states, values, positions, cache).
Proof.
  induction rules as [|rule rules IH]; intros states values positions cache H;
    cbn [check_rules]; [reflexivity|].
  apply Forall_cons in H as [[Hc [e He]] H].
  destruct (check_rule_skipped cfg mkt triggers cache rule idx name e Hc He) as [-> | ->];
    apply IH; exact H.
Qed.

(** X19 ([_get_detection_trigger], [update_detection_triggers]).  A
    condition none of whose rules can be evaluated, because a rule names a
    window index that is not configured or a moving average that the market
    does not have, is not an error: every such rule is skipped, and since no
    state is collected the trigger of the condition is set, with no values
    recorded.  The update stores a set trigger for it. *)
Theorem unevaluated_rules_set_trigger (cfg : DetectorConfig) (mkt : Market)
    (triggers : list (string * list Trigger)) (cache : list (Rule * (bool * Meta)))
    (detection_name : string) (condition_index : nat) (rules : list Rule) (now : Q) :
  last (m_close_times mkt) = Some now ->
  Forall (fun rule => alist_lookup rule cache = None /\
                      exists e, rule_averages cfg mkt rule = Raise e) rules ->
  _get_detection_trigger cfg mkt triggers cache detection_name condition_index rules
  = Ret ({| t_time := now; t_set := true; t_ma_values := []; t_ma_positions := [];
            t_ma_norm_distances := [] |}, cache) /\
  exists trigger,
    update_condition cfg mkt triggers cache detection_name condition_index rules
    = Ret (trigger, cache) /\
    t_set trigger = true.
Proof.
  intros Hlast Hrules. apply py_last_Some in Hlast.
  assert (Hget : _get_detection_trigger cfg mkt triggers cache detection_name
                   condition_index rules
                 = Ret ({| t_time := now; t_set := true; t_ma_values := [];
                           t_ma_positions := []; t_ma_norm_distances := [] |}, cache)).
  { unfold _get_detection_trigger. rewrite Hlast. cbn [rbind].
    rewrite (check_rules_skipped _ _ _ _ _ _ [] [] [] cache Hrules). reflexivity. }
  split; [exact Hget|]. unfold update_condition. rewrite Hget. cbn [rbind].
  destruct (old_trigger triggers detection_name condition_index) as [old|].
  - destruct (t_set old) eqn:Hold; eexists; (split; [reflexivity|]); [exact Hold|reflexivity].
  - eexists. split; reflexivity.
Qed.

Lemma unevaluated_rules_set_trigger_witness :
  exists trigger,
    update_condition crash_config crash_market [] [] "breakout" 0
      [ma_position false 0 7; ma_crossover true 0 1]
    = Ret (trigger, []) /\
    t_set trigger = true.
Proof.
  destruct (unevaluated_rules_set_trigger crash_config crash_market [] [] "breakout" 0
              [ma_position false 0 7; ma_crossover true 0 1] 120)
    as [_ H]; [reflexivity| |exact H].
  repeat constructor; eexists; reflexivity.
Defined.

(** ** Counters: occurrences and consecutive detections *)

Lemma update_detection_stats_ret cfg mkt st name ty count now value :
  detection_stats st !! name = Some count ->
  last (m_close_times mkt) = Some now ->
  last (m_adjusted_close_values mkt) = Some value ->
  exists st',
    _update_detection_stats cfg mkt st name ty = Ret st' /\
    detection_states st' = detection_states st /\
    detection_stats st' = <[name := count + 1]> (detection_stats st).
Proof.
  intros Hc Hn Hv. unfold _update_detection_stats.
  rewrite Hc, (py_last_Some _ _ Hn), (py_last_Some _ _ Hv). cbn [py_key rbind].
  eexists. split; [reflexivity|]. split; reflexivity.
Qed.

Lemma occurrence_calls_S cfg mkt name params calls st :
  occurrence_calls cfg mkt name params (S calls) st
  = let* (vetoed, st') := _detection_filter_occurrence cfg mkt st name params in
    let* (verdicts, st'') := occurrence_calls cfg mkt name params calls st' in
    Ret (vetoed :: verdicts, st'').
Proof. reflexivity. Qed.

Lemma occurrence_calls_count cfg mkt name params wanted now value :
  occurrence params = Some wanted ->
  last (m_close_times mkt) = Some now ->
  last (m_adjusted_close_values mkt) = Some value ->
  forall k st c count,
    detection_states st !! name = Some c ->
    detection_stats st !! name = Some count ->
    c + Z.of_nat k + 1 = wanted ->
    exists st',
      occurrence_calls cfg mkt name params (S k) st
      = Ret (replicate k true ++ [false], st') /\
      detection_states st' !! name = Some 0 /\
      detection_stats st' !! name = Some (count + Z.of_nat k).
Proof.
  intros Hocc Hn Hv. induction k as [|k IH]; intros st c count Hc Hs Hw;
    rewrite occurrence_calls_S; unfold _detection_filter_occurrence;
    rewrite Hc, Hocc; cbn [py_key rbind].
  - replace (c + 1 <? wanted) with false by (symmetry; apply Z.ltb_ge; lia).
    cbn [rbind replicate app occurrence_calls]. eexists. split; [reflexivity|].
    cbn [with_occurrence detection_states detection_stats].
    rewrite lookup_insert_eq. split; [reflexivity|]. rewrite Hs. f_equal. lia.
  - replace (c + 1 <? wanted) with true by (symmetry; apply Z.ltb_lt; lia).
    destruct (update_detection_stats_ret cfg mkt (with_occurrence st name (c + 1)) name
                (Some "skip") count now value Hs Hn Hv)
      as (st2 & -> & Hstates & Hstats).
    cbn [rbind].
    destruct (IH st2 (c + 1) (count + 1)) as (st' & Hrun & Hc' & Hs').
    + rewrite Hstates. cbn [with_occurrence detection_states]. apply lookup_insert_eq.
    + rewrite Hstats. apply lookup_insert_eq.
    + lia.
    + rewrite Hrun. cbn [rbind replicate app]. exists st'.
      split; [reflexivity|]. split; [exact Hc'|]. rewrite Hs'. f_equal. lia.
Qed.

(** X20 ([_detection_filter_occurrence], [_update_detection_stats]).  For a
    detection that must occur [wanted] times, with its occurrence counter at
    0, of [wanted] successive calls of the occurrence filter the first
    [wanted - 1] veto and the last one permits: the filter lets exactly every
    [wanted]-th call through.  After the last call the counter is 0 again,
    and each vetoed call has been counted in the statistics of the
    detection. *)
Theorem occurrence_filter_counts (cfg : DetectorConfig) (mkt : Market)
    (detection_name : string) (params : Detection) (st : Detector)
    (wanted count : Z) (now value : Q) :
  occurrence params = Some wanted ->
  1 <= wanted ->
  detection_states st !! detection_name = Some 0 ->
  detection_stats st !! detection_name = Some count ->
  last (m_close_times mkt) = Some now ->
  last (m_adjusted_close_values mkt) = Some value ->
  exists st',
    occurrence_calls cfg mkt detection_name params (Z.to_nat wanted) st
    = Ret (replicate (Z.to_nat wanted - 1) true ++ [false], st') /\
    detection_states st' !! detection_name = Some 0 /\
    detection_stats st' !! detection_name = Some (count + wanted - 1).
Proof.
  intros Hocc Hw Hc Hs Hn Hv.
  destruct (occurrence_calls_count cfg mkt detection_name params wanted now value
              Hocc Hn Hv (Z.to_nat wanted - 1) st 0 count Hc Hs ltac:(lia))
    as (st' & Hrun & Hc' & Hs').
  exists st'. replace (Z.to_nat wanted) with (S (Z.to_nat wanted - 1)) at 1 by lia.
  split; [exact Hrun|]. split; [exact Hc'|]. rewrite Hs'. f_equal. lia.
Qed.

Lemma occurrence_filter_counts_witness :
  exists st',
    occurrence_calls second_config crash_market "breakout" buy_on_second 2 both_set
    = Ret ([true; false], st') /\
    detection_states st' !! "breakout" = Some 0 /\
    detection_stats st' !! "breakout" = Some 1.
Proof.
  apply (occurrence_filter_counts second_config crash_market "breakout" buy_on_second
           both_set 2 0 120 40); try reflexivity. lia.
Defined.

Lemma update_last_detection_fields last name ty pty value ma now :
  let l := update_last_detection last name ty pty value ma now in
  ld_name l = name /\ ld_value l = value /\ ld_time l = now /\
  ld_count l = next_count last name.
Proof.
  unfold update_last_detection, next_count. destruct last as [l|]; cbn.
  - destruct (decide (ld_name l = name)) as [Heq|Hne]; cbn; auto.
  - auto.
Qed.

Lemma record_groups name ty pty value ma now (groups : list string) :
  NoDup groups ->
  forall lasts : gmap string LastDetection,
    let lasts' :=
      fold_left
        (fun lasts group =>
           <[group := update_last_detection (lasts !! group) name ty pty value ma now]>
             lasts)
        groups lasts in
    (forall g, In g groups ->
       lasts' !! g = Some (update_last_detection (lasts !! g) name ty pty value ma now)) /\
    (forall g, ~ In g groups -> lasts' !! g = lasts !! g).
Proof.
  induction 1 as [|group groups Hfresh Hnd IH]; intros lasts; cbn [fold_left].
  - split; [intros g []|reflexivity].
  - destruct (IH (<[group := update_last_detection (lasts !! group) name ty pty value
                               ma now]> lasts)) as [Hin Hout].
    split.
    + intros g [<-|Hg].
      * rewrite Hout by (intros Hc; apply Hfresh; apply list_elem_of_In; exact Hc).
        apply lookup_insert_eq.
      * rewrite (Hin g Hg). f_equal. f_equal. apply lookup_insert_ne.
        intros <-. apply Hfresh. apply list_elem_of_In. exact Hg.
    + intros g Hg. cbn [In] in Hg. rewrite Hout by tauto.
      apply lookup_insert_ne. tauto.
Qed.

Lemma update_detection_stats_spec cfg mkt st name ty count now value :
  detection_stats st !! name = Some count ->
  last (m_close_times mkt) = Some now ->
  last (m_adjusted_close_values mkt) = Some value ->
  NoDup (groups (get_detection cfg name)) ->
  exists st',
    _update_detection_stats cfg mkt st name ty = Ret st' /\
    detection_stats st' !! name = Some (count + 1) /\
    (forall g, In g (groups (get_detection cfg name)) ->
       exists l, last_detections st' !! g = Some l /\
                 ld_name l = name /\ ld_value l = value /\ ld_time l = now /\
                 ld_count l = next_count (last_detections st !! g) name) /\
    (forall g, ~ In g (groups (get_detection cfg name)) ->
       last_detections st' !! g = last_detections st !! g).
Proof.
  intros Hc Hn Hv Hnd. unfold _update_detection_stats.
  rewrite Hc, (py_last_Some _ _ Hn), (py_last_Some _ _ Hv). cbn [py_key rbind].
  eexists. split; [reflexivity|]. cbn [detection_stats last_detections].
  split; [apply lookup_insert_eq|].
  match goal with
  | |- context [fold_left _ _ (last_detections st)] =>
      match goal with
      | |- context [update_last_detection _ name ty ?pty value ?ma now] =>
          destruct (record_groups name ty pty value ma now _ Hnd (last_detections st))
            as [Hin Hout]
      end
  end.
  split; [|exact Hout].
  intros g Hg. eexists. split; [apply Hin; exact Hg|].
  apply update_last_detection_fields.
Qed.

(** X21 ([_update_detection_stats]).  Recording a detection, with data for
    the pair and a statistics entry for the detection, adds one to its
    statistics count and leaves in each of its groups a record with the name
    of the detection, the current value and the current time.  The count of
    the record is one more than before when the last detection of the group
    was the same detection, and 1 when it was another one or none; the
    records of the other groups, the statistics of the other detections, the
    occurrence counters, the stored triggers and the events are not
    touched. *)
Theorem update_detection_stats_counts (cfg : DetectorConfig) (mkt : Market)
    (st : Detector) (detection_name : string) (detection_type : option string)
    (count : Z) (now value : Q) :
  detection_stats st !! detection_name = Some count ->
  last (m_close_times mkt) = Some now ->
  last (m_adjusted_close_values mkt) = Some value ->
  NoDup (groups (get_detection cfg detection_name)) ->
  exists st',
    _update_detection_stats cfg mkt st detection_name detection_type = Ret st' /\
    detection_stats st' !! detection_name = Some (count + 1) /\
    (forall g, In g (groups (get_detection cfg detection_name)) ->
       exists l, last_detections st' !! g = Some l /\
                 ld_name l = detection_name /\ ld_value l = value /\ ld_time l = now /\
                 ld_count l = next_count (last_detections st !! g) detection_name) /\
    (forall g, ~ In g (groups (get_detection cfg detection_name)) ->
       last_detections st' !! g = last_detections st !! g) /\
    (forall other, other <> detection_name ->
       detection_stats st' !! other = detection_stats st !! other) /\
    detection_states st' = detection_states st /\
    detection_triggers st' = detection_triggers st /\
    events st' = events st.
Proof.
  intros Hc Hn Hv Hnd.
  destruct (update_detection_stats_spec cfg mkt st detection_name detection_type
              count now value Hc Hn Hv Hnd) as (st' & Hrun & Hs & Hin & Hout).
  destruct (update_detection_stats_ret cfg mkt st detection_name detection_type
              count now value Hc Hn Hv) as (st'' & Hrun' & Hstates & Hstats).
  assert (st'' = st') as -> by congruence.
  destruct (update_detection_stats_frame _ _ _ _ _ _ Hrun) as [Htr Hev].
  exists st'. split; [exact Hrun|]. split; [exact Hs|]. split; [exact Hin|].
  split; [exact Hout|]. split.
  - intros other Hne. rewrite Hstats. apply lookup_insert_ne. congruence.
  - auto.
Qed.

Lemma update_detection_stats_counts_witness :
  exists st',
    _update_detection_stats follow_config crash_market after_dip "exit" None = Ret st' /\
    detection_stats st' !! "exit" = Some 1 /\
    (exists l, last_detections st' !! "default" = Some l /\
               ld_name l = "exit" /\ ld_count l = 1) /\
    last_detections st' !! "dip" = last_detections after_dip !! "dip" /\
    events st' = events after_dip.
Proof.
  destruct (update_detection_stats_counts follow_config crash_market after_dip "exit"
              None 0 120 40) as (st' & Hrun & Hs & Hin & Hout & _ & _ & _ & Hev);
    try reflexivity.
  - apply (bool_decide_unpack _). vm_compute. exact I.
  - exists st'. split; [exact Hrun|]. split; [exact Hs|]. split; [|split; [|exact Hev]].
    + destruct (Hin "default") as (l & Hl & Hname & _ & _ & Hcount);
        [left; reflexivity|].
      exists l. auto.
    + apply Hout. intros [H|[]]. discriminate.
Defined.

Lemma detections_recorded_count cfg mkt name now value g rest :
  last (m_close_times mkt) = Some now ->
  last (m_adjusted_close_values mkt) = Some value ->
  groups (get_detection cfg name) = g :: rest ->
  NoDup (g :: rest) ->
  forall k st count,
    detection_stats st !! name = Some count ->
    exists st',
      detections_recorded cfg mkt name (S k) st = Ret st' /\
      detection_stats st' !! name = Some (count + Z.of_nat (S k)) /\
      exists l, last_detections st' !! g = Some l /\
                ld_count l = next_count (last_detections st !! g) name + Z.of_nat k.
Proof.
  intros Hn Hv Hg Hnd. induction k as [|k IH]; intros st count Hs.
  - cbn [detections_recorded].
    destruct (update_detection_stats_spec cfg mkt st name None count now value Hs Hn Hv)
      as (st' & -> & Hs' & Hin & _); [rewrite Hg; exact Hnd|].
    cbn [rbind]. exists st'. split; [reflexivity|]. split; [exact Hs'|].
    destruct (Hin g) as (l & Hl & _ & _ & _ & Hc); [rewrite Hg; left; reflexivity|].
    exists l. split; [exact Hl|]. rewrite Hc. cbn. lia.
  - change (detections_recorded cfg mkt name (S (S k)) st)
      with (let* st' := _update_detection_stats cfg mkt st name None in
            detections_recorded cfg mkt name (S k) st').
    destruct (update_detection_stats_spec cfg mkt st name None count now value Hs Hn Hv)
      as (st1 & -> & Hs1 & Hin & _); [rewrite Hg; exact Hnd|].
    cbn [rbind].
    destruct (IH st1 (count + 1) Hs1) as (st' & Hrun & Hs' & l & Hl & Hc).
    exists st'. split; [exact Hrun|]. split; [rewrite Hs'; f_equal; lia|].
    exists l. split; [exact Hl|]. rewrite Hc.
    destruct (Hin g) as (l1 & Hl1 & Hname & _ & _ & Hc1); [rewrite Hg; left; reflexivity|].
    rewrite Hl1. unfold next_count at 1. rewrite decide_True by exact Hname.
    rewrite Hc1. lia.
Qed.

(** X22 ([_detection_filter_consecutive], [_update_detection_stats]).  For a
    detection with [max_consecutive = m], recorded [k] times in a row after
    a detection of another name (or none) in its first group, the record of
    the group counts [k], and the consecutive filter vetoes exactly when [k]
    exceeds [m]: the count reaches [m + 1] before the filter first vetoes. *)
Theorem consecutive_filter_limit (cfg : DetectorConfig) (mkt : Market) (st : Detector)
    (detection_name : string) (g : string) (rest : list string) (m count : Z)
    (now value : Q) (k : nat) :
  groups (get_detection cfg detection_name) = g :: rest ->
  NoDup (g :: rest) ->
  max_consecutive (get_detection cfg detection_name) = Some m ->
  m <> 0 ->
  next_count (last_detections st !! g) detection_name = 1 ->
  detection_stats st !! detection_name = Some count ->
  last (m_close_times mkt) = Some now ->
  last (m_adjusted_close_values mkt) = Some value ->
  (1 <= k)%nat ->
  exists st' l,
    detections_recorded cfg mkt detection_name k st = Ret st' /\
    last_detections st' !! g = Some l /\
    ld_count l = Z.of_nat k /\
    _detection_filter_consecutive (get_detection cfg detection_name) st'
    = Ret (m <? Z.of_nat k).
Proof.
  intros Hg Hnd Hmax Hm Hfresh Hs Hn Hv Hk.
  destruct k as [|k]; [lia|].
  destruct (detections_recorded_count cfg mkt detection_name now value g rest
              Hn Hv Hg Hnd k st count Hs) as (st' & Hrun & _ & l & Hl & Hc).
  exists st', l. split; [exact Hrun|]. split; [exact Hl|].
  rewrite Hfresh in Hc. split; [lia|].
  unfold _detection_filter_consecutive. rewrite Hg. cbn [py_get lookup list_lookup rbind].
  rewrite Hl, Hmax. cbn [truthyZ default].
  replace (m =? 0) with false by (symmetry; apply Z.eqb_neq; exact Hm).
  cbn [negb andb]. do 2 f_equal. lia.
Qed.

Lemma consecutive_filter_limit_witness :
  (exists st' l,
     detections_recorded twice_config crash_market "breakout" 1 (fresh_detector ["breakout"])
     = Ret st' /\
     last_detections st' !! "default" = Some l /\ ld_count l = 1 /\
     _detection_filter_consecutive buy_twice st' = Ret false) /\
  (exists st' l,
     detections_recorded twice_config crash_market "breakout" 2 (fresh_detector ["breakout"])
     = Ret st' /\
     last_detections st' !! "default" = Some l /\ ld_count l = 2 /\
     _detection_filter_consecutive buy_twice st' = Ret true).
Proof.
  assert (Hnd : NoDup ["default"]) by (apply (bool_decide_unpack _); vm_compute; exact I).
  split.
  - apply (consecutive_filter_limit twice_config crash_market (fresh_detector ["breakout"])
             "breakout" "default" [] 1 0 120 40 1 eq_refl Hnd eq_refl);
      try reflexivity; lia.
  - apply (consecutive_filter_limit twice_config crash_market (fresh_detector ["breakout"])
             "breakout" "default" [] 1 0 120 40 2 eq_refl Hnd eq_refl);
      try reflexivity; lia.
Defined.

(** ** The follow-all filter *)

Lemma follow_all_loop_spec mkt st value now :
  py_last (m_adjusted_close_values mkt) = Ret value ->
  Qeq_bool value 0 = false ->
  py_last (m_close_times mkt) = Ret now ->
  forall rules num_passed followed,
    exists passed followed',
      follow_all_loop mkt st rules num_passed followed
      = Ret (num_passed + Z.of_nat passed, followed') /\
      (passed <= length rules)%nat /\
      (passed = length rules <->
       forall rule, In rule rules ->
         exists group, In group (fr_groups rule) /\
                       rule_group_filtered mkt st rule group = Ret false).
Proof.
  intros Hv Hnz Hn. induction rules as [|rule rules IH]; intros num_passed followed;
    cbn [follow_all_loop].
  - exists 0%nat, followed. rewrite Z.add_0_r. split; [reflexivity|].
    split; [cbn; lia|]. split; [intros _ rule []|reflexivity].
  - destruct (follow_rule_passes_spec mkt st value now Hv Hnz Hn rule (fr_groups rule)
                followed) as (passed & followed1 & -> & Hp).
    cbn [rbind].
    destruct (IH (if passed then num_passed + 1 else num_passed) followed1)
      as (n & followed' & Hrun & Hle & Hiff).
    destruct passed.
    + exists (S n), followed'. rewrite Hrun.
      split; [do 2 f_equal; lia|]. split; [cbn; lia|]. cbn [length]. split.
      * intros Heq rule' [<-|Hin]; [apply Hp; reflexivity|].
        apply Hiff; [lia|exact Hin].
      * intros Hall. f_equal. apply Hiff. intros rule' Hin. apply Hall. right. exact Hin.
    + exists n, followed'. rewrite Hrun. split; [reflexivity|].
      split; [cbn; lia|]. cbn [length]. split; [lia|].
      intros Hall. exfalso.
      assert (false = true) by (apply Hp; apply Hall; left; reflexivity).
      discriminate.
Qed.

(** X23 ([_detection_filter_follow_all]).  With data for the pair (a
    current time and a non-zero current value) the follow-all filter returns,
    and it permits the detection exactly when every one of the listed rules
    passes its checks for one of its groups; one rule that fails for all its
    groups is enough for a veto. *)
Theorem follow_all_filter_permits_when_all_pass (cfg : DetectorConfig) (mkt : Market)
    (st : Detector) (params : Detection) (td : TriggerData) (value now : Q) :
  py_last (m_adjusted_close_values mkt) = Ret value ->
  Qeq_bool value 0 = false ->
  py_last (m_close_times mkt) = Ret now ->
  exists filtered td',
    _detection_filter_follow_all cfg mkt st params td = Ret (filtered, td') /\
    (filtered = false <->
     forall rule,
       In rule (map (follow_defaults cfg) (default [] (follow_all params))) ->
       exists group, In group (fr_groups rule) /\
                     rule_group_filtered mkt st rule group = Ret false).
Proof.
  intros Hv Hnz Hn. unfold _detection_filter_follow_all.
  set (rules := map (follow_defaults cfg) (default [] (follow_all params))).
  destruct (follow_all_loop_spec mkt st value now Hv Hnz Hn rules 0 (followed td))
    as (passed & followed' & -> & Hle & Hiff).
  cbn [rbind]. eexists _, _. split; [reflexivity|].
  rewrite <- Hiff, Z.add_0_l, negb_false_iff, Z.eqb_eq. lia.
Qed.

Lemma follow_all_filter_permits_when_all_pass_witness :
  rule_group_filtered crash_market after_dip
    (follow_defaults follow_config (follow_confirmed "dip")) "dip" = Ret false /\
  exists td',
    _detection_filter_follow_all follow_config crash_market after_dip sell_after_all
      aggregate_at_120 = Ret (true, td').
Proof.
  split; [reflexivity|].
  destruct (follow_all_filter_permits_when_all_pass follow_config crash_market after_dip
              sell_after_all aggregate_at_120 40 120 eq_refl eq_refl eq_refl)
    as (filtered & td' & Hrun & Hiff).
  exists td'. rewrite Hrun. destruct filtered; [reflexivity|]. exfalso.
  destruct (proj1 Hiff eq_refl (follow_defaults follow_config (follow_confirmed "surge")))
    as (g & Hg & Hr); [left; reflexivity|].
  destruct Hg as [<-|[]]. vm_compute in Hr. discriminate.
Defined.

(** ** A detection with an unset trigger *)

(** X24 ([process_detections], [_timeout_triggers], [_filter_detection]).
    In the processing of a detection one of whose triggers is not set, or is
    set but older than [time_frame_max], nothing happens beyond the time-out:
    no filter runs, so no occurrence is counted and no statistics are
    updated, no alert is sent and no action is dispatched.  The detector is
    as before except for the triggers of the detection, which are stored as
    the time-out left them. *)
Theorem unset_trigger_is_silent (cfg : DetectorConfig) (mkt : Market) (trader : Trader)
    (st : Detector) (detection_name : string) (triggers : list Trigger)
    (trigger : Trigger) (now : Q) :
  last (m_close_times mkt) = Some now ->
  In trigger triggers ->
  (t_set trigger = false \/
   exists frame_max,
     time_frame_max (get_detection cfg detection_name) = Some frame_max /\
     (frame_max < now - t_time trigger)%Q) ->
  exists triggers',
    _timeout_triggers mkt (get_detection cfg detection_name) triggers = Ret triggers' /\
    In false (map t_set triggers') /\
    process_detection cfg mkt trader st detection_name triggers
    = Ret (with_triggers st (alist_set detection_name triggers' (detection_triggers st))).
Proof.
  intros Hnow Hin Hunset. apply py_last_Some in Hnow.
  assert (Htimeout : exists triggers',
            _timeout_triggers mkt (get_detection cfg detection_name) triggers
            = Ret triggers' /\ In false (map t_set triggers')).
  { unfold _timeout_triggers.
    destruct (time_frame_max (get_detection cfg detection_name)) as [frame_max|] eqn:Hmax.
    - rewrite Hnow. cbn [rbind]. eexists. split; [reflexivity|].
      rewrite map_map. apply in_map_iff. exists trigger. split; [|exact Hin].
      destruct Hunset as [Hset|(frame_max' & Heq & Hold)].
      + destruct (Qlt_bool _ _); [reflexivity|exact Hset].
      + injection Heq as <-. apply Qlt_bool_iff in Hold. rewrite Hold. reflexivity.
    - eexists. split; [reflexivity|].
      destruct Hunset as [Hset|(frame_max' & Heq & _)]; [|discriminate].
      apply in_map_iff. exists trigger. auto. }
  destruct Htimeout as (triggers' & Htimeout & Hfalse).
  exists triggers'. split; [exact Htimeout|]. split; [exact Hfalse|].
  unfold process_detection. rewrite Htimeout. cbn [rbind]. rewrite Hnow. cbn [rbind].
  unfold _filter_detection.
  cbn [_normalize_trigger_values _aggregate_trigger_data set_triggers].
  rewrite (all_flags_false _ Hfalse). reflexivity.
Qed.

Lemma unset_trigger_is_silent_witness :
  exists triggers',
    In false (map t_set triggers') /\
    process_detection crash_config crash_market no_trades both_set "breakout"
      [unset set_trigger_at_60]
    = Ret (with_triggers both_set
             (alist_set "breakout" triggers' (detection_triggers both_set))).
Proof.
  destruct (unset_trigger_is_silent crash_config crash_market no_trades both_set
              "breakout" [unset set_trigger_at_60] (unset set_trigger_at_60) 120)
    as (triggers' & _ & Hfalse & Hrun);
    [reflexivity|left; reflexivity|left; reflexivity|].
  exists triggers'. split; [exact Hfalse|exact Hrun].
Defined.

(** ** A cycle that fires *)

Lemma check_position_holds cfg mkt cache ema a b wa wb first_ma second_ma fl sl :
  alist_lookup (ma_position ema a b) cache = None ->
  (if ema then ema_windows cfg else ma_windows cfg) !! a = Some wa ->
  (if ema then ema_windows cfg else ma_windows cfg) !! b = Some wb ->
  (if ema then m_close_value_emas mkt else m_close_value_mas mkt) !! wa = Some first_ma ->
  (if ema then m_close_value_emas mkt else m_close_value_mas mkt) !! wb = Some second_ma ->
  last first_ma = Some fl -> last second_ma = Some sl ->
  ~ (fl == 0)%Q -> ~ (sl == 0)%Q -> (sl <= fl)%Q ->
  exists cache',
    _check_ma_position cfg mkt cache (ma_position ema a b) ema a b
    = Ret (Some true, {| meta_ma_values := [fl; sl]; meta_ma_positions := [] |}, cache').
Proof.
  intros Hc Ha Hb Hfa Hsb Hfl Hsl Hf0 Hs0 Hle. unfold _check_ma_position, rule_mas.
  rewrite Hc. unfold py_get. rewrite Ha, Hb. cbn [rbind]. rewrite Hfa, Hsb.
  cbn [py_key rbind]. rewrite (py_last_Some _ _ Hfl), (py_last_Some _ _ Hsl).
  unfold isclose_zero.
  replace (Qeq_bool fl 0) with false
    by (symmetry; apply not_true_iff_false; intros E; apply Qeq_bool_iff in E; auto).
  replace (Qeq_bool sl 0) with false
    by (symmetry; apply not_true_iff_false; intros E; apply Qeq_bool_iff in E; auto).
  cbn [orb].
  replace (Qlt_bool fl sl) with false by (symmetry; apply Qlt_bool_false; exact Hle).
  cbn [negb]. eexists. reflexivity.
Qed.

(** X25 ([update_detection_triggers], [process_detections],
    [_filter_detection], [_dispatch_detection_action]).  A cycle on a
    configuration of one detection whose one condition is a position rule,
    with no filter but an occurrence of 1: when the first average of the rule
    is at or above the second (neither being zero), the last two closing
    times are not in the ratio of a flash crash and the indicator check does
    not apply, the cycle returns and dispatches the action of the detection
    once, whatever trigger was stored before; the stored triggers of the
    detection are cleared, its occurrence counter is 0 and its statistics
    count one more. *)
Theorem cycle_fires_on_position (cfg : DetectorConfig) (mkt : Market) (trader : Trader)
    (st : Detector) (detection_name : string) (det : Detection)
    (ema : bool) (a b wa wb : nat) (first_ma second_ma : list Q)
    (fl sl now prev value : Q) (n count : Z) :
  detections cfg = [(detection_name, det)] ->
  conditions det = [[ma_position ema a b]] ->
  occurrence det = Some 1 ->
  time_frame_max det = None ->
  (forall param, param <> P_occurrence -> param_is_set det param = false) ->
  (if ema then ema_windows cfg else ma_windows cfg) !! a = Some wa ->
  (if ema then ema_windows cfg else ma_windows cfg) !! b = Some wb ->
  (if ema then m_close_value_emas mkt else m_close_value_mas mkt) !! wa = Some first_ma ->
  (if ema then m_close_value_emas mkt else m_close_value_mas mkt) !! wb = Some second_ma ->
  last first_ma = Some fl -> last second_ma = Some sl ->
  ~ (fl == 0)%Q -> ~ (sl == 0)%Q -> (sl <= fl)%Q ->
  last (m_close_times mkt) = Some now ->
  py_from_end (m_close_times mkt) 2 = Ret prev ->
  ~ (prev == 0)%Q ->
  (detection_flash_crash_sens cfg < now / prev)%Q ->
  last (m_adjusted_close_values mkt) = Some value ->
  detection_states st !! detection_name = Some n -> 0 <= n ->
  detection_stats st !! detection_name = Some count ->
  trade_use_indicators cfg && is_buy (action det) && enable_rsi cfg && rsi_descending st
  = false ->
  exists st' td,
    cycle cfg mkt trader st = Ret st' /\
    events st' = events st ++ [Dispatch (action det) detection_name td] /\
    all_flags (set_triggers td) = true /\
    alist_lookup detection_name (detection_triggers st') = Some [] /\
    detection_states st' !! detection_name = Some 0 /\
    detection_stats st' !! detection_name = Some (count + 1).
Proof.
  intros Hdets Hconds Hocc Hframe Hparams Ha Hb Hfa Hsb Hfl Hsl Hf0 Hs0 Hle
    Hnow Hprev Hp0 Hcrash Hvalue Hstate Hn Hstats Hrsi.
  pose proof (py_last_Some _ _ Hnow) as Hnow'.
  pose proof (py_last_Some _ _ Hvalue) as Hvalue'.
  destruct (check_position_holds cfg mkt [] ema a b wa wb first_ma second_ma fl sl
              eq_refl Ha Hb Hfa Hsb Hfl Hsl Hf0 Hs0 Hle) as (cache' & Hcheck).
  assert (Hget : _get_detection_trigger cfg mkt (detection_triggers st) []
                   detection_name 0 [ma_position ema a b]
                 = Ret ({| t_time := now; t_set := true; t_ma_values := [fl; sl];
                           t_ma_positions := []; t_ma_norm_distances := [] |}, cache')).
  { unfold _get_detection_trigger. rewrite Hnow'. cbn [rbind check_rules check_rule].
    rewrite Hcheck. reflexivity. }
  assert (Hupd : exists t,
             update_condition cfg mkt (detection_triggers st) [] detection_name 0
               [ma_position ema a b] = Ret (t, cache') /\
             t_set t = true).
  { unfold update_condition. rewrite Hget. cbn [rbind].
    destruct (old_trigger (detection_triggers st) detection_name 0) as [old|].
    - destruct (t_set old) eqn:Hold; eexists; (split; [reflexivity|]);
        [exact Hold|reflexivity].
    - eexists. split; reflexivity. }
  destruct Hupd as (t & Hupd & Hset).
  assert (Hparams' : get_detection cfg detection_name = det).
  { unfold get_detection. rewrite Hdets. cbn [alist_lookup].
    rewrite decide_True by reflexivity. reflexivity. }
  unfold cycle, update_detection_triggers. rewrite Hdets.
  cbn [update_detections]. rewrite Hconds. cbn [update_conditions].
  rewrite Hupd. cbn [rbind app alist_set]. rewrite Hnow'. cbn [rbind].
  unfold process_detections. cbn [detection_triggers process_loop].
  unfold process_detection. rewrite Hparams'.
  unfold _timeout_triggers. rewrite Hframe. cbn [rbind]. rewrite Hnow'. cbn [rbind].
  cbn [with_triggers detection_triggers alist_set].
  rewrite decide_True by reflexivity.
  set (st1 := {| detection_triggers := [(detection_name, [t])] |}).
  set (td := _normalize_trigger_values (_aggregate_trigger_data [t]) now).
  assert (Hall : all_flags (set_triggers td) = true).
  { subst td. cbn. rewrite Hset. reflexivity. }
  unfold _filter_detection. rewrite Hall.
  set (td1 := _set_triggers_time_frame [t] td).
  assert (Hloop : filter_loop cfg mkt trader detection_name det filter_methods st1 td1
                  = Ret (true, with_occurrence (with_occurrence st1 detection_name (n + 1))
                                 detection_name 0, td1)).
  { assert (Hset' : param_is_set det P_occurrence = true).
    { cbn. rewrite Hocc. reflexivity. }
    unfold filter_methods.
    do 9 (cbn [filter_loop];
          match goal with
          | |- context [param_is_set det ?p] => rewrite (Hparams p) by discriminate
          end).
    cbn [filter_loop]. rewrite Hset'. cbn [run_filter]. unfold _detection_filter_occurrence.
    subst st1. cbn [detection_states]. rewrite Hstate, Hocc. cbn [py_key rbind].
    replace (n + 1 <? 1) with false by (symmetry; apply Z.ltb_ge; lia).
    reflexivity. }
  change (with_triggers st1 [(detection_name, [t])]) with st1.
  rewrite Hloop. cbn [rbind].
  cbn [with_occurrence rsi_descending andb]. subst st1. cbn [rsi_descending].
  rewrite Hrsi. cbn [negb].
  unfold flash_crash. rewrite Hnow', Hprev. cbn [rbind].
  rewrite py_div_ret by exact Hp0. cbn [rbind].
  replace (Qle_bool (now / prev) (detection_flash_crash_sens cfg)) with false
    by (symmetry; apply Qle_bool_false; exact Hcrash).
  match goal with
  | |- context [_update_detection_stats cfg mkt ?X detection_name None] =>
      destruct (update_detection_stats_ret cfg mkt X detection_name None count now value
                  Hstats Hnow Hvalue) as (st3 & Hst3 & Hstates3 & Hstats3)
  end.
  pose proof (update_detection_stats_frame _ _ _ _ _ _ Hst3) as [Htr Hev].
  rewrite Hst3. cbn [rbind]. exists (clear_triggers st3 detection_name), td1.
  split; [reflexivity|].
  cbn [clear_triggers with_triggers events detection_triggers detection_states
         detection_stats].
  split; [rewrite Hev; reflexivity|]. split.
  { subst td1. rewrite set_triggers_time_frame_flags. exact Hall. }
  split; [apply alist_lookup_set_eq|]. split.
  - rewrite Hstates3. cbn [with_event with_occurrence detection_states].
    apply lookup_insert_eq.
  - rewrite Hstats3. apply lookup_insert_eq.
Qed.

Lemma cycle_fires_on_position_witness :
  exists st' td,
    cycle crash_config crash_market no_trades (fresh_detector ["breakout"]) = Ret st' /\
    events st' = [Dispatch "buy" "breakout" td] /\
    all_flags (set_triggers td) = true /\
    alist_lookup "breakout" (detection_triggers st') = Some [] /\
    detection_states st' !! "breakout" = Some 0 /\
    detection_stats st' !! "breakout" = Some (0 + 1).
Proof.
  apply (cycle_fires_on_position crash_config crash_market no_trades
           (fresh_detector ["breakout"]) "breakout" buy_on_position false 0 1 5 10
           [90; 88]%Q [80; 79]%Q 88 79 120 60 40 0 0);
    try reflexivity; try (vm_compute; discriminate); try lia.
  intros param Hp. destruct param; try reflexivity. contradiction.
Defined.
